(** * gh-gl-create-refs: the rate-governed merge-request fetch pipeline
      and the two-column CSV codec

    A shallow embedding of [pkg/gitlab/client.go] and [pkg/csv/writer.go].

    - Go's [int] and [time.Duration] are 64-bit: they are [Z] with the
      wrap-around of the one multiplication and the one subtraction the
      code performs written out ([Go.wrap64]).
    - Effects (the process clock, [time.Sleep], the remote platform, the
      sink callback) are threaded explicitly through a state-and-log monad
      [M]: every sleep, request and sink invocation is appended to an event
      log, which is what the theorems speak about.
    - The [for { ... }] pagination loop need not terminate (the platform
      chooses the cursor), so it is embedded with fuel.
    - [fmt.Printf] progress output, and the page counter that only feeds
      it, are not modelled. *)

From Stdlib Require Import ZArith Lia String Ascii List Decimal DecimalString DecimalZ.
From stdpp Require Import base gmap strings list.

Open Scope string_scope.
Open Scope list_scope.
Open Scope Z_scope.

(* ===================================================================== *)
(** ** Go primitives: 64-bit integers, errors, strconv *)
(* ===================================================================== *)

Module Go.

Definition minInt64 : Z := - 2 ^ 63.
Definition maxInt64 : Z := 2 ^ 63 - 1.

Definition in_int64 (z : Z) : Prop := minInt64 <= z <= maxInt64.

(** The value an [int64] holds after an arithmetic operation whose
    mathematical result is [z] (two's complement wrap-around). *)
Definition wrap64 (z : Z) : Z := (z + 2 ^ 63) mod 2 ^ 64 - 2 ^ 63.

(** Go [error] values as the code builds them: [errors.New]-like leaves
    (errors coming from the platform client, the sink, the OS, strconv) and
    [fmt.Errorf("...%w", err)] wrappers, which keep the wrapped error. *)
Inductive error : Type :=
| New (msg : string)
| Wrap (msg : string) (err : error).

(** [err.Error()] *)
Definition Error (e : error) : string :=
  match e with
  | New msg => msg
  | Wrap msg _ => msg
  end.

(** [errors.Unwrap(err)] *)
Definition Unwrap (e : error) : option error :=
  match e with
  | New _ => None
  | Wrap _ err => Some err
  end.

(** [strconv.Itoa]: shortest decimal numeral, with a leading [-] for
    negative numbers. *)
Definition Itoa (i : Z) : string := NilZero.string_of_int (Z.to_int i).

(** [fmt.Errorf(prefix + "%w", err)] where [prefix] is the already
    formatted text in front of the verb. *)
Definition Errorf_w (prefix : string) (err : error) : error :=
  Wrap (prefix +:+ Error err) err.

(** [strconv.Atoi] on a 64-bit platform: an optional sign, then one or more
    decimal digits and nothing else; [None] stands for a non-nil [err]
    (syntax or range). *)
Definition Atoi (s : string) : option Z :=
  match s with
  | EmptyString => None
  | String c rest =>
    let neg := Ascii.eqb c "-" in
    let digits := if neg || Ascii.eqb c "+" then rest else s in
    match digits with
    | EmptyString => None
    | String _ _ =>
      match NilEmpty.uint_of_string digits with
      | None => None
      | Some d =>
        let n := Z.of_uint d in
        let v := if neg then - n else n in
        if (minInt64 <=? v) && (v <=? maxInt64) then Some v else None
      end
    end
  end.

End Go.

(* ===================================================================== *)
(** ** package time *)
(* ===================================================================== *)

Module time.

(** [time.Duration]: an [int64] count of nanoseconds. *)
Definition Duration : Type := Z.

Definition Nanosecond : Duration := 1.
Definition Millisecond : Duration := 1000000.
Definition Second : Duration := 1000000000.

(** [time.Time]: [None] is the zero value (the only one for which
    [IsZero] holds), [Some t] an instant read off the process clock, in
    nanoseconds. *)
Definition Time : Type := option Z.

Definition IsZero (t : Time) : bool :=
  match t with
  | None => true
  | Some _ => false
  end.

(** [t.Sub(u)] for a clock reading [t]: the difference, saturated to the
    range of [Duration]; the zero [Time] lies further back than a
    [Duration] can express. *)
Definition Sub (t : Z) (u : Time) : Duration :=
  match u with
  | Some u => Z.max Go.minInt64 (Z.min Go.maxInt64 (t - u))
  | None => Go.maxInt64
  end.

End time.

(* ===================================================================== *)
(** ** net/http: what the governor reads of a response *)
(* ===================================================================== *)

Module http.

(** [http.Header] is [map[string][]string].  Keys are compared up to
    canonical MIME form on both sides in Go; here a key stands for its
    canonical class and is spelled the way client.go spells it. *)
Record Response : Type := mkResponse {
  Header : gmap string (list string);
  StatusCode : Z
}.

(** [h.Get(key)]: the first value stored under [key], or the empty string. *)
Definition Get (h : gmap string (list string)) (key : string) : string :=
  match h !! key with
  | Some (v :: _) => v
  | _ => ""
  end.

End http.

(* ===================================================================== *)
(** ** gitlab.com/gitlab-org/api/client-go: the types client.go touches *)
(* ===================================================================== *)

Module gitlabapi.

(** A listing entry ([gitlab.BasicMergeRequest]). *)
Record BasicMergeRequest : Type := mkBasic {
  ID : Z;
  IID : Z
}.

(** A detail record ([gitlab.MergeRequest]); [HeadSha] is
    [DiffRefs.HeadSha]. *)
Record MergeRequest : Type := mkDetail {
  dID : Z;
  dIID : Z;
  HeadSha : string
}.

(** [gitlab.Response]: the embedded [*http.Response] (possibly nil) and
    the pagination cursor. *)
Record Response : Type := mkResp {
  Response_ : option http.Response;
  NextPage : Z
}.

(** [gitlab.ListProjectMergeRequestsOptions], the fields client.go sets;
    [Page = 0] is Go's zero value (no page requested explicitly). *)
Record ListProjectMergeRequestsOptions : Type := mkOpts {
  Page : Z;
  PerPage : Z;
  State : option string
}.

End gitlabapi.

(* ===================================================================== *)
(** ** package gitlab (pkg/gitlab/client.go) *)
(* ===================================================================== *)

Module gitlab.

Import Go.

(** [MergeRequestRef] represents a merge request reference. *)
Record MergeRequestRef : Type := mkRef {
  ID : Z;
  IID : Z;
  HeadSHA : string
}.

Definition ListResult : Type :=
  (error + (list gitlabapi.BasicMergeRequest * gitlabapi.Response))%type.

Definition GetResult : Type :=
  (error + (gitlabapi.MergeRequest * gitlabapi.Response))%type.

(** What a run does to the outside, in order. *)
Inductive Event : Type :=
| EvSleep (d : time.Duration)
| EvList (projectPath : string)
         (opts : gitlabapi.ListProjectMergeRequestsOptions) (res : ListResult)
| EvGet (projectPath : string) (mr : gitlabapi.BasicMergeRequest) (res : GetResult)
| EvSink (ref : MergeRequestRef) (res : option error).

Section WithPlatform.

(** The state of everything outside the process: the remote platform and
    whatever the sink writes to. *)
Context {PS : Type}.

(** The world a run executes in.  [drift] is the time the environment lets
    pass before each reading of the clock (request latency, scheduling,
    oversleeping), one entry per reading, negative entries counting as 0:
    readings never go backwards and a sleep of [d] lets at least [d]
    elapse. *)
Record World : Type := mkWorld {
  clock : Z;
  drift : list Z;
  ext : PS
}.

(** State-and-log monad of the run. *)
Definition M (A : Type) : Type := World -> A * World * list Event.

Definition ret {A : Type} (a : A) : M A := fun w => (a, w, []).

Definition bind {A B : Type} (m : M A) (k : A -> M B) : M B :=
  fun w =>
    let '(a, w1, l1) := m w in
    let '(b, w2, l2) := k a w1 in
    (b, w2, l1 ++ l2).

Notation "'do' x <- m ; k" := (bind m (fun x => k))
  (at level 10, x pattern, m at level 100, k at level 200).

(** [time.Now()] *)
Definition time_Now : M Z :=
  fun w =>
    let t := clock w + Z.max 0 (hd 0 (drift w)) in
    (t, {| clock := t; drift := tl (drift w); ext := ext w |}, []).

(** [time.Sleep(d)]: returns immediately when [d <= 0]. *)
Definition time_Sleep (d : time.Duration) : M unit :=
  fun w =>
    (tt, {| clock := clock w + Z.max 0 d; drift := drift w; ext := ext w |},
     [EvSleep d]).

(** [*gitlab.Client], by the two calls made on it. *)
Record GitlabClient : Type := mkGitlabClient {
  ListProjectMergeRequests :
    string -> gitlabapi.ListProjectMergeRequestsOptions -> PS -> ListResult * PS;
  GetMergeRequest : string -> Z -> PS -> GetResult * PS
}.

(** [Client] wraps the GitLab client with additional functionality. *)
Record Client : Type := mkClient {
  client : GitlabClient;
  lastRequestTime : time.Time;
  minInterval : time.Duration
}.

(** [MergeRequestProcessor] is a callback that processes each merge request
    as it is fetched. *)
Definition MergeRequestProcessor : Type := MergeRequestRef -> PS -> option error * PS.

Definition set_lastRequestTime (c : Client) (t : time.Time) : Client :=
  {| client := client c; lastRequestTime := t; minInterval := minInterval c |}.

Definition set_minInterval (c : Client) (d : time.Duration) : Client :=
  {| client := client c; lastRequestTime := lastRequestTime c; minInterval := d |}.

(** [NewClient], given what [gitlab.NewClient(token, ...)] returned. *)
Definition NewClient (made : error + GitlabClient) : error + Client :=
  match made with
  | inl err => inl (Errorf_w "failed to create GitLab client: " err)
  | inr cl =>
    inr {| client := cl;
           lastRequestTime := None;
           minInterval := 100 * time.Millisecond |}
  end.

(** [rateLimitWait] ensures we don't exceed rate limits by waiting if
    necessary. *)
Definition rateLimitWait (c : Client) : M Client :=
  do now <- time_Now;
  do _ <- (if negb (time.IsZero (lastRequestTime c)) then
             let elapsed := time.Sub now (lastRequestTime c) in
             if elapsed <? minInterval c then
               let sleepDuration := wrap64 (minInterval c - elapsed) in
               time_Sleep sleepDuration
             else ret tt
           else ret tt);
  do t <- time_Now;
  ret (set_lastRequestTime c (Some t)).

(** [checkRateLimitHeaders] examines GitLab's rate limit headers and
    adjusts behaviour accordingly. *)
Definition checkRateLimitHeaders (c : Client) (resp : option http.Response) : M Client :=
  match resp with
  | None => ret c
  | Some resp =>
    let rateLimitRemaining := http.Get (http.Header resp) "RateLimit-Remaining" in
    let rateLimitReset := http.Get (http.Header resp) "RateLimit-ResetTime" in
    let rateLimitRemaining :=
      if String.eqb rateLimitRemaining ""
      then http.Get (http.Header resp) "X-RateLimit-Remaining"
      else rateLimitRemaining in
    let rateLimitReset :=
      if String.eqb rateLimitReset ""
      then http.Get (http.Header resp) "X-RateLimit-Reset"
      else rateLimitReset in
    let c :=
      if negb (String.eqb rateLimitRemaining "") then
        match Atoi rateLimitRemaining with
        | Some remaining =>
          if remaining <=? 10 then set_minInterval c (1 * time.Second)
          else if remaining <=? 5 then set_minInterval c (5 * time.Second)
          else c
        | None => c
        end
      else c in
    if http.StatusCode resp =? 429 then
      let retryAfter := http.Get (http.Header resp) "Retry-After" in
      let fallback := do _ <- time_Sleep (60 * time.Second); ret c in
      if negb (String.eqb retryAfter "") then
        match Atoi retryAfter with
        | Some seconds =>
          let sleepDuration := wrap64 (seconds * time.Second) in
          do _ <- time_Sleep sleepDuration;
          ret c
        | None => fallback
        end
      else fallback
    else ret c
  end.

(** [c.client.MergeRequests.ListProjectMergeRequests(projectPath, opts)] *)
Definition call_ListProjectMergeRequests (c : Client) (projectPath : string)
    (opts : gitlabapi.ListProjectMergeRequestsOptions) : M ListResult :=
  fun w =>
    let '(res, ps) := ListProjectMergeRequests (client c) projectPath opts (ext w) in
    (res, {| clock := clock w; drift := drift w; ext := ps |},
     [EvList projectPath opts res]).

(** [c.client.MergeRequests.GetMergeRequest(projectPath, mr.IID, nil)] *)
Definition call_GetMergeRequest (c : Client) (projectPath : string)
    (mr : gitlabapi.BasicMergeRequest) : M GetResult :=
  fun w =>
    let '(res, ps) := GetMergeRequest (client c) projectPath (gitlabapi.IID mr) (ext w) in
    (res, {| clock := clock w; drift := drift w; ext := ps |},
     [EvGet projectPath mr res]).

(** [processor(ref)] *)
Definition call_processor (processor : MergeRequestProcessor) (ref : MergeRequestRef)
    : M (option error) :=
  fun w =>
    let '(res, ps) := processor ref (ext w) in
    (res, {| clock := clock w; drift := drift w; ext := ps |}, [EvSink ref res]).

(** The body of [for _, mr := range mrs { ... }] in [FetchMergeRequestRefs].
    [Some err] is the [return err] that leaves the whole function. *)
Fixpoint rangeMrs (projectPath : string) (processor : MergeRequestProcessor)
    (mrs : list gitlabapi.BasicMergeRequest) (c : Client) : M (option error * Client) :=
  match mrs with
  | [] => ret (None, c)
  | mr :: rest =>
    do c <- rateLimitWait c;
    do got <- call_GetMergeRequest c projectPath mr;
    match got with
    | inl err =>
      ret (Some (Errorf_w ("failed to fetch merge request "
                             +:+ Itoa (gitlabapi.IID mr) +:+ ": ") err), c)
    | inr (detailedMR, detailResp) =>
      do c <- checkRateLimitHeaders c (gitlabapi.Response_ detailResp);
      if negb (String.eqb (gitlabapi.HeadSha detailedMR) "") then
        let ref := {| ID := gitlabapi.ID mr;
                      IID := gitlabapi.IID mr;
                      HeadSHA := gitlabapi.HeadSha detailedMR |} in
        do failed <- call_processor processor ref;
        match failed with
        | Some err =>
          ret (Some (Errorf_w ("failed to process merge request "
                                 +:+ Itoa (gitlabapi.IID mr) +:+ ": ") err), c)
        | None => rangeMrs projectPath processor rest c
        end
      else rangeMrs projectPath processor rest c
    end
  end.

(** How an execution of the pagination loop ends within [fuel] iterations. *)
Inductive Outcome : Type :=
| Returned (err : option error)
| OutOfFuel.

Definition set_Page (opts : gitlabapi.ListProjectMergeRequestsOptions) (p : Z)
    : gitlabapi.ListProjectMergeRequestsOptions :=
  {| gitlabapi.Page := p;
     gitlabapi.PerPage := gitlabapi.PerPage opts;
     gitlabapi.State := gitlabapi.State opts |}.

(** The [for { ... }] loop of [FetchMergeRequestRefs], at most [fuel]
    iterations (one listing request each). *)
Fixpoint pages (fuel : nat) (projectPath : string) (processor : MergeRequestProcessor)
    (opts : gitlabapi.ListProjectMergeRequestsOptions) (c : Client)
    : M (Outcome * Client) :=
  match fuel with
  | O => ret (OutOfFuel, c)
  | S fuel =>
    do c <- rateLimitWait c;
    do listed <- call_ListProjectMergeRequests c projectPath opts;
    match listed with
    | inl err => ret (Returned (Some (Errorf_w "failed to fetch merge requests: " err)), c)
    | inr (mrs, resp) =>
      do c <- checkRateLimitHeaders c (gitlabapi.Response_ resp);
      do ranged <- rangeMrs projectPath processor mrs c;
      let '(failed, c) := ranged in
      match failed with
      | Some err => ret (Returned (Some err), c)
      | None =>
        if gitlabapi.NextPage resp =? 0 then ret (Returned None, c)
        else pages fuel projectPath processor (set_Page opts (gitlabapi.NextPage resp)) c
      end
    end
  end.

(** [FetchMergeRequestRefs] fetches all merge request references for a given
    repository and processes them via callback. *)
Definition FetchMergeRequestRefs (fuel : nat) (c : Client) (projectPath : string)
    (processor : MergeRequestProcessor) : M (Outcome * Client) :=
  let opts := {| gitlabapi.Page := 0;
                 gitlabapi.PerPage := 100;
                 gitlabapi.State := Some "all" |} in
  pages fuel projectPath processor opts c.

End WithPlatform.

Arguments World : clear implicits.
Arguments M : clear implicits.
Arguments GitlabClient : clear implicits.
Arguments Client : clear implicits.
Arguments MergeRequestProcessor : clear implicits.

End gitlab.

(* ===================================================================== *)
(** ** Observations of a run *)
(* ===================================================================== *)

Module run.

Import Go gitlab.

Section Observe.

Context {PS : Type} {A : Type}.

(** What a computation returns, the world it leaves, and what it did,
    when started in world [w]. *)
Definition value (m : M PS A) (w : World PS) : A := fst (fst (m w)).
Definition world (m : M PS A) (w : World PS) : World PS := snd (fst (m w)).
Definition log (m : M PS A) (w : World PS) : list Event := snd (m w).

End Observe.

(** The two operations of the rate governor, as the fetcher calls them. *)
Inductive GovernorCall : Type :=
| beforeRequest
| afterResponse (resp : option http.Response).

Definition governorCall {PS : Type} (call : GovernorCall) (c : Client PS) : M PS (Client PS) :=
  match call with
  | beforeRequest => rateLimitWait c
  | afterResponse resp => checkRateLimitHeaders c resp
  end.

(** A sequence of governor calls on one client, in one world. *)
Fixpoint governorCalls {PS : Type} (calls : list GovernorCall) (c : Client PS)
    : M PS (Client PS) :=
  match calls with
  | [] => ret c
  | call :: rest => bind (governorCall call c) (governorCalls rest)
  end.

(** The remaining-quota value [checkRateLimitHeaders] consults: the primary
    header, or the alternate one when the primary is absent. *)
Definition remainingHeader (resp : http.Response) : string :=
  let primary := http.Get (http.Header resp) "RateLimit-Remaining" in
  if String.eqb primary "" then http.Get (http.Header resp) "X-RateLimit-Remaining"
  else primary.

(** The client a successful [NewClient] returns. *)
Definition freshClient {PS : Type} (cl : GitlabClient PS) : Client PS :=
  {| client := cl; lastRequestTime := None; minInterval := 100 * time.Millisecond |}.

(** One call of [rateLimitWait], spelled out: the first clock reading, the
    sleep (if any), the second clock reading. *)
Definition firstReading {PS : Type} (w : World PS) : Z := clock w + Z.max 0 (hd 0 (drift w)).

Definition waitNeeded {PS : Type} (c : Client PS) (w : World PS) : option time.Duration :=
  if negb (time.IsZero (lastRequestTime c)) then
    let elapsed := time.Sub (firstReading w) (lastRequestTime c) in
    if elapsed <? minInterval c then Some (wrap64 (minInterval c - elapsed)) else None
  else None.

Definition secondReading {PS : Type} (c : Client PS) (w : World PS) : Z :=
  match waitNeeded c w with
  | Some d => firstReading w + Z.max 0 d
  | None => firstReading w
  end + Z.max 0 (hd 0 (tl (drift w))).

(** What holds of the governor's state throughout a run: [minInterval] is a
    value of its 64-bit type, and the request start recorded last is not
    in the future. *)
Definition governed {PS : Type} (c : Client PS) (w : World PS) : Prop :=
  in_int64 (minInterval c) /\
  forall last, lastRequestTime c = Some last -> last <= clock w.

(** A platform with no merge requests, and the world at time 0 in which
    nothing drifts: the smallest setting to run the governor in. *)
Definition emptyProject : GitlabClient unit :=
  {| ListProjectMergeRequests := fun _ _ ps => (inr ([], gitlabapi.mkResp None 0), ps);
     GetMergeRequest := fun _ _ ps => (inl (New "404 Not Found"), ps) |}.

Definition stillWorld : World unit := {| clock := 0; drift := []; ext := tt |}.

(** A project served in pages, for running the fetcher on: [book] holds
    the pages, each entry with the head hash its detail record reports; the
    cursor of page k is k+1, and 0 on the last page; listing the pages in
    [brokenPage] and looking up the items in [brokenItem] fails.  The
    outside state is what the sink has stored so far. *)
Record Project : Type := mkProject {
  book : list (list (gitlabapi.BasicMergeRequest * string));
  brokenPage : Z -> bool;
  brokenItem : Z -> bool
}.

Definition serve (pr : Project) : GitlabClient (list MergeRequestRef) :=
  {| ListProjectMergeRequests := fun _ opts ps =>
       let k := if gitlabapi.Page opts =? 0 then 1 else gitlabapi.Page opts in
       if brokenPage pr k then (inl (New "500 Internal Server Error"), ps)
       else
         match nth_error (book pr) (Z.to_nat (k - 1)) with
         | Some page =>
           let next := if k <? Z.of_nat (length (book pr)) then k + 1 else 0 in
           (inr (map fst page, gitlabapi.mkResp None next), ps)
         | None => (inr ([], gitlabapi.mkResp None 0), ps)
         end;
     GetMergeRequest := fun _ iid ps =>
       if brokenItem pr iid then (inl (New "connection reset by peer"), ps)
       else
         match find (fun it => gitlabapi.IID (fst it) =? iid) (concat (book pr)) with
         | Some (mr, sha) =>
           (inr (gitlabapi.mkDetail (gitlabapi.ID mr) (gitlabapi.IID mr) sha,
                 gitlabapi.mkResp None 0), ps)
         | None => (inl (New "404 Not Found"), ps)
         end |}.

(** A sink that stores what it is given and never fails. *)
Definition storeRef : MergeRequestProcessor (list MergeRequestRef) :=
  fun ref ps => (None, ps ++ [ref]).

Definition emptyStore : World (list MergeRequestRef) :=
  {| clock := 0; drift := []; ext := [] |}.

(** Two pages, three merge requests, the second without head hash. *)
Definition smallBook : list (list (gitlabapi.BasicMergeRequest * string)) :=
  [[(gitlabapi.mkBasic 501 1, "aaa"); (gitlabapi.mkBasic 502 2, "")];
   [(gitlabapi.mkBasic 503 3, "ccc")]].

Definition smallProject : Project :=
  {| book := smallBook; brokenPage := fun _ => false; brokenItem := fun _ => false |}.

(** [count] consecutive merge requests from number [from] on, with the
    head hashes [sha] gives them. *)
Definition numbered (from count : nat) (sha : Z -> string)
    : list (gitlabapi.BasicMergeRequest * string) :=
  map (fun i => (gitlabapi.mkBasic (1000 + Z.of_nat i) (Z.of_nat i), sha (Z.of_nat i)))
      (seq from count).

Definition shaOf (i : Z) : string := "sha" +:+ Itoa i.

(** 150 merge requests in pages of 100.  In [gappyProject], number 37 has
    no head hash; in [flakyProject], looking up number 80 fails. *)
Definition gappyProject : Project :=
  let sha := fun i => if i =? 37 then "" else shaOf i in
  {| book := [numbered 1 100 sha; numbered 101 50 sha];
     brokenPage := fun _ => false; brokenItem := fun _ => false |}.

Definition flakyProject : Project :=
  {| book := [numbered 1 100 shaOf; numbered 101 50 shaOf];
     brokenPage := fun _ => false; brokenItem := Z.eqb 80 |}.

Definition with_status (resp : http.Response) (status : Z) : http.Response :=
  {| http.Header := http.Header resp; http.StatusCode := status |}.

(** *** Reading the log of a fetch *)

(** The references handed to the sink, in order. *)
Definition sinkRefs (l : list Event) : list MergeRequestRef :=
  flat_map (fun e => match e with EvSink ref _ => [ref] | _ => [] end) l.

(** The listing entries a detail lookup was issued for, in order. *)
Definition lookedUp (l : list Event) : list gitlabapi.BasicMergeRequest :=
  flat_map (fun e => match e with EvGet _ mr _ => [mr] | _ => [] end) l.

(** The detail records obtained, each with the listing entry it was
    requested for. *)
Definition fetched (l : list Event)
    : list (gitlabapi.BasicMergeRequest * gitlabapi.MergeRequest) :=
  flat_map (fun e => match e with
                     | EvGet _ mr (inr (detailed, _)) => [(mr, detailed)]
                     | _ => []
                     end) l.

(** The listing requests made, each with what came back. *)
Definition listings (l : list Event)
    : list (gitlabapi.ListProjectMergeRequestsOptions * ListResult) :=
  flat_map (fun e => match e with EvList _ opts res => [(opts, res)] | _ => [] end) l.

(** The entries of all pages received, in platform order. *)
Definition listedItems (l : list Event) : list gitlabapi.BasicMergeRequest :=
  flat_map (fun e => match e with EvList _ _ (inr (mrs, _)) => mrs | _ => [] end) l.

(** The error [FetchMergeRequestRefs] returns for a failed step; [None]
    for an event that is not a failure. *)
Definition abortError (e : Event) : option error :=
  match e with
  | EvList _ _ (inl err) => Some (Errorf_w "failed to fetch merge requests: " err)
  | EvGet _ mr (inl err) =>
    Some (Errorf_w ("failed to fetch merge request "
                      +:+ Itoa (gitlabapi.IID mr) +:+ ": ") err)
  | EvSink ref (Some err) =>
    Some (Errorf_w ("failed to process merge request " +:+ Itoa (IID ref) +:+ ": ") err)
  | _ => None
  end.

(** What the sink is due for one detail record: nothing when the head hash
    is empty, else the reference built from the listing entry's two
    identifiers and the record's hash. *)
Definition emitted (item : gitlabapi.BasicMergeRequest * gitlabapi.MergeRequest)
    : list MergeRequestRef :=
  let '(mr, detailed) := item in
  if String.eqb (gitlabapi.HeadSha detailed) "" then []
  else [{| ID := gitlabapi.ID mr; IID := gitlabapi.IID mr;
           HeadSHA := gitlabapi.HeadSha detailed |}].

(** The listing requests follow the cursor: the first asks for page [p],
    each next one for the [NextPage] of the response before it, which was
    not 0; nothing is requested after a failed listing. *)
Fixpoint followsCursor (p : Z)
    (ls : list (gitlabapi.ListProjectMergeRequestsOptions * ListResult)) : Prop :=
  match ls with
  | [] => True
  | (opts, res) :: rest =>
    gitlabapi.Page opts = p /\
    match res with
    | inl _ => rest = []
    | inr (_, resp) =>
      (rest <> [] -> gitlabapi.NextPage resp <> 0) /\
      followsCursor (gitlabapi.NextPage resp) rest
    end
  end.

(** A step that did not fail. *)
Definition succeeded (e : Event) : Prop := abortError e = None.

(** A log ends at its first failed step, and the error returned is the one
    of that step; a log without failure returns no error. *)
Definition FailFast (l : list Event) (r : option error) : Prop :=
  match r with
  | None => Forall succeeded l
  | Some err =>
    exists l1 e, l = l1 ++ [e] /\ Forall succeeded l1 /\ abortError e = Some err
  end.

Definition outcomeError (out : Outcome) : option error :=
  match out with
  | Returned r => r
  | OutOfFuel => None
  end.

Definition isSleep (e : Event) : Prop :=
  match e with
  | EvSleep _ => True
  | _ => False
  end.

(** *** The calls behind the log *)

(** The outside state after the call a logged step records, made in state
    [ps] on the client [cl] and the sink [processor]. *)
Definition after {PS : Type} (cl : GitlabClient PS) (processor : MergeRequestProcessor PS)
    (e : Event) (ps : PS) : PS :=
  match e with
  | EvSleep _ => ps
  | EvList projectPath opts _ => snd (ListProjectMergeRequests cl projectPath opts ps)
  | EvGet projectPath mr _ => snd (GetMergeRequest cl projectPath (gitlabapi.IID mr) ps)
  | EvSink ref _ => snd (processor ref ps)
  end.

(** The result a logged step records is what that call returned in state
    [ps]. *)
Definition answers {PS : Type} (cl : GitlabClient PS) (processor : MergeRequestProcessor PS)
    (e : Event) (ps : PS) : Prop :=
  match e with
  | EvSleep _ => True
  | EvList projectPath opts res =>
    res = fst (ListProjectMergeRequests cl projectPath opts ps)
  | EvGet projectPath mr res =>
    res = fst (GetMergeRequest cl projectPath (gitlabapi.IID mr) ps)
  | EvSink ref res => res = fst (processor ref ps)
  end.

(** The outside state after the calls of a whole log, one after the
    other. *)
Fixpoint stateAfter {PS : Type} (cl : GitlabClient PS) (processor : MergeRequestProcessor PS)
    (l : list Event) (ps : PS) : PS :=
  match l with
  | [] => ps
  | e :: rest => stateAfter cl processor rest (after cl processor e ps)
  end.

(** Every step of the log is a call that was made, in the state the steps
    before it left, and records what the call returned: a listing or detail
    result in the log is the platform's answer, a sink result is what the
    sink returned when it was run on that reference. *)
Fixpoint performed {PS : Type} (cl : GitlabClient PS) (processor : MergeRequestProcessor PS)
    (l : list Event) (ps : PS) : Prop :=
  match l with
  | [] => True
  | e :: rest =>
    answers cl processor e ps /\
    performed cl processor rest (after cl processor e ps)
  end.

(** Between two steps of a run started in state [ps]: the steps so far are
    calls made on the client [cl], and have left the outside state as it is
    now. *)
Definition retraced {PS : Type} (cl : GitlabClient PS) (processor : MergeRequestProcessor PS)
    (ps : PS) (c : Client PS) (w : World PS) (l : list Event) : Prop :=
  client c = cl /\
  performed cl processor l ps /\
  ext w = stateAfter cl processor l ps.


(** The shape of the log of the [range] loop over one page, with its
    result: per entry, governor sleeps, the detail lookup, governor sleeps,
    and the sink invocation when the hash is not empty; the loop stops at
    the first failure. *)
Inductive RangeLog (projectPath : string)
    : list gitlabapi.BasicMergeRequest -> list Event -> option error -> Prop :=
| RangeDone : RangeLog projectPath [] [] None
| RangeGetFailed mr rest s1 err :
    Forall isSleep s1 ->
    RangeLog projectPath (mr :: rest)
      (s1 ++ [EvGet projectPath mr (inl err)])
      (abortError (EvGet projectPath mr (inl err)))
| RangeSkipped mr rest s1 detailed resp s2 l r :
    Forall isSleep s1 -> Forall isSleep s2 ->
    gitlabapi.HeadSha detailed = "" ->
    RangeLog projectPath rest l r ->
    RangeLog projectPath (mr :: rest)
      (s1 ++ EvGet projectPath mr (inr (detailed, resp)) :: s2 ++ l) r
| RangeSinkFailed mr rest s1 detailed resp s2 err :
    Forall isSleep s1 -> Forall isSleep s2 ->
    gitlabapi.HeadSha detailed <> "" ->
    let ref := {| ID := gitlabapi.ID mr; IID := gitlabapi.IID mr;
                  HeadSHA := gitlabapi.HeadSha detailed |} in
    RangeLog projectPath (mr :: rest)
      (s1 ++ EvGet projectPath mr (inr (detailed, resp)) :: s2 ++ [EvSink ref (Some err)])
      (abortError (EvSink ref (Some err)))
| RangeSunk mr rest s1 detailed resp s2 l r :
    Forall isSleep s1 -> Forall isSleep s2 ->
    gitlabapi.HeadSha detailed <> "" ->
    let ref := {| ID := gitlabapi.ID mr; IID := gitlabapi.IID mr;
                  HeadSHA := gitlabapi.HeadSha detailed |} in
    RangeLog projectPath rest l r ->
    RangeLog projectPath (mr :: rest)
      (s1 ++ EvGet projectPath mr (inr (detailed, resp)) :: s2 ++ EvSink ref None :: l) r.

(** The shape of the log of the pagination loop, with its outcome. *)
Inductive PagesLog (projectPath : string)
    : nat -> gitlabapi.ListProjectMergeRequestsOptions -> list Event -> Outcome -> Prop :=
| PagesOutOfFuel opts : PagesLog projectPath O opts [] OutOfFuel
| PagesListFailed fuel opts s1 err :
    Forall isSleep s1 ->
    PagesLog projectPath (S fuel) opts
      (s1 ++ [EvList projectPath opts (inl err)])
      (Returned (abortError (EvList projectPath opts (inl err))))
| PagesItemFailed fuel opts s1 mrs resp s2 lr err :
    Forall isSleep s1 -> Forall isSleep s2 ->
    RangeLog projectPath mrs lr (Some err) ->
    PagesLog projectPath (S fuel) opts
      (s1 ++ EvList projectPath opts (inr (mrs, resp)) :: s2 ++ lr)
      (Returned (Some err))
| PagesLast fuel opts s1 mrs resp s2 lr :
    Forall isSleep s1 -> Forall isSleep s2 ->
    RangeLog projectPath mrs lr None ->
    gitlabapi.NextPage resp = 0 ->
    PagesLog projectPath (S fuel) opts
      (s1 ++ EvList projectPath opts (inr (mrs, resp)) :: s2 ++ lr)
      (Returned None)
| PagesNext fuel opts s1 mrs resp s2 lr l out :
    Forall isSleep s1 -> Forall isSleep s2 ->
    RangeLog projectPath mrs lr None ->
    gitlabapi.NextPage resp <> 0 ->
    PagesLog projectPath fuel (set_Page opts (gitlabapi.NextPage resp)) l out ->
    PagesLog projectPath (S fuel) opts
      (s1 ++ EvList projectPath opts (inr (mrs, resp)) :: s2 ++ lr ++ l)
      out.

End run.

(* ===================================================================== *)
(** ** package os: a flat file system *)
(* ===================================================================== *)

Module os.

Import Go.

(** Files by name, on a system that refuses nothing: every name but the
    empty one can be created and written.  What a system can refuse
    (directories, permissions, full disks) is in [sys] below, of which this
    is the case without refusals. *)
Abbreviation FileSystem := (gmap string string).

(** [os.Create(name)]: the file exists and is empty afterwards. *)
Definition Create (name : string) (fs : FileSystem) : error + FileSystem :=
  if String.eqb name "" then inl (New "open : no such file or directory")
  else inr (<[name := ""]> fs).

(** [os.Open(name)] followed by reading the file to its end. *)
Definition Open (name : string) (fs : FileSystem) : error + string :=
  match fs !! name with
  | Some content => inr content
  | None => inl (New ("open " +:+ name +:+ ": no such file or directory"))
  end.

End os.

(* ===================================================================== *)
(** ** encoding/csv, as configured by [csv.NewWriter] and [csv.NewReader]
       (comma separated, LF line ends, no lazy quotes, no comment
       character, field count fixed by the first record) *)
(* ===================================================================== *)

Module encodingcsv.

Import Go.

Definition quote : ascii := "034"%char.
Definition comma : ascii := ","%char.
Definition LF : ascii := "010"%char.
Definition CR : ascii := "013"%char.

Definition ErrBareQuote : error :=
  New ("bare " +:+ String quote " in non-quoted-field").
Definition ErrQuote : error :=
  New ("extraneous or missing " +:+ String quote " in quoted-field").
Definition ErrFieldCount : error := New "wrong number of fields".

(** *** Writer *)

Fixpoint contains (p : ascii -> bool) (s : string) : bool :=
  match s with
  | EmptyString => false
  | String c rest => p c || contains p rest
  end.

(** [unicode.IsSpace] of the first rune of a UTF-8 string, by the bytes
    that encode the white-space code points. *)
Definition firstRuneIsSpace (s : string) : bool :=
  match map nat_of_ascii (list_ascii_of_string s) with
  | 9%nat :: _ | 10%nat :: _ | 11%nat :: _ | 12%nat :: _ | 13%nat :: _ | 32%nat :: _ => true
  | 194%nat :: 133%nat :: _ | 194%nat :: 160%nat :: _ => true
  | 225%nat :: 154%nat :: 128%nat :: _ => true
  | 226%nat :: 128%nat :: b :: _ =>
    ((128 <=? b)%nat && (b <=? 138)%nat) || (b =? 168)%nat || (b =? 169)%nat || (b =? 175)%nat
  | 226%nat :: 129%nat :: 159%nat :: _ => true
  | 227%nat :: 128%nat :: 128%nat :: _ => true
  | _ => false
  end.

Definition isSpecial (c : ascii) : bool :=
  Ascii.eqb c LF || Ascii.eqb c CR || Ascii.eqb c quote || Ascii.eqb c comma.

(** [w.fieldNeedsQuotes(field)] *)
Definition fieldNeedsQuotes (field : string) : bool :=
  if String.eqb field "" then false
  else if String.eqb field "\." then true
  else if contains isSpecial field then true
  else firstRuneIsSpace field.

(** The inside of a quoted field: every quote doubled, the rest verbatim. *)
Fixpoint escapeQuotes (field : string) : string :=
  match field with
  | EmptyString => EmptyString
  | String c rest =>
    if Ascii.eqb c quote then String quote (String quote (escapeQuotes rest))
    else String c (escapeQuotes rest)
  end.

Definition writeField (field : string) : string :=
  if fieldNeedsQuotes field
  then String quote (escapeQuotes field +:+ String quote EmptyString)
  else field.

Fixpoint writeFields (record : list string) : string :=
  match record with
  | [] => EmptyString
  | [field] => writeField field
  | field :: rest => writeField field +:+ String comma (writeFields rest)
  end.

(** [csv.Writer] over a buffer that is flushed to the file at the end. *)
Record Writer : Type := mkWriter { written : string }.

Definition NewWriter : Writer := {| written := EmptyString |}.

(** [w.Write(record)]: the fields, comma separated, and a line feed.  The
    error is always nil here: the delimiter is valid, and a buffered write
    reports nothing before the flush. *)
Definition Write (w : Writer) (record : list string) : Writer * option error :=
  ({| written := written w +:+ writeFields record +:+ String LF EmptyString |}, None).

(** *** Reader *)

(** The input cut after every line feed. *)
Fixpoint rawLines (s : string) : list string :=
  match s with
  | EmptyString => []
  | String c rest =>
    if Ascii.eqb c LF then String c EmptyString :: rawLines rest
    else
      match rawLines rest with
      | [] => [String c EmptyString]
      | line :: lines => String c line :: lines
      end
  end.

(** What [readLine] makes of a raw line: a carriage return closing the
    input is dropped, and a final CR LF becomes LF. *)
Fixpoint normalizeLine (line : string) : string :=
  match line with
  | EmptyString => EmptyString
  | String c rest =>
    match rest with
    | EmptyString => if Ascii.eqb c CR then EmptyString else line
    | String d EmptyString =>
      if Ascii.eqb c CR && Ascii.eqb d LF then String LF EmptyString
      else String c (normalizeLine rest)
    | _ => String c (normalizeLine rest)
    end
  end.

Inductive Mode : Type := FieldStart | Unquoted | Quoted.

(** How the scan of one line ends. *)
Inductive LineEnd : Type :=
| RecordEnd (fields : list string)
| OpenQuote (fields : list string) (buf : string)
| Failed (err : error).

Definition endsRecord (line : string) : bool :=
  String.eqb line "" || String.eqb line (String LF EmptyString).

(** The field loop of [readRecord] over one line, byte by byte: [buf] is
    the field being read, [fields] those already complete. *)
Fixpoint scanLine (mode : Mode) (line : string) (buf : string) (fields : list string)
    : LineEnd :=
  match line with
  | EmptyString =>
    match mode with
    | Quoted => OpenQuote fields buf
    | _ => RecordEnd (fields ++ [buf])
    end
  | String c rest =>
    match mode with
    | Quoted =>
      if Ascii.eqb c quote then
        match rest with
        | String d rest' =>
          if Ascii.eqb d quote then
            scanLine Quoted rest' (buf +:+ String quote EmptyString) fields
          else if Ascii.eqb d comma then
            scanLine FieldStart rest' EmptyString (fields ++ [buf])
          else if endsRecord rest then RecordEnd (fields ++ [buf])
          else Failed ErrQuote
        | EmptyString => RecordEnd (fields ++ [buf])
        end
      else scanLine Quoted rest (buf +:+ String c EmptyString) fields
    | _ =>
      if (match mode with FieldStart => true | _ => false end) && Ascii.eqb c quote then
        scanLine Quoted rest EmptyString fields
      else if Ascii.eqb c comma then
        scanLine FieldStart rest EmptyString (fields ++ [buf])
      else if Ascii.eqb c quote then Failed ErrBareQuote
      else if Ascii.eqb c LF && String.eqb rest "" then RecordEnd (fields ++ [buf])
      else scanLine Unquoted rest (buf +:+ String c EmptyString) fields
    end
  end.

(** [ReadAll] over the lines: empty lines between records are skipped, a
    quoted field left open runs on into the next line, the first record
    fixes the number of fields ([fieldsPerRecord = 0]: not fixed yet), and
    any error discards everything. *)
Fixpoint readRecords (lines : list string) (open : option (list string * string))
    (fieldsPerRecord : nat) (records : list (list string)) : error + list (list string) :=
  match lines with
  | [] =>
    match open with
    | Some _ => inl ErrQuote
    | None => inr records
    end
  | line :: rest =>
    let scanned :=
      match open with
      | Some (fields, buf) => Some (scanLine Quoted line buf fields)
      | None => if endsRecord line then None else Some (scanLine FieldStart line EmptyString [])
      end in
    match scanned with
    | None => readRecords rest None fieldsPerRecord records
    | Some (Failed err) => inl err
    | Some (OpenQuote fields buf) => readRecords rest (Some (fields, buf)) fieldsPerRecord records
    | Some (RecordEnd fields) =>
      if (0 <? fieldsPerRecord)%nat && negb (length fields =? fieldsPerRecord)%nat
      then inl ErrFieldCount
      else readRecords rest None (length fields) (records ++ [fields])
    end
  end.

(** [csv.NewReader(file).ReadAll()] on a file of content [input]. *)
Definition ReadAll (input : string) : error + list (list string) :=
  readRecords (map normalizeLine (rawLines input)) None 0 [].

End encodingcsv.

(* ===================================================================== *)
(** ** package csv (pkg/csv/writer.go) *)
(* ===================================================================== *)

Module csv.

Import Go.

(** The loop of [WriteRefsToFile] over the references. *)
Fixpoint writeRefs (writer : encodingcsv.Writer) (refs : list gitlab.MergeRequestRef)
    : encodingcsv.Writer * option error :=
  match refs with
  | [] => (writer, None)
  | ref :: rest =>
    let record := [Itoa (gitlab.IID ref); gitlab.HeadSHA ref] in
    match encodingcsv.Write writer record with
    | (writer, Some err) => (writer, Some (Errorf_w "failed to write record: " err))
    | (writer, None) => writeRefs writer rest
    end
  end.

(** [WriteRefsToFile] writes merge request references to a CSV file.  The
    deferred [writer.Flush()] and [file.Close()] put what was written into
    the file on every way out. *)
Definition WriteRefsToFile (refs : list gitlab.MergeRequestRef) (filename : string)
    (fs : os.FileSystem) : option error * os.FileSystem :=
  match os.Create filename fs with
  | inl err => (Some (Errorf_w ("failed to create file " +:+ filename +:+ ": ") err), fs)
  | inr fs =>
    let writer := encodingcsv.NewWriter in
    let '(writer, failed) := writeRefs writer refs in
    (failed, <[filename := encodingcsv.written writer]> fs)
  end.

(** The loop of [ReadRefsFromFile] over the records; [i] counts from 0. *)
Fixpoint readRefs (i : Z) (records : list (list string)) (refs : list gitlab.MergeRequestRef)
    : error + list gitlab.MergeRequestRef :=
  match records with
  | [] => inr refs
  | record :: rest =>
    match record with
    | [iidField; shaField] =>
      match Atoi iidField with
      | None =>
        inl (Errorf_w ("invalid merge request IID at line " +:+ Itoa (i + 1) +:+ ": ")
                      (New ("strconv.Atoi: parsing " +:+ iidField)))
      | Some iid =>
        readRefs (i + 1) rest
                 (refs ++ [{| gitlab.ID := 0; gitlab.IID := iid; gitlab.HeadSHA := shaField |}])
      end
    | _ =>
      inl (New ("invalid CSV format at line " +:+ Itoa (i + 1)
                  +:+ ": expected 2 columns, got "
                  +:+ Itoa (Z.of_nat (length record))))
    end
  end.

(** [ReadRefsFromFile] reads merge request references from a CSV file.
    [ID] is not set by the composite literal: it is Go's zero value. *)
Definition ReadRefsFromFile (filename : string) (fs : os.FileSystem)
    : error + list gitlab.MergeRequestRef :=
  match os.Open filename fs with
  | inl err => inl (Errorf_w ("failed to open file " +:+ filename +:+ ": ") err)
  | inr content =>
    match encodingcsv.ReadAll content with
    | inl err => inl (Errorf_w "failed to read CSV file: " err)
    | inr records => readRefs 0 records []
    end
  end.

End csv.

(* ===================================================================== *)
(** ** Observations of the codec *)
(* ===================================================================== *)

Module codec.

Import Go.

(** A head hash as C8 takes it: no comma, no quote character, no line
    feed. *)
Definition isDelimiter (c : ascii) : bool :=
  Ascii.eqb c encodingcsv.comma || Ascii.eqb c encodingcsv.quote || Ascii.eqb c encodingcsv.LF.

Definition isLF (c : ascii) : bool := Ascii.eqb c encodingcsv.LF.
Definition isQuote (c : ascii) : bool := Ascii.eqb c encodingcsv.quote.

Definition plainSHA (sha : string) : Prop :=
  encodingcsv.contains isDelimiter sha = false.

(** What a reference keeps in the file: all but its [ID]. *)
Definition stored (ref : gitlab.MergeRequestRef) : gitlab.MergeRequestRef :=
  {| gitlab.ID := 0; gitlab.IID := gitlab.IID ref; gitlab.HeadSHA := gitlab.HeadSHA ref |}.

(** The two fields of the record written for a reference. *)
Definition recordOf (ref : gitlab.MergeRequestRef) : list string :=
  [Itoa (gitlab.IID ref); gitlab.HeadSHA ref].

(** The line written for a reference, without its line feed. *)
Definition lineOf (ref : gitlab.MergeRequestRef) : string :=
  Itoa (gitlab.IID ref) +:+ String encodingcsv.comma (encodingcsv.writeField (gitlab.HeadSHA ref)).

Fixpoint concatLines (lines : list string) : string :=
  match lines with
  | [] => EmptyString
  | line :: rest => line +:+ String encodingcsv.LF (concatLines rest)
  end.

(** Number of line feeds in a string. *)
Fixpoint countLF (s : string) : nat :=
  match s with
  | EmptyString => O
  | String c rest => ((if Ascii.eqb c encodingcsv.LF then 1 else 0) + countLF rest)%nat
  end.

(** A hexadecimal digit, as commit hashes are made of. *)
Definition isHexDigit (c : ascii) : bool :=
  let n := nat_of_ascii c in
  ((48 <=? n) && (n <=? 57) || (97 <=? n) && (n <=? 102) || (65 <=? n) && (n <=? 70))%nat.

Definition notHexDigit (c : ascii) : bool := negb (isHexDigit c).

(** A line feed as a string, and the file of the package's own tests. *)
Definition nl : string := String encodingcsv.LF EmptyString.

Definition testFile : string :=
  "1,abc123" +:+ nl +:+ "16,def456" +:+ nl +:+ "17,ghi789" +:+ nl.

(** Whether the last byte of a string is a carriage return. *)
Fixpoint lastCR (s : string) : bool :=
  match s with
  | EmptyString => false
  | String c rest =>
    match rest with
    | EmptyString => Ascii.eqb c encodingcsv.CR
    | String _ _ => lastCR rest
    end
  end.

End codec.

(* ===================================================================== *)
(** ** package strings: the functions the two packages call *)
(* ===================================================================== *)

Module strings.

(** [strings.HasPrefix(s, prefix)] *)
Fixpoint HasPrefix (s prefix : string) : bool :=
  match prefix with
  | EmptyString => true
  | String p prefix' =>
    match s with
    | EmptyString => false
    | String c s' => Ascii.eqb c p && HasPrefix s' prefix'
    end
  end.

(** [strings.Contains(s, substr)] *)
Fixpoint Contains (s substr : string) : bool :=
  HasPrefix s substr ||
  match s with
  | EmptyString => false
  | String _ s' => Contains s' substr
  end.

(** [strings.ContainsRune(s, r)] for a rune below 0x80, that is a byte. *)
Fixpoint ContainsRune (s : string) (r : ascii) : bool :=
  match s with
  | EmptyString => false
  | String c s' => Ascii.eqb c r || ContainsRune s' r
  end.

(** [strings.TrimPrefix(s, prefix)] *)
Fixpoint TrimPrefix (s prefix : string) : string :=
  match prefix with
  | EmptyString => s
  | String p prefix' =>
    match s with
    | EmptyString => s
    | String c s' =>
      if Ascii.eqb c p && HasPrefix s' prefix' then TrimPrefix s' prefix' else s
    end
  end.

(** [strings.TrimSuffix(s, suffix)]: [s] without its end when that end is
    [suffix].  The only place where the rest of [s] can equal [suffix] is
    [len(suffix)] bytes before the end. *)
Fixpoint TrimSuffix (s suffix : string) : string :=
  match s with
  | EmptyString => EmptyString
  | String c s' => if String.eqb s suffix then EmptyString else String c (TrimSuffix s' suffix)
  end.

(** [strings.Split(s, sep)] for a separator of one byte: the pieces between
    the separators, one more than there are separators. *)
Fixpoint Split (s : string) (sep : ascii) : list string :=
  match s with
  | EmptyString => [EmptyString]
  | String c s' =>
    if Ascii.eqb c sep then EmptyString :: Split s' sep
    else
      match Split s' sep with
      | [] => [String c EmptyString]
      | piece :: pieces => String c piece :: pieces
      end
  end.

(** [strings.Join(elems, sep)] for a separator of one byte. *)
Fixpoint Join (elems : list string) (sep : ascii) : string :=
  match elems with
  | [] => EmptyString
  | [elem] => elem
  | elem :: rest => elem +:+ String sep (Join rest sep)
  end.

(** [strings.ReplaceAll(s, old, new)] for [old] and [new] of one byte. *)
Fixpoint ReplaceAll (s : string) (old new : ascii) : string :=
  match s with
  | EmptyString => EmptyString
  | String c s' => String (if Ascii.eqb c old then new else c) (ReplaceAll s' old new)
  end.

End strings.

(* ===================================================================== *)
(** ** package csv, continued: file names and the stream writer *)
(* ===================================================================== *)

Module csvfile.

Import Go.

(** [parts[3:]] *)
Definition from3 (parts : list string) : list string := skipn 3 parts.

(** [GenerateFilename] creates a safe filename from repository path. *)
Definition GenerateFilename (repoPath : string) : string :=
  let name := repoPath in
  let name :=
    if strings.Contains name "://" then
      let parts := strings.Split name "/" in
      if (4 <=? length parts)%nat then strings.Join (from3 parts) "/" else name
    else name in
  let name := strings.TrimSuffix name ".git" in
  let name := strings.ReplaceAll name "/" "-" in
  name +:+ ".csv".

End csvfile.

(* ===================================================================== *)
(** ** net/url and regexp: what [ParseRepoPath] needs of them *)
(* ===================================================================== *)

Module url.

(** [url.URL], the fields [ParseRepoPath] reads. *)
Record URL : Type := mkURL {
  Scheme : string;
  Host : string;
  Path : string
}.

End url.

Module regexp.

(** The class [[a-zA-Z0-9._-]]. *)
Definition inClass (c : ascii) : bool :=
  let n := nat_of_ascii c in
  ((97 <=? n) && (n <=? 122) || (65 <=? n) && (n <=? 90) || (48 <=? n) && (n <=? 57))%nat
  || Ascii.eqb c "." || Ascii.eqb c "_" || Ascii.eqb c "-".

(** Where a match of [^[a-zA-Z0-9._-]+(/[a-zA-Z0-9._-]+)+$] stands: before
    the first byte, inside the first segment, just after a slash, inside a
    later segment (the only place where the text may end). *)
Inductive Position : Type := AtStart | InFirst | AfterSlash | InLater.

Fixpoint matchFrom (pos : Position) (s : string) : bool :=
  match s with
  | EmptyString =>
    match pos with
    | InLater => true
    | _ => false
    end
  | String c rest =>
    match pos with
    | AtStart => inClass c && matchFrom InFirst rest
    | InFirst =>
      if inClass c then matchFrom InFirst rest
      else Ascii.eqb c "/" && matchFrom AfterSlash rest
    | AfterSlash => inClass c && matchFrom InLater rest
    | InLater =>
      if inClass c then matchFrom InLater rest
      else Ascii.eqb c "/" && matchFrom AfterSlash rest
    end
  end.

(** [regexp.MustCompile(`^[a-zA-Z0-9._-]+(/[a-zA-Z0-9._-]+)+$`).MatchString(s)] *)
Definition MatchString (s : string) : bool := matchFrom AtStart s.

End regexp.

(* ===================================================================== *)
(** ** package gitlab, continued: repository paths and the fetch by
       repository *)
(* ===================================================================== *)

Module gitlabrepo.

Import Go gitlab.

Section WithURL.

(** [url.Parse], as the standard library provides it. *)
Variable url_Parse : string -> error + url.URL.

(** [ParseRepoPath] parses various GitLab repository path formats; returns
    the base URL (if any) and the project path. *)
Definition ParseRepoPath (repoPath : string) : error + (string * string) :=
  if strings.HasPrefix repoPath "http" then
    match url_Parse repoPath with
    | inl err => inl (Errorf_w "invalid URL: " err)
    | inr u =>
      let baseURL := url.Scheme u +:+ "://" +:+ url.Host u in
      let path := strings.TrimPrefix (url.Path u) "/" in
      let path := strings.TrimSuffix path ".git" in
      inr (baseURL, path)
    end
  else if negb (regexp.MatchString repoPath) then
    inl (New ("invalid repository path format: " +:+ repoPath))
  else inr (EmptyString, repoPath).

(** [wrapFetchError] provides more helpful error messages for common GitLab
    API issues. *)
Definition wrapFetchError (err : error) (projectPath : string) : error :=
  let errMsg := Error err in
  if strings.Contains errMsg "404" then
    New ("repository not found: " +:+ projectPath
         +:+ ". Please check the repository path and your access permissions")
  else if strings.Contains errMsg "401" || strings.Contains errMsg "403" then
    New ("authentication failed: please check your GitLab token has access to repository "
         +:+ projectPath)
  else
    Errorf_w ("failed to fetch merge request references from " +:+ projectPath +:+ ": ") err.

(** How [FetchMergeRequestRefsFromRepo] ends within [fuel] pages: with its
    two results, or still fetching. *)
Inductive RepoOutcome : Type :=
| RepoReturned (projectPath : string) (err : option error)
| RepoOutOfFuel.

Context {PS : Type}.

(** [FetchMergeRequestRefsFromRepo] processes merge request references
    using a callback.  The base URL parsed and the override are not used. *)
Definition FetchMergeRequestRefsFromRepo (fuel : nat) (c : Client PS) (repoPath : string)
    (baseURLOverride : string) (processor : MergeRequestProcessor PS)
    : M PS (RepoOutcome * Client PS) :=
  match ParseRepoPath repoPath with
  | inl err =>
    ret (RepoReturned EmptyString
           (Some (Errorf_w "failed to parse repository path: " err)), c)
  | inr (baseURL, projectPath) =>
    bind (FetchMergeRequestRefs fuel c projectPath processor)
      (fun fetched =>
         let '(out, c) := fetched in
         match out with
         | OutOfFuel => ret (RepoOutOfFuel, c)
         | Returned (Some err) =>
           ret (RepoReturned EmptyString (Some (wrapFetchError err projectPath)), c)
         | Returned None => ret (RepoReturned projectPath None, c)
         end)
  end.

End WithURL.

End gitlabrepo.

(* ===================================================================== *)
(** ** package os, on a system that can refuse *)
(* ===================================================================== *)

Module sys.

Import Go.

(** [s[:n]] and [s[n:]] *)
Fixpoint slice_to (n : nat) (s : string) : string :=
  match n, s with
  | S n, String c rest => String c (slice_to n rest)
  | _, _ => EmptyString
  end.

Fixpoint slice_from (n : nat) (s : string) : string :=
  match n, s with
  | S n, String _ rest => slice_from n rest
  | _, _ => s
  end.

(** The files by name, and what the system refuses.  [createError name] is
    the error of creating that file (a directory of that name, a missing
    parent directory, a read-only target, a name too long).
    [writeError name content data] is, when writing [data] to the file that
    holds [content] fails (a full disk, an input/output error), the number
    of bytes that got written all the same, and the error.  [closeError
    name] is the error of closing the file. *)
Record FileSystem : Type := mkFileSystem {
  files : gmap string string;
  createError : string -> option error;
  writeError : string -> string -> string -> option (nat * error);
  closeError : string -> option error
}.

Definition with_files (fs : FileSystem) (m : gmap string string) : FileSystem :=
  {| files := m;
     createError := createError fs;
     writeError := writeError fs;
     closeError := closeError fs |}.

(** [os.Create(name)]: when it succeeds the file exists and is empty. *)
Definition Create (name : string) (fs : FileSystem) : error + FileSystem :=
  if String.eqb name "" then inl (New "open : no such file or directory")
  else
    match createError fs name with
    | Some err => inl err
    | None => inr (with_files fs (<[name := ""]> (files fs)))
    end.

(** [f.Write(p)] and [f.WriteString(s)] on the file created under [name]:
    the bytes go to its end.  Returns the number of bytes written, and an
    error whenever that is less than all. *)
Definition Write (name data : string) (fs : FileSystem) : nat * option error * FileSystem :=
  let content := default EmptyString (files fs !! name) in
  match writeError fs name content data with
  | None =>
    (String.length data, None, with_files fs (<[name := content +:+ data]> (files fs)))
  | Some (n, err) =>
    let n := Nat.min n (String.length data) in
    (n, Some err, with_files fs (<[name := content +:+ slice_to n data]> (files fs)))
  end.

(** [f.Close()] *)
Definition Close (name : string) (fs : FileSystem) : option error := closeError fs name.

(** A system that refuses nothing, and one on which every write fails
    before its first byte. *)
Definition sound (m : gmap string string) : FileSystem :=
  {| files := m;
     createError := fun _ => None;
     writeError := fun _ _ _ => None;
     closeError := fun _ => None |}.

Definition full (m : gmap string string) : FileSystem :=
  {| files := m;
     createError := fun _ => None;
     writeError := fun _ _ _ => Some (O, New "write: no space left on device");
     closeError := fun _ => None |}.

(** A system that refuses to create the file [denied]. *)
Definition denying (denied : string) (m : gmap string string) : FileSystem :=
  {| files := m;
     createError := fun name =>
       if String.eqb name denied
       then Some (New ("open " +:+ name +:+ ": permission denied"))
       else None;
     writeError := fun _ _ _ => None;
     closeError := fun _ => None |}.

End sys.

(* ===================================================================== *)
(** ** package bufio: the Writer that [csv.Writer] writes through *)
(* ===================================================================== *)

Module bufio.

Import Go.

Definition defaultBufSize : nat := 4096.

Definition ErrShortWrite : error := New "short write".

(** [bufio.Writer] over the file [wr]: [buf] is [b.buf[0:b.n]], [err] the
    error that stops all further writing. *)
Record Writer : Type := mkWriter {
  buf : string;
  err : option error;
  wr : string
}.

(** What an operation returns: its error, the writer and the files. *)
Definition Result : Type := (option error * Writer * sys.FileSystem)%type.

(** [if err != nil { return err }] between two operations. *)
Definition andThen (r : Result) (k : Writer -> sys.FileSystem -> Result) : Result :=
  let '(failed, b, fs) := r in
  match failed with
  | Some e => (Some e, b, fs)
  | None => k b fs
  end.

Definition NewWriter (file : string) : Writer :=
  {| buf := EmptyString; err := None; wr := file |}.

Definition Buffered (b : Writer) : nat := String.length (buf b).
Definition Available (b : Writer) : nat := defaultBufSize - String.length (buf b).

(** [b.Flush()] *)
Definition Flush (b : Writer) (fs : sys.FileSystem) : Result :=
  match err b with
  | Some e => (Some e, b, fs)
  | None =>
    if (Buffered b =? 0)%nat then (None, b, fs)
    else
      let '(n, failed, fs) := sys.Write (wr b) (buf b) fs in
      let failed :=
        match failed with
        | None => if (n <? Buffered b)%nat then Some ErrShortWrite else None
        | Some e => Some e
        end in
      match failed with
      | Some e => (Some e, {| buf := sys.slice_from n (buf b); err := Some e; wr := wr b |}, fs)
      | None => (None, {| buf := EmptyString; err := None; wr := wr b |}, fs)
      end
  end.

(** [b.WriteByte(c)] *)
Definition WriteByte (b : Writer) (c : ascii) (fs : sys.FileSystem) : Result :=
  match err b with
  | Some e => (Some e, b, fs)
  | None =>
    let '(failed, b, fs) :=
      if (Available b <=? 0)%nat then Flush b fs else (None, b, fs) in
    match failed with
    | Some _ => (err b, b, fs)
    | None => (None, {| buf := buf b +:+ String c EmptyString; err := err b; wr := wr b |}, fs)
    end
  end.

(** The loop [for len(s) > b.Available() && b.err == nil] of
    [b.WriteString(s)]: with an empty buffer the text goes to the file
    directly, else the buffer is filled and flushed.  Two rounds are all it
    ever makes: after a flush the buffer is empty, and a direct write
    leaves nothing or an error. *)
Fixpoint writeStringRounds (rounds : nat) (b : Writer) (s : string) (fs : sys.FileSystem)
    : Writer * string * sys.FileSystem :=
  match rounds with
  | O => (b, s, fs)
  | S rounds =>
    match err b with
    | Some _ => (b, s, fs)
    | None =>
      if (Available b <? String.length s)%nat then
        if (Buffered b =? 0)%nat then
          let '(n, failed, fs) := sys.Write (wr b) s fs in
          writeStringRounds rounds {| buf := buf b; err := failed; wr := wr b |}
            (sys.slice_from n s) fs
        else
          let n := Nat.min (Available b) (String.length s) in
          let '(_, b, fs) :=
            Flush {| buf := buf b +:+ sys.slice_to n s; err := err b; wr := wr b |} fs in
          writeStringRounds rounds b (sys.slice_from n s) fs
      else (b, s, fs)
    end
  end.

(** [b.WriteString(s)] *)
Definition WriteString (b : Writer) (s : string) (fs : sys.FileSystem) : Result :=
  let '(b, s, fs) := writeStringRounds 2 b s fs in
  match err b with
  | Some e => (Some e, b, fs)
  | None => (None, {| buf := buf b +:+ s; err := err b; wr := wr b |}, fs)
  end.

End bufio.

(* ===================================================================== *)
(** ** package encoding/csv: the Writer, over a file that can fail *)
(* ===================================================================== *)

Module csvw.

Import Go.

(** [csv.Writer] as [csv.NewWriter] makes it: the comma, no CR LF, and a
    [bufio.Writer] over the file. *)
Definition Writer : Type := bufio.Writer.

Definition NewWriter (file : string) : Writer := bufio.NewWriter file.

(** The bytes the [strings.IndexAny] of the loop stops at: the quote, CR
    and LF. *)
Definition endsPiece (c : ascii) : bool :=
  Ascii.eqb c encodingcsv.quote || Ascii.eqb c encodingcsv.CR || Ascii.eqb c encodingcsv.LF.

(** The loop [for len(field) > 0] over a field that needs quotes: the
    piece before the next quote, CR or LF verbatim ([piece] is what of it
    has been passed over), then that byte, a quote doubled. *)
Fixpoint writeQuoted (field piece : string) (b : Writer) (fs : sys.FileSystem)
    : bufio.Result :=
  match field with
  | EmptyString =>
    if String.eqb piece "" then (None, b, fs) else bufio.WriteString b piece fs
  | String c rest =>
    if endsPiece c then
      bufio.andThen (bufio.WriteString b piece fs) (fun b fs =>
      bufio.andThen
        (if Ascii.eqb c encodingcsv.quote
         then bufio.WriteString b (String encodingcsv.quote (String encodingcsv.quote "")) fs
         else bufio.WriteByte b c fs) (fun b fs =>
      writeQuoted rest EmptyString b fs))
    else writeQuoted rest (piece +:+ String c EmptyString) b fs
  end.

(** One field of the record, after the comma when it is not the first. *)
Definition writeField (n : nat) (field : string) (b : Writer) (fs : sys.FileSystem)
    : bufio.Result :=
  bufio.andThen
    (if (0 <? n)%nat then bufio.WriteByte b encodingcsv.comma fs else (None, b, fs))
    (fun b fs =>
       if negb (encodingcsv.fieldNeedsQuotes field) then bufio.WriteString b field fs
       else
         bufio.andThen (bufio.WriteByte b encodingcsv.quote fs) (fun b fs =>
         bufio.andThen (writeQuoted field EmptyString b fs) (fun b fs =>
         bufio.WriteByte b encodingcsv.quote fs))).

(** [for n, field := range record] *)
Fixpoint writeFields (n : nat) (record : list string) (b : Writer) (fs : sys.FileSystem)
    : bufio.Result :=
  match record with
  | [] => (None, b, fs)
  | field :: rest =>
    bufio.andThen (writeField n field b fs) (fun b fs => writeFields (S n) rest b fs)
  end.

(** [w.Write(record)] *)
Definition Write (w : Writer) (record : list string) (fs : sys.FileSystem) : bufio.Result :=
  bufio.andThen (writeFields 0 record w fs) (fun b fs => bufio.WriteByte b encodingcsv.LF fs).

(** [w.Flush()]: the error stays in the writer. *)
Definition Flush (w : Writer) (fs : sys.FileSystem) : Writer * sys.FileSystem :=
  let '(_, b, fs) := bufio.Flush w fs in (b, fs).

(** [w.Error()], that is [w.w.Write(nil)]. *)
Definition Error (w : Writer) : option error := bufio.err w.

End csvw.

(* ===================================================================== *)
(** ** package csv, continued: writing to a file that can fail *)
(* ===================================================================== *)

Module csvsys.

Import Go.

(** The loop of [WriteRefsToFile] over the references. *)
Fixpoint writeRefs (writer : csvw.Writer) (refs : list gitlab.MergeRequestRef)
    (fs : sys.FileSystem) : bufio.Result :=
  match refs with
  | [] => (None, writer, fs)
  | ref :: rest =>
    let record := [Itoa (gitlab.IID ref); gitlab.HeadSHA ref] in
    match csvw.Write writer record fs with
    | (Some err, writer, fs) => (Some (Errorf_w "failed to write record: " err), writer, fs)
    | (None, writer, fs) => writeRefs writer rest fs
    end
  end.

(** [WriteRefsToFile] writes merge request references to a CSV file.  The
    deferred [writer.Flush()] and [file.Close()] run on every way out once
    the file is created, the flush first; what they report is dropped. *)
Definition WriteRefsToFile (refs : list gitlab.MergeRequestRef) (filename : string)
    (fs : sys.FileSystem) : option error * sys.FileSystem :=
  match sys.Create filename fs with
  | inl err => (Some (Errorf_w ("failed to create file " +:+ filename +:+ ": ") err), fs)
  | inr fs =>
    let writer := csvw.NewWriter filename in
    let '(failed, writer, fs) := writeRefs writer refs fs in
    let '(writer, fs) := csvw.Flush writer fs in
    let closed := sys.Close filename fs in
    (failed, fs)
  end.

Section WithAbs.

(** [filepath.Abs], as the standard library provides it. *)
Variable filepath_Abs : string -> error + string.

(** [WriteRefsToCSV] is a convenience function that generates filename and
    writes refs. *)
Definition WriteRefsToCSV (refs : list gitlab.MergeRequestRef) (repoPath : string)
    (fs : sys.FileSystem) : (error + string) * sys.FileSystem :=
  let filename := csvfile.GenerateFilename repoPath in
  match filepath_Abs filename with
  | inl err => (inl (Errorf_w "failed to get absolute path: " err), fs)
  | inr absPath =>
    match WriteRefsToFile refs filename fs with
    | (Some err, fs) => (inl err, fs)
    | (None, fs) => (inr absPath, fs)
    end
  end.

End WithAbs.

(** [StreamWriter] handles incremental writing of merge request references
    to CSV. *)
Record StreamWriter : Type := mkStreamWriter {
  file : string;
  writer : csvw.Writer
}.

(** [NewStreamWriter] creates a new CSV stream writer for incremental
    writing. *)
Definition NewStreamWriter (filename : string) (fs : sys.FileSystem)
    : (error + StreamWriter) * sys.FileSystem :=
  match sys.Create filename fs with
  | inl err => (inl (Errorf_w ("failed to create file " +:+ filename +:+ ": ") err), fs)
  | inr fs => (inr {| file := filename; writer := csvw.NewWriter filename |}, fs)
  end.

(** [WriteRef] writes a single merge request reference to the CSV file, and
    flushes. *)
Definition WriteRef (sw : StreamWriter) (ref : gitlab.MergeRequestRef) (fs : sys.FileSystem)
    : StreamWriter * option error * sys.FileSystem :=
  let record := [Itoa (gitlab.IID ref); gitlab.HeadSHA ref] in
  match csvw.Write (writer sw) record fs with
  | (Some err, w, fs) =>
    ({| file := file sw; writer := w |}, Some (Errorf_w "failed to write record: " err), fs)
  | (None, w, fs) =>
    let '(w, fs) := csvw.Flush w fs in
    ({| file := file sw; writer := w |}, csvw.Error w, fs)
  end.

(** [Close] closes the CSV writer and file. *)
Definition Close (sw : StreamWriter) (fs : sys.FileSystem)
    : StreamWriter * option error * sys.FileSystem :=
  let '(w, fs) := csvw.Flush (writer sw) fs in
  let sw := {| file := file sw; writer := w |} in
  match csvw.Error w with
  | Some err =>
    let closed := sys.Close (file sw) fs in
    (sw, Some (Errorf_w "failed to flush CSV writer: " err), fs)
  | None =>
    match sys.Close (file sw) fs with
    | Some err => (sw, Some (Errorf_w "failed to close file: " err), fs)
    | None => (sw, None, fs)
    end
  end.

(** [sw.WriteRef] on each reference in turn, up to the first error. *)
Fixpoint WriteRefs (sw : StreamWriter) (refs : list gitlab.MergeRequestRef)
    (fs : sys.FileSystem) : StreamWriter * option error * sys.FileSystem :=
  match refs with
  | [] => (sw, None, fs)
  | ref :: rest =>
    match WriteRef sw ref fs with
    | (sw, Some err, fs) => (sw, Some err, fs)
    | (sw, None, fs) => WriteRefs sw rest fs
    end
  end.

End csvsys.

(* ===================================================================== *)
(** ** package cmd: the fetch-refs command *)
(* ===================================================================== *)

Module cmd.

Import Go gitlab.

Section WithEnvironment.

(** The state of the remote platform. *)
Context {P : Type}.

(** [gitlab.NewClient(token)] and [gitlab.NewClient(token,
    gitlab.WithBaseURL(baseURL))] of the client library, and [url.Parse]. *)
Variable gitlab_NewClient : string -> option string -> error + GitlabClient P.
Variable url_Parse : string -> error + url.URL.

(** What is outside the governor while the command fetches: the platform,
    the files, and the two variables the callback closes over. *)
Record Process : Type := mkProcess {
  remote : P;
  disk : sys.FileSystem;
  csvWriter : csvsys.StreamWriter;
  refCount : Z
}.

(** The platform client, seen from the process: it leaves the rest alone. *)
Definition onRemote (cl : GitlabClient P) : GitlabClient Process :=
  {| ListProjectMergeRequests := fun projectPath opts st =>
       let '(res, p) := ListProjectMergeRequests cl projectPath opts (remote st) in
       (res, {| remote := p; disk := disk st;
                csvWriter := csvWriter st; refCount := refCount st |});
     GetMergeRequest := fun projectPath iid st =>
       let '(res, p) := GetMergeRequest cl projectPath iid (remote st) in
       (res, {| remote := p; disk := disk st;
                csvWriter := csvWriter st; refCount := refCount st |}) |}.

(** [gitlab.NewClient(token, baseURL)] of pkg/gitlab. *)
Definition NewClient (token baseURL : string) : error + Client Process :=
  let made :=
    if negb (String.eqb baseURL "") then gitlab_NewClient token (Some baseURL)
    else gitlab_NewClient token None in
  gitlab.NewClient
    match made with
    | inl err => inl err
    | inr cl => inr (onRemote cl)
    end.

(** The callback of [runFetchRef]: writes each merge request to the CSV
    immediately, and counts. *)
Definition processor : MergeRequestProcessor Process :=
  fun ref st =>
    let '(sw, failed, fs) := csvsys.WriteRef (csvWriter st) ref (disk st) in
    match failed with
    | Some err =>
      (Some (Errorf_w ("failed to write merge request " +:+ Itoa (IID ref) +:+ " to CSV: ") err),
       {| remote := remote st; disk := fs; csvWriter := sw; refCount := refCount st |})
    | None =>
      (None,
       {| remote := remote st; disk := fs; csvWriter := sw;
          refCount := wrap64 (refCount st + 1) |})
    end.

(** [runFetchRef], given the values of the flags [--token], [--base-url],
    [--output] and [--repository].  It starts from the platform and the
    files, and leaves them; [fuel] bounds the pages fetched.  The deferred
    [csvWriter.Close()] runs on every return after the writer exists, its
    error is dropped.  [filepath.Abs] only feeds the last message. *)
Definition runFetchRef (fuel : nat) (gitlabToken gitlabBaseURL outputFile repository : string)
    (w : World (P * sys.FileSystem)) : Outcome * World (P * sys.FileSystem) * list Event :=
  let repoPath := repository in
  match NewClient gitlabToken gitlabBaseURL with
  | inl err => (Returned (Some err), w, [])
  | inr client =>
    let outputPath :=
      if negb (String.eqb outputFile "") then outputFile
      else csvfile.GenerateFilename repoPath in
    match csvsys.NewStreamWriter outputPath (snd (ext w)) with
    | (inl err, fs) =>
      (Returned (Some (Errorf_w "failed to create CSV writer: " err)),
       {| clock := clock w; drift := drift w; ext := (fst (ext w), fs) |}, [])
    | (inr sw, fs) =>
      let st := {| remote := fst (ext w); disk := fs; csvWriter := sw; refCount := 0 |} in
      let '(fetched, _, w', l) :=
        gitlabrepo.FetchMergeRequestRefsFromRepo url_Parse fuel client repoPath
          gitlabBaseURL processor
          {| clock := clock w; drift := drift w; ext := st |} in
      let leave := fun (fs : sys.FileSystem) =>
        {| clock := clock w'; drift := drift w'; ext := (remote (ext w'), fs) |} in
      match fetched with
      | gitlabrepo.RepoOutOfFuel => (OutOfFuel, leave (disk (ext w')), l)
      | gitlabrepo.RepoReturned projectPath failed =>
        let '(_, _, fs) := csvsys.Close (csvWriter (ext w')) (disk (ext w')) in
        (Returned failed, leave fs, l)
      end
    end
  end.

End WithEnvironment.

End cmd.

(* ===================================================================== *)
(** ** Observations of the added code *)
(* ===================================================================== *)

Module observe.

Import Go gitlab.

(** A segment of a repository path: not empty, and made of letters,
    digits, dots, underscores and hyphens. *)
Definition allInClass (g : string) : bool :=
  negb (encodingcsv.contains (fun c => negb (regexp.inClass c)) g).

Definition segment (g : string) : Prop := g <> EmptyString /\ allInClass g = true.

(** [group/project], [group/subgroup/project], ...: two segments or more,
    with single slashes between them. *)
Definition validPath (s : string) : Prop :=
  (2 <= length (strings.Split s "/"))%nat /\ Forall segment (strings.Split s "/").

(** What [regexp.matchFrom] accepts from each position, told on the
    pieces between the slashes. *)
Definition goodSegment (g : string) : bool := negb (String.eqb g EmptyString) && allInClass g.

Definition accepts (pos : regexp.Position) (pieces : list string) : bool :=
  match pieces with
  | [] => false
  | g :: rest =>
    allInClass g && forallb goodSegment rest &&
    match pos with
    | regexp.AtStart => negb (String.eqb g EmptyString) && negb (Nat.eqb (length rest) 0)
    | regexp.InFirst => negb (Nat.eqb (length rest) 0)
    | regexp.AfterSlash => negb (String.eqb g EmptyString)
    | regexp.InLater => true
    end
  end.

(** The requests sent to the platform, in order. *)
Definition requestsMade (l : list Event) : list Event :=
  flat_map (fun e => match e with
                     | EvList _ _ _ | EvGet _ _ _ => [e]
                     | _ => []
                     end) l.

(** The project each request was made for. *)
Definition requestPaths (l : list Event) : list string :=
  flat_map (fun e => match e with
                     | EvList projectPath _ _ | EvGet projectPath _ _ => [projectPath]
                     | _ => []
                     end) l.

(** The number of the merge request at which a step failed. *)
Definition failedItem (e : Event) : option Z :=
  match e with
  | EvGet _ mr (inl _) => Some (gitlabapi.IID mr)
  | EvSink ref (Some _) => Some (IID ref)
  | _ => None
  end.

(** What [FetchMergeRequestRefsFromRepo] makes of the outcome of
    [FetchMergeRequestRefs]. *)
Definition repoOutcome (projectPath : string) (out : Outcome) : gitlabrepo.RepoOutcome :=
  match out with
  | OutOfFuel => gitlabrepo.RepoOutOfFuel
  | Returned (Some err) =>
    gitlabrepo.RepoReturned EmptyString (Some (gitlabrepo.wrapFetchError err projectPath))
  | Returned None => gitlabrepo.RepoReturned projectPath None
  end.

(** The file [runFetchRef] writes to. *)
Definition outputPath (outputFile repository : string) : string :=
  if negb (String.eqb outputFile "") then outputFile
  else csvfile.GenerateFilename repository.

(** The state of a run between two steps: the governor, the world, and
    what was done so far. *)
Definition Invariant (PS : Type) : Type := Client PS -> World PS -> list Event -> Prop.

(** Requests are paced from time [t0] on: the [n]-th request of the run
    started no earlier than [t0 + (n-1) * 100ms], and [minInterval] is a
    64-bit value of 100ms at least. *)
Definition paced {PS : Type} (t0 : Z) : Invariant PS :=
  fun c w l =>
    in_int64 (minInterval c) /\
    100 * time.Millisecond <= minInterval c /\
    t0 <= clock w /\
    match lastRequestTime c with
    | Some last =>
      last <= clock w /\
      t0 + (Z.of_nat (length (requestsMade l)) - 1) * (100 * time.Millisecond) <= last
    | None => requestsMade l = []
    end.

(** The system [fs] with the file [name] holding [content]. *)
Definition holding (fs : sys.FileSystem) (name content : string) : sys.FileSystem :=
  sys.with_files fs (<[name := content]> (sys.files fs)).

(** Between two steps of the fetch that [runFetchRef] runs, on a system
    that takes the writes: the client is the one made at the start, the
    stream writer is the one on the output file, with nothing buffered and
    no error, and the file holds the lines of what the sink was given so
    far; nothing else on the system has changed. *)
Definition exporting {P : Type} (cl : GitlabClient P) (out : string) (fs : sys.FileSystem)
    : Invariant (@cmd.Process P) :=
  fun c w l =>
    client c = cmd.onRemote cl /\
    cmd.csvWriter (ext w)
    = {| csvsys.file := out; csvsys.writer := csvw.NewWriter out |} /\
    cmd.disk (ext w)
    = holding fs out (codec.concatLines (map codec.lineOf (run.sinkRefs l))).

(** The file [name] can be created and written on the system: creating it
    is not refused, and no write to it fails. *)
Definition writable (fs : sys.FileSystem) (name : string) : Prop :=
  name <> EmptyString /\
  sys.createError fs name = None /\
  forall content data, sys.writeError fs name content data = None.

(** A writer on the file [name] with [pending] in its buffer and no
    error. *)
Definition buffering (name pending : string) : bufio.Writer :=
  {| bufio.buf := pending; bufio.err := None; bufio.wr := name |}.

(** An operation has gone through: no error, and what is in the file and
    in the buffer is, one after the other, [total]. *)
Definition passed (fs : sys.FileSystem) (name total : string) (r : bufio.Result) : Prop :=
  exists content pending,
    r = (None, buffering name pending, holding fs name content) /\
    content +:+ pending = total.

(** A record of the file and the reference read from it. *)
Definition decodes (record : list string) (ref : MergeRequestRef) : Prop :=
  exists iidField,
    record = [iidField; HeadSHA ref] /\ Atoi iidField = Some (IID ref) /\ ID ref = 0.

End observe.

(* ===================================================================== *)
(** * Theorems: the rate governor *)
(* ===================================================================== *)

Module Governor.

Import Go gitlab run.

Section Proofs.

Context {PS : Type}.
Implicit Types (c : Client PS) (w : World PS).

Lemma NewClient_fresh (cl : GitlabClient PS) : NewClient (inr cl) = inr (freshClient cl).
Proof. reflexivity. Qed.

(** *** [checkRateLimitHeaders] *)

(** The state [checkRateLimitHeaders] leaves: only [minInterval] can change,
    and only to one second, when the consulted quota value parses as an
    integer at or below 10. *)
Lemma checkRateLimitHeaders_client c w (resp : http.Response) :
  value (checkRateLimitHeaders c (Some resp)) w =
  match Atoi (remainingHeader resp) with
  | Some remaining =>
    if remaining <=? 10 then set_minInterval c (1 * time.Second) else c
  | None => c
  end.
Proof.
  unfold value, checkRateLimitHeaders, remainingHeader.
  set (h := if String.eqb (http.Get (http.Header resp) "RateLimit-Remaining") "" then _ else _).
  assert (Hsel :
    (if negb (String.eqb h "") then
       match Atoi h with
       | Some remaining =>
         if remaining <=? 10 then set_minInterval c (1 * time.Second)
         else if remaining <=? 5 then set_minInterval c (5 * time.Second) else c
       | None => c
       end
     else c) =
    match Atoi h with
    | Some remaining => if remaining <=? 10 then set_minInterval c (1 * time.Second) else c
    | None => c
    end).
  { destruct (String.eqb_spec h "") as [->|_]; simpl; [reflexivity|].
    destruct (Atoi h) as [n|]; [|reflexivity].
    destruct (Z.leb_spec n 10); [reflexivity|].
    destruct (Z.leb_spec n 5); [lia|reflexivity]. }
  rewrite Hsel. clear Hsel.
  destruct (http.StatusCode resp =? 429); [|reflexivity].
  destruct (negb _); [|reflexivity].
  destruct (Atoi (http.Get _ "Retry-After")); reflexivity.
Qed.

Lemma checkRateLimitHeaders_nil c w :
  checkRateLimitHeaders c None w = (c, w, []).
Proof. reflexivity. Qed.

(** What [checkRateLimitHeaders] does to the outside: nothing, unless the
    status is 429, and then one sleep. *)
Lemma checkRateLimitHeaders_log c w (resp : http.Response) :
  log (checkRateLimitHeaders c (Some resp)) w =
  if http.StatusCode resp =? 429 then
    let retryAfter := http.Get (http.Header resp) "Retry-After" in
    match Atoi retryAfter with
    | Some seconds => [EvSleep (wrap64 (seconds * time.Second))]
    | None => [EvSleep (60 * time.Second)]
    end
  else [].
Proof.
  unfold log, checkRateLimitHeaders.
  destruct (http.StatusCode resp =? 429); [|reflexivity].
  cbv zeta.
  destruct (String.eqb_spec (http.Get (http.Header resp) "Retry-After") "") as [->|_];
    simpl; [reflexivity|].
  destruct (Atoi _); reflexivity.
Qed.

Lemma checkRateLimitHeaders_world c w (resp : option http.Response) :
  world (checkRateLimitHeaders c resp) w =
  {| clock := clock w
              + fold_right (fun e acc =>
                              match e with EvSleep d => Z.max 0 d + acc | _ => acc end)
                           0 (log (checkRateLimitHeaders c resp) w);
     drift := drift w; ext := ext w |}.
Proof.
  destruct resp as [resp|].
  - unfold world, log, checkRateLimitHeaders.
    destruct (http.StatusCode resp =? 429).
    + cbv zeta. destruct (negb _).
      * destruct (Atoi _); simpl; f_equal; lia.
      * simpl; f_equal; lia.
    + simpl. destruct w; simpl; f_equal; lia.
  - simpl. destruct w; unfold world; simpl; f_equal; lia.
Qed.

(** *** [rateLimitWait] *)

Lemma rateLimitWait_unfold c w :
  rateLimitWait c w =
  (set_lastRequestTime c (Some (secondReading c w)),
   {| clock := secondReading c w; drift := tl (tl (drift w)); ext := ext w |},
   match waitNeeded c w with Some d => [EvSleep d] | None => [] end).
Proof.
  unfold rateLimitWait, secondReading, waitNeeded, firstReading, bind, time_Now, ret.
  destruct (lastRequestTime c) as [last|]; simpl; [|reflexivity].
  destruct (_ <? _); reflexivity.
Qed.

Lemma wrap64_in_range z : in_int64 z -> wrap64 z = z.
Proof.
  unfold in_int64, minInt64, maxInt64, wrap64. intros Hz.
  rewrite Z.mod_small; lia.
Qed.

Lemma clock_rateLimitWait c w : clock w <= clock (world (rateLimitWait c) w).
Proof.
  unfold world. rewrite rateLimitWait_unfold. simpl.
  unfold secondReading, firstReading. destruct (waitNeeded c w); lia.
Qed.

Lemma clock_checkRateLimitHeaders c w resp :
  clock w <= clock (world (checkRateLimitHeaders c resp) w).
Proof.
  rewrite checkRateLimitHeaders_world. simpl.
  induction (log (checkRateLimitHeaders c resp) w) as [|[d| | |] l IH]; simpl; lia.
Qed.

(** The gap [rateLimitWait] leaves behind the previous request start. *)
Lemma rateLimitWait_gap c w last :
  in_int64 (minInterval c) ->
  lastRequestTime c = Some last ->
  last <= clock w ->
  minInterval c <= secondReading c w - last.
Proof.
  unfold in_int64, minInt64, maxInt64. intros Hm Hlast Hle.
  unfold secondReading, waitNeeded. rewrite Hlast. cbn [time.IsZero negb]. cbv zeta.
  unfold time.Sub, minInt64, maxInt64.
  set (now := firstReading w).
  assert (clock w <= now) by (unfold now, firstReading; lia).
  destruct (Z.ltb_spec (Z.max (- 2 ^ 63) (Z.min (2 ^ 63 - 1) (now - last))) (minInterval c)).
  - rewrite wrap64_in_range by (unfold in_int64, minInt64, maxInt64; lia). lia.
  - lia.
Qed.

(** *** Invariants of a governed run *)

Lemma minInterval_checkRateLimitHeaders c w resp :
  minInterval (value (checkRateLimitHeaders c resp) w) = minInterval c \/
  minInterval (value (checkRateLimitHeaders c resp) w) = 1 * time.Second.
Proof.
  destruct resp as [resp|]; [|left; reflexivity].
  rewrite checkRateLimitHeaders_client.
  destruct (Atoi _) as [n|]; [|left; reflexivity].
  destruct (n <=? 10); [right|left]; reflexivity.
Qed.

Lemma lastRequestTime_checkRateLimitHeaders c w resp :
  lastRequestTime (value (checkRateLimitHeaders c resp) w) = lastRequestTime c.
Proof.
  destruct resp as [resp|]; [|reflexivity].
  rewrite checkRateLimitHeaders_client.
  destruct (Atoi _) as [n|]; [|reflexivity].
  destruct (n <=? 10); reflexivity.
Qed.

Lemma minInterval_rateLimitWait c w :
  minInterval (value (rateLimitWait c) w) = minInterval c.
Proof. unfold value. rewrite rateLimitWait_unfold. reflexivity. Qed.

Lemma governorCall_escalates call c w :
  minInterval c <= 1 * time.Second ->
  minInterval c <= minInterval (value (governorCall call c) w) <= 1 * time.Second.
Proof.
  intros Hc. destruct call as [|resp]; simpl.
  - rewrite minInterval_rateLimitWait. lia.
  - destruct (minInterval_checkRateLimitHeaders c w resp) as [-> | ->]; lia.
Qed.

Lemma governorCalls_cons call calls c w :
  governorCalls (call :: calls) c w =
  (value (governorCalls calls (value (governorCall call c) w)) (world (governorCall call c) w),
   world (governorCalls calls (value (governorCall call c) w)) (world (governorCall call c) w),
   log (governorCall call c) w
   ++ log (governorCalls calls (value (governorCall call c) w)) (world (governorCall call c) w)).
Proof.
  unfold value, world, log. simpl. unfold bind.
  destruct (governorCall call c w) as [[c1 w1] l1]. simpl.
  destruct (governorCalls calls c1 w1) as [[c2 w2] l2]. reflexivity.
Qed.

Lemma governorCalls_escalate calls : forall c w,
  minInterval c <= 1 * time.Second ->
  minInterval c <= minInterval (value (governorCalls calls c) w) <= 1 * time.Second.
Proof.
  induction calls as [|call calls IH]; intros c w Hc.
  - unfold value; simpl. lia.
  - unfold value at 1 2. rewrite governorCalls_cons. simpl.
    pose proof (governorCall_escalates call c w Hc) as H1.
    specialize (IH (value (governorCall call c) w) (world (governorCall call c) w)).
    lia.
Qed.

Lemma governorCalls_clock calls : forall c w,
  clock w <= clock (world (governorCalls calls c) w).
Proof.
  induction calls as [|call calls IH]; intros c w.
  - unfold world; simpl. lia.
  - unfold world at 1. rewrite governorCalls_cons. simpl.
    specialize (IH (value (governorCall call c) w) (world (governorCall call c) w)).
    assert (clock w <= clock (world (governorCall call c) w)).
    { destruct call; simpl;
        [apply clock_rateLimitWait | apply clock_checkRateLimitHeaders]. }
    lia.
Qed.

(** Responses alone never touch [lastRequestTime], and leave [minInterval]
    a 64-bit value. *)
Lemma afterResponses_frame (resps : list (option http.Response)) : forall c w,
  in_int64 (minInterval c) ->
  lastRequestTime (value (governorCalls (map afterResponse resps) c) w) = lastRequestTime c /\
  in_int64 (minInterval (value (governorCalls (map afterResponse resps) c) w)).
Proof.
  induction resps as [|resp resps IH]; intros c w Hc.
  - unfold value; simpl. auto.
  - unfold value. simpl map. rewrite governorCalls_cons. simpl.
    destruct (IH (value (checkRateLimitHeaders c resp) w)
                 (world (checkRateLimitHeaders c resp) w)) as [IH1 IH2].
    { destruct (minInterval_checkRateLimitHeaders c w resp) as [-> | ->]; [exact Hc|].
      unfold in_int64, minInt64, maxInt64, time.Second. lia. }
    split; [|exact IH2].
    rewrite IH1. apply lastRequestTime_checkRateLimitHeaders.
Qed.

(** *** The claims about the governor *)

(** C1 (the code departs from it).  A response reporting remaining quota 5
    is claimed to escalate to the critical tier (5 seconds).  In
    [checkRateLimitHeaders] the test [remaining <= 10] comes first, so the
    [else if remaining <= 5] branch is never taken: with the header
    [RateLimit-Remaining: 5], under any status and from any state,
    [minInterval] becomes 1 second, not 5, and the wait the next
    [rateLimitWait] enforces on a fresh client is the 1-second one. *)
Theorem C1_remaining_5_gets_moderate_tier c w (status : Z) (cl : GitlabClient PS) (ps : PS) :
  let resp := {| http.Header := {[ "RateLimit-Remaining" := ["5"] ]};
                 http.StatusCode := status |} in
  minInterval (value (checkRateLimitHeaders c (Some resp)) w) = 1 * time.Second /\
  minInterval (value (checkRateLimitHeaders c (Some resp)) w) <> 5 * time.Second /\
  log (governorCalls [beforeRequest;
                      afterResponse (Some (with_status resp 200));
                      beforeRequest] (freshClient cl))
      {| clock := 0; drift := []; ext := ps |}
  = [EvSleep (1 * time.Second)].
Proof.
  cbv zeta. rewrite checkRateLimitHeaders_client.
  repeat split; vm_compute; congruence.
Qed.

(** The critical tier is out of reach altogether: whatever the response,
    [checkRateLimitHeaders] leaves [minInterval] as it was or sets it to one
    second. *)
Lemma critical_tier_unreachable c w resp :
  minInterval c <> 5 * time.Second ->
  minInterval (value (checkRateLimitHeaders c resp) w) <> 5 * time.Second.
Proof.
  intros Hc. destruct (minInterval_checkRateLimitHeaders c w resp) as [-> | ->];
    [exact Hc | vm_compute; congruence].
Qed.

(** C2.  Within one run, that is starting from the client [NewClient]
    returns, [minInterval] never decreases: after any sequence of governor
    calls (responses with any headers and status codes, interleaved with
    waits or not), any further sequence of calls leaves it at least as
    large. *)
Theorem C2_minInterval_never_decreases (cl : GitlabClient PS) (before after : list GovernorCall) w :
  let c1 := value (governorCalls before (freshClient cl)) w in
  let w1 := world (governorCalls before (freshClient cl)) w in
  let c2 := value (governorCalls after c1) w1 in
  minInterval c1 <= minInterval c2.
Proof.
  cbv zeta.
  assert (Hfresh : minInterval (freshClient cl) <= 1 * time.Second)
    by (vm_compute; congruence).
  pose proof (governorCalls_escalate before (freshClient cl) w Hfresh) as [_ H1].
  apply (governorCalls_escalate after _ _ H1).
Qed.

(** C6, amended.  On status 429: when [Retry-After] parses as an integer
    number of seconds (between 0 and 9223372036, so that its nanosecond
    count is a [Duration]), [checkRateLimitHeaders] sleeps exactly that
    long; when the header is absent, empty or anything else than a decimal
    integer, it sleeps the fixed 60 seconds.  Either way the client state
    it leaves is the one the same response would leave under status 200,
    where no sleep happens: the hard stop depends on no governor state and
    changes none. *)
Theorem C6_hard_stop_on_429 c w (resp : http.Response) :
  http.StatusCode resp = 429 ->
  let retryAfter := http.Get (http.Header resp) "Retry-After" in
  let call := checkRateLimitHeaders c (Some resp) in
  (forall seconds,
     Atoi retryAfter = Some seconds -> 0 <= seconds <= 9223372036 ->
     log call w = [EvSleep (seconds * time.Second)] /\
     clock (world call w) = clock w + seconds * time.Second) /\
  (Atoi retryAfter = None ->
     log call w = [EvSleep (60 * time.Second)] /\
     clock (world call w) = clock w + 60 * time.Second) /\
  value call w = value (checkRateLimitHeaders c (Some (with_status resp 200))) w /\
  log (checkRateLimitHeaders c (Some (with_status resp 200))) w = [].
Proof.
  intros Hs. cbv zeta.
  rewrite checkRateLimitHeaders_world, !checkRateLimitHeaders_log, !checkRateLimitHeaders_client.
  simpl http.StatusCode. rewrite Hs. simpl (_ =? _). cbv zeta.
  split; [|split; [|split; reflexivity]].
  - intros seconds Hparse Hrange. rewrite Hparse.
    rewrite wrap64_in_range
      by (unfold in_int64, minInt64, maxInt64, time.Second; lia).
    split; [reflexivity|]. simpl. unfold time.Second. lia.
  - intros Hparse. rewrite Hparse. split; reflexivity.
Qed.

(** The invariant holds of the client [NewClient] returns, in any world, and
    every governor call keeps it. *)
Lemma governed_fresh (cl : GitlabClient PS) w : governed (freshClient cl) w.
Proof.
  split; [|discriminate].
  unfold in_int64, minInt64, maxInt64. vm_compute. split; congruence.
Qed.

Lemma governed_call call c w :
  governed c w -> governed (value (governorCall call c) w) (world (governorCall call c) w).
Proof.
  intros [Hm Hlast]. destruct call as [|resp]; simpl.
  - split; [rewrite minInterval_rateLimitWait; exact Hm|].
    unfold value, world. rewrite rateLimitWait_unfold. simpl. intros last [= <-]. lia.
  - split.
    + destruct (minInterval_checkRateLimitHeaders c w resp) as [-> | ->]; [exact Hm|].
      unfold in_int64, minInt64, maxInt64, time.Second. lia.
    + rewrite lastRequestTime_checkRateLimitHeaders. intros last Hl.
      pose proof (clock_checkRateLimitHeaders c w resp). specialize (Hlast _ Hl). lia.
Qed.

Lemma governed_calls calls : forall c w,
  governed c w ->
  governed (value (governorCalls calls c) w) (world (governorCalls calls c) w).
Proof.
  induction calls as [|call calls IH]; intros c w Hg.
  - exact Hg.
  - unfold value, world. rewrite governorCalls_cons. simpl.
    apply IH, governed_call, Hg.
Qed.

(** C7.  Throughout a run (the client being [governed]: its [minInterval]
    a 64-bit value, its [lastRequestTime] not in the future),
    [rateLimitWait] does not sleep on the first call; otherwise it sleeps
    exactly [minInterval - elapsed] when [elapsed < minInterval] and not at
    all when not; it always stores the clock reading taken last as the new
    [lastRequestTime]; and between two consecutive [rateLimitWait] calls,
    whatever responses are fed to the governor in between, the recorded
    request-start times are at least the [minInterval] in effect at the
    second call apart. *)
Theorem C7_rateLimitWait_spacing c w :
  governed c w ->
  (time.IsZero (lastRequestTime c) = true -> log (rateLimitWait c) w = []) /\
  (forall last, lastRequestTime c = Some last ->
     let elapsed := time.Sub (firstReading w) (Some last) in
     log (rateLimitWait c) w =
     if elapsed <? minInterval c then [EvSleep (minInterval c - elapsed)] else []) /\
  lastRequestTime (value (rateLimitWait c) w) = Some (clock (world (rateLimitWait c) w)) /\
  (forall (resps : list (option http.Response)) (t1 t3 : Z),
     let c1 := value (rateLimitWait c) w in
     let w1 := world (rateLimitWait c) w in
     let c2 := value (governorCalls (map afterResponse resps) c1) w1 in
     let w2 := world (governorCalls (map afterResponse resps) c1) w1 in
     let c3 := value (rateLimitWait c2) w2 in
     lastRequestTime c1 = Some t1 ->
     lastRequestTime c3 = Some t3 ->
     minInterval c2 <= t3 - t1).
Proof.
  intros [Hm Hlast]. repeat split.
  - intros Hzero. unfold log. rewrite rateLimitWait_unfold. simpl.
    unfold waitNeeded. destruct (lastRequestTime c); [discriminate|reflexivity].
  - intros last Hl. cbv zeta. unfold log. rewrite rateLimitWait_unfold. cbn [snd].
    unfold waitNeeded. rewrite Hl. cbn [time.IsZero negb]. cbv zeta.
    destruct (Z.ltb_spec (time.Sub (firstReading w) (Some last)) (minInterval c)) as [Hlt|Hge];
      [|reflexivity].
    rewrite wrap64_in_range; [reflexivity|].
    specialize (Hlast _ Hl).
    revert Hlt Hm. unfold time.Sub, firstReading, in_int64, minInt64, maxInt64. lia.
  - unfold value, world. rewrite rateLimitWait_unfold. reflexivity.
  - intros resps t1 t3. cbv zeta.
    set (c1 := value (rateLimitWait c) w).
    set (w1 := world (rateLimitWait c) w).
    set (calls := map afterResponse resps).
    intros Ht1 Ht3.
    assert (Hm1 : in_int64 (minInterval c1))
      by (unfold c1; rewrite minInterval_rateLimitWait; exact Hm).
    destruct (afterResponses_frame resps c1 w1 Hm1) as [Hl2 Hm2].
    fold calls in Hl2, Hm2.
    assert (Hc1 : t1 = clock w1).
    { revert Ht1. unfold c1, w1, value, world. rewrite rateLimitWait_unfold. simpl. congruence. }
    pose proof (governorCalls_clock calls c1 w1) as Hmono.
    revert Ht3. unfold value at 1. rewrite rateLimitWait_unfold. simpl.
    intros [= <-].
    apply rateLimitWait_gap; [exact Hm2 | congruence | lia].
Qed.

(** C9.  A nil response, a response carrying the remaining-quota header
    under neither name, or one whose consulted value is not a decimal
    integer, leaves the client exactly as it was ([minInterval] included):
    there is nothing to fail, the function has no error result. *)
Theorem C9_no_quota_signal_no_change c w (resp : option http.Response) :
  (resp = None \/
   exists r, resp = Some r /\
     ((http.Get (http.Header r) "RateLimit-Remaining" = "" /\
       http.Get (http.Header r) "X-RateLimit-Remaining" = "") \/
      Atoi (remainingHeader r) = None)) ->
  value (checkRateLimitHeaders c resp) w = c /\
  minInterval (value (checkRateLimitHeaders c resp) w) = minInterval c.
Proof.
  intros [-> | (r & -> & Hr)]; [split; reflexivity|].
  assert (Hnone : Atoi (remainingHeader r) = None).
  { destruct Hr as [[H1 H2] | H]; [|exact H].
    unfold remainingHeader. rewrite H1, H2. reflexivity. }
  rewrite checkRateLimitHeaders_client, Hnone. split; reflexivity.
Qed.

End Proofs.

(** C6 as stated fails: this 429 response carries a [Retry-After] header
    (an HTTP date, as RFC 9110 allows), yet the wait is the fixed 60-second
    default, and not a number of seconds read off the header. *)
Lemma C6_retry_after_present_but_default_wait :
  let resp := {| http.Header := {[ "Retry-After" := ["Wed, 21 Oct 2026 07:28:00 GMT"] ]};
                 http.StatusCode := 429 |} in
  let call := checkRateLimitHeaders (freshClient emptyProject) (Some resp) in
  http.Get (http.Header resp) "Retry-After" <> "" /\
  log call stillWorld = [EvSleep (60 * time.Second)] /\
  ~ (exists seconds : Z,
       Atoi (http.Get (http.Header resp) "Retry-After") = Some seconds /\
       log call stillWorld = [EvSleep (seconds * time.Second)]).
Proof.
  cbv zeta. split; [vm_compute; congruence|]. split; [vm_compute; reflexivity|].
  intros (seconds & Hs & _). vm_compute in Hs. congruence.
Qed.

(** Beyond 9223372036 seconds the multiplication by [time.Second] wraps
    around: the duration passed to [time.Sleep] is negative and no time is
    spent. *)
Example retry_after_overflow :
  let resp := {| http.Header := {[ "Retry-After" := ["9223372037"] ]};
                 http.StatusCode := 429 |} in
  let call := checkRateLimitHeaders (freshClient emptyProject) (Some resp) in
  log call stillWorld = [EvSleep (-9223372036709551616)] /\
  clock (world call stillWorld) = 0.
Proof. split; vm_compute; reflexivity. Qed.

Lemma C6_witness :
  let resp := {| http.Header := {[ "Retry-After" := ["3"] ]}; http.StatusCode := 429 |} in
  let call := checkRateLimitHeaders (freshClient emptyProject) (Some resp) in
  log call stillWorld = [EvSleep (3 * time.Second)] /\
  clock (world call stillWorld) = 3 * time.Second.
Proof.
  cbv zeta.
  refine (proj1 (C6_hard_stop_on_429 (freshClient emptyProject) stillWorld
                   {| http.Header := {[ "Retry-After" := ["3"] ]}; http.StatusCode := 429 |}
                   eq_refl) 3 _ _).
  - vm_compute. reflexivity.
  - lia.
Defined.

Lemma C7_witness :
  let c := set_lastRequestTime (freshClient emptyProject) (Some 0) in
  let w := {| clock := 30 * time.Millisecond; drift := []; ext := tt |} in
  log (rateLimitWait c) w = [EvSleep (70 * time.Millisecond)] /\
  lastRequestTime (value (rateLimitWait c) w) = Some (100 * time.Millisecond).
Proof.
  cbv zeta.
  pose proof (C7_rateLimitWait_spacing
                (set_lastRequestTime (freshClient emptyProject) (Some 0))
                {| clock := 30 * time.Millisecond; drift := []; ext := tt |}) as H.
  destruct H as (_ & Hwait & Hrec & _).
  - split; [unfold in_int64; vm_compute; split; congruence|].
    intros last [= <-]. vm_compute. congruence.
  - split; [exact (Hwait 0 eq_refl) | exact Hrec].
Defined.

Lemma C9_witness :
  let resp := {| http.Header := {[ "RateLimit-Remaining" := ["soon"] ]};
                 http.StatusCode := 200 |} in
  value (checkRateLimitHeaders (freshClient emptyProject) (Some resp)) stillWorld
  = freshClient emptyProject.
Proof.
  cbv zeta.
  refine (proj1 (C9_no_quota_signal_no_change (freshClient emptyProject) stillWorld
                   (Some {| http.Header := {[ "RateLimit-Remaining" := ["soon"] ]};
                            http.StatusCode := 200 |}) _)).
  right. eexists. split; [reflexivity|]. right. vm_compute. reflexivity.
Defined.

End Governor.

(* ===================================================================== *)
(** * Theorems: a fetch, step by step *)
(* ===================================================================== *)

Module Stepwise.

Import Go gitlab run observe.

Section Keeps.

Context {PS : Type}.
Implicit Types (c : Client PS) (w : World PS).

(** A property of the state between steps that every step of
    [FetchMergeRequestRefs] keeps: a request (always made right after
    [rateLimitWait]), the reading of its response's headers, a call of the
    sink. *)
Variable R : Invariant PS.
Variable processor : MergeRequestProcessor PS.
Variable projectPath : string.

Hypothesis list_keeps : forall c w l opts, R c w l ->
  forall c1 w1 s1, rateLimitWait c w = (c1, w1, s1) ->
  forall res w2 e, call_ListProjectMergeRequests c1 projectPath opts w1 = (res, w2, e) ->
  R c1 w2 (l ++ s1 ++ e).

Hypothesis get_keeps : forall c w l mr, R c w l ->
  forall c1 w1 s1, rateLimitWait c w = (c1, w1, s1) ->
  forall res w2 e, call_GetMergeRequest c1 projectPath mr w1 = (res, w2, e) ->
  R c1 w2 (l ++ s1 ++ e).

Hypothesis check_keeps : forall c w l resp, R c w l ->
  R (value (checkRateLimitHeaders c resp) w) (world (checkRateLimitHeaders c resp) w)
    (l ++ log (checkRateLimitHeaders c resp) w).

Hypothesis sink_keeps : forall c w l ref, R c w l ->
  R c (world (call_processor processor ref) w) (l ++ log (call_processor processor ref) w).

Lemma rangeMrs_keeps mrs : forall c w l, R c w l ->
  R (snd (value (rangeMrs projectPath processor mrs c) w))
    (world (rangeMrs projectPath processor mrs c) w)
    (l ++ log (rangeMrs projectPath processor mrs c) w).
Proof.
  induction mrs as [|mr rest IH]; intros c w l HR.
  - unfold value, world, log. simpl. rewrite app_nil_r. exact HR.
  - pose proof (get_keeps c w l mr HR) as Hget.
    unfold value, world, log in *. simpl rangeMrs. unfold bind.
    destruct (rateLimitWait c w) as [[c1 w1] s1].
    specialize (Hget _ _ _ eq_refl).
    destruct (call_GetMergeRequest c1 projectPath mr w1)
      as [[[err | [detailed resp]] w2] e].
    + specialize (Hget _ _ _ eq_refl). cbn [fst snd ret]. rewrite app_nil_r. exact Hget.
    + specialize (Hget _ _ _ eq_refl).
      apply (check_keeps _ _ _ (gitlabapi.Response_ resp)) in Hget.
      destruct (checkRateLimitHeaders c1 (gitlabapi.Response_ resp) w2) as [[c2 w3] s2].
      cbn [fst snd] in Hget.
      destruct (negb (String.eqb (gitlabapi.HeadSha detailed) "")).
      * apply (sink_keeps _ _ _ {| ID := gitlabapi.ID mr; IID := gitlabapi.IID mr;
                                    HeadSHA := gitlabapi.HeadSha detailed |}) in Hget.
        destruct (call_processor processor _ w3) as [[[err|] w4] s3]; cbn [fst snd] in Hget.
        -- cbn [fst snd ret]. rewrite app_nil_r, <- !app_assoc in *. exact Hget.
        -- apply IH in Hget.
           destruct (rangeMrs projectPath processor rest c2 w4) as [[[r c3] w5] l5].
           cbn [fst snd] in *. rewrite <- !app_assoc in *. exact Hget.
      * apply IH in Hget.
        destruct (rangeMrs projectPath processor rest c2 w3) as [[[r c3] w5] l5].
        cbn [fst snd] in *. rewrite <- !app_assoc in *. exact Hget.
Qed.

Lemma pages_keeps fuel : forall opts c w l, R c w l ->
  R (snd (value (pages fuel projectPath processor opts c) w))
    (world (pages fuel projectPath processor opts c) w)
    (l ++ log (pages fuel projectPath processor opts c) w).
Proof.
  induction fuel as [|fuel IH]; intros opts c w l HR.
  - unfold value, world, log. simpl. rewrite app_nil_r. exact HR.
  - pose proof (list_keeps c w l opts HR) as Hlist.
    unfold value, world, log in *. simpl pages. unfold bind.
    destruct (rateLimitWait c w) as [[c1 w1] s1].
    specialize (Hlist _ _ _ eq_refl).
    destruct (call_ListProjectMergeRequests c1 projectPath opts w1)
      as [[[err | [mrs resp]] w2] e].
    + specialize (Hlist _ _ _ eq_refl). cbn [fst snd ret]. rewrite app_nil_r. exact Hlist.
    + specialize (Hlist _ _ _ eq_refl).
      apply (check_keeps _ _ _ (gitlabapi.Response_ resp)) in Hlist.
      destruct (checkRateLimitHeaders c1 (gitlabapi.Response_ resp) w2) as [[c2 w3] s2].
      cbn [fst snd] in Hlist.
      apply (rangeMrs_keeps mrs) in Hlist. unfold value, world, log in Hlist.
      destruct (rangeMrs projectPath processor mrs c2 w3) as [[[[err|] c3] w4] lr];
        cbn [fst snd] in Hlist.
      * cbn [fst snd ret]. rewrite app_nil_r, <- !app_assoc in *. exact Hlist.
      * destruct (gitlabapi.NextPage resp =? 0).
        -- cbn [fst snd ret]. rewrite app_nil_r, <- !app_assoc in *. exact Hlist.
        -- apply (IH (set_Page opts (gitlabapi.NextPage resp))) in Hlist.
           destruct (pages fuel projectPath processor _ c3 w4) as [[[out c4] w5] l5].
           cbn [fst snd] in *. rewrite <- !app_assoc in *. exact Hlist.
Qed.

Lemma FetchMergeRequestRefs_keeps fuel c w l :
  R c w l ->
  R (snd (value (FetchMergeRequestRefs fuel c projectPath processor) w))
    (world (FetchMergeRequestRefs fuel c projectPath processor) w)
    (l ++ log (FetchMergeRequestRefs fuel c projectPath processor) w).
Proof. apply pages_keeps. Qed.

End Keeps.

End Stepwise.

(* ===================================================================== *)
(** * Theorems: the paginated fetcher *)
(* ===================================================================== *)

Module Fetcher.

Import Go gitlab run.

Section Proofs.

Context {PS : Type}.
Implicit Types (c : Client PS) (w : World PS) (processor : MergeRequestProcessor PS).

Lemma rateLimitWait_sleeps c w : Forall isSleep (log (rateLimitWait c) w).
Proof.
  unfold log. rewrite Governor.rateLimitWait_unfold. simpl.
  destruct (waitNeeded c w); repeat constructor.
Qed.

Lemma checkRateLimitHeaders_sleeps c w resp :
  Forall isSleep (log (checkRateLimitHeaders c resp) w).
Proof.
  destruct resp as [resp|]; [|constructor].
  rewrite Governor.checkRateLimitHeaders_log.
  destruct (_ =? _); [|constructor].
  cbv zeta. destruct (Atoi _); repeat constructor.
Qed.

(** The [range] loop writes a log of the expected shape, whatever the
    platform and the sink answer. *)
Lemma rangeMrs_log projectPath processor mrs : forall c w,
  RangeLog projectPath mrs
    (log (rangeMrs projectPath processor mrs c) w)
    (fst (value (rangeMrs projectPath processor mrs c) w)).
Proof.
  induction mrs as [|mr rest IH]; intros c w.
  - constructor.
  - pose proof (rateLimitWait_sleeps c w) as Hs1.
    unfold log, value in *. simpl rangeMrs. unfold bind, call_GetMergeRequest.
    destruct (rateLimitWait c w) as [[c1 w1] s1]. cbn [fst snd] in Hs1.
    destruct (GetMergeRequest (client c1) projectPath (gitlabapi.IID mr) (ext w1))
      as [[err | [detailed resp]] ps]; cbn [fst snd ret].
    + apply RangeGetFailed. exact Hs1.
    + set (w2 := {| clock := clock w1; drift := drift w1; ext := ps |}).
      pose proof (checkRateLimitHeaders_sleeps c1 w2 (gitlabapi.Response_ resp)) as Hs2.
      unfold log in Hs2.
      destruct (checkRateLimitHeaders c1 (gitlabapi.Response_ resp) w2) as [[c2 w3] s2].
      cbn [fst snd] in Hs2.
      destruct (String.eqb_spec (gitlabapi.HeadSha detailed) "") as [He|Hne];
        cbn [negb].
      * specialize (IH c2 w3).
        destruct (rangeMrs projectPath processor rest c2 w3) as [[r c3] l].
        cbn [fst snd app] in *.
        apply RangeSkipped; assumption.
      * unfold call_processor.
        destruct (processor _ (ext w3)) as [[err|] ps'].
        -- cbn [fst snd app]. apply RangeSinkFailed; assumption.
        -- specialize (IH c2 {| clock := clock w3; drift := drift w3; ext := ps' |}).
           destruct (rangeMrs projectPath processor rest c2 _) as [[r c3] l].
           cbn [fst snd app] in *.
           apply RangeSunk; assumption.
Qed.

(** So does the pagination loop. *)
Lemma pages_log projectPath processor fuel : forall opts c w,
  PagesLog projectPath fuel opts
    (log (pages fuel projectPath processor opts c) w)
    (fst (value (pages fuel projectPath processor opts c) w)).
Proof.
  induction fuel as [|fuel IH]; intros opts c w.
  - constructor.
  - pose proof (rateLimitWait_sleeps c w) as Hs1.
    unfold log, value in *. simpl pages. unfold bind, call_ListProjectMergeRequests.
    destruct (rateLimitWait c w) as [[c1 w1] s1]. cbn [fst snd] in Hs1.
    destruct (ListProjectMergeRequests (client c1) projectPath opts (ext w1))
      as [[err | [mrs resp]] ps]; cbn [fst snd ret].
    + apply PagesListFailed. exact Hs1.
    + set (w2 := {| clock := clock w1; drift := drift w1; ext := ps |}).
      pose proof (checkRateLimitHeaders_sleeps c1 w2 (gitlabapi.Response_ resp)) as Hs2.
      unfold log in Hs2.
      destruct (checkRateLimitHeaders c1 (gitlabapi.Response_ resp) w2) as [[c2 w3] s2].
      cbn [fst snd] in Hs2.
      pose proof (rangeMrs_log projectPath processor mrs c2 w3) as Hr.
      unfold log, value in Hr.
      destruct (rangeMrs projectPath processor mrs c2 w3) as [[[[err|] c3] w4] lr];
        cbn [fst snd] in Hr.
      * cbn [fst snd ret app]. rewrite app_nil_r. apply PagesItemFailed; assumption.
      * destruct (Z.eqb_spec (gitlabapi.NextPage resp) 0) as [Hz|Hnz].
        -- cbn [fst snd ret app]. rewrite app_nil_r. apply PagesLast; assumption.
        -- specialize (IH (set_Page opts (gitlabapi.NextPage resp)) c3 w4).
           destruct (pages fuel projectPath processor _ c3 w4) as [[[out c4] w5] l].
           cbn [fst snd app] in *.
           apply PagesNext; assumption.
Qed.

(** *** Reading logs of that shape *)

Lemma flat_map_sleeps {B : Type} (f : Event -> list B) (s : list Event) :
  Forall isSleep s -> (forall d, f (EvSleep d) = []) -> flat_map f s = [].
Proof.
  intros Hs Hf. induction Hs as [|e s He _ IH]; [reflexivity|].
  destruct e; try contradiction. simpl. rewrite Hf, IH. reflexivity.
Qed.

Ltac read_log :=
  unfold sinkRefs, fetched, lookedUp, listings, listedItems in *;
  repeat first
    [ rewrite !flat_map_app
    | match goal with
      | H : Forall isSleep ?s |- context [flat_map ?f ?s] =>
        rewrite (flat_map_sleeps f s H) by (intros; reflexivity)
      end
    | progress cbn [flat_map app] ].

(** The [range] loop lists nothing. *)
Lemma RangeLog_no_listing projectPath mrs l r :
  RangeLog projectPath mrs l r -> listings l = [] /\ listedItems l = [].
Proof.
  induction 1 as [ | | ? ? ? ? ? ? ? ? ? ? ? ? [IH1 IH2] | | ? ? ? ? ? ? ? ? ? ? ? ? ? [IH1 IH2] ];
    read_log; try rewrite IH1; try rewrite IH2; auto.
Qed.

(** The sink receives exactly what is due for the records obtained, in
    order (range loop, then whole run). *)
Lemma RangeLog_sinkRefs projectPath mrs l r :
  RangeLog projectPath mrs l r -> sinkRefs l = flat_map emitted (fetched l).
Proof.
  induction 1 as [ | | ? ? ? ? ? ? ? ? ? ? He ? IH | ? ? ? ? ? ? ? ? ? Hne
                   | ? ? ? ? ? ? ? ? ? ? Hne ? ? IH ];
    read_log; unfold emitted; try reflexivity.
  - rewrite He. simpl. exact IH.
  - destruct (String.eqb_spec (gitlabapi.HeadSha detailed) ""); [contradiction|reflexivity].
  - destruct (String.eqb_spec (gitlabapi.HeadSha detailed) ""); [contradiction|].
    cbn [app]. f_equal. exact IH.
Qed.

Lemma PagesLog_sinkRefs projectPath fuel opts l out :
  PagesLog projectPath fuel opts l out -> sinkRefs l = flat_map emitted (fetched l).
Proof.
  induction 1 as [ | | ? ? ? ? ? ? ? ? ? ? Hr | ? ? ? ? ? ? ? ? ? Hr
                   | ? ? ? ? ? ? ? ? ? ? ? Hr ? ? IH ];
    try apply RangeLog_sinkRefs in Hr; read_log; try reflexivity; try exact Hr.
  rewrite Hr, IH. reflexivity.
Qed.

(** Detail lookups go through the page in order: always a prefix of it,
    all of it when the loop completes. *)
Lemma RangeLog_lookedUp projectPath mrs l r :
  RangeLog projectPath mrs l r ->
  (exists rest, mrs = lookedUp l ++ rest) /\ (r = None -> lookedUp l = mrs).
Proof.
  induction 1 as [ | mr rest | mr rest ? ? ? ? ? ? ? ? ? ? [[rest' IH1] IH2] | mr rest
                   | mr rest ? ? ? ? ? ? ? ? ? ? ? [[rest' IH1] IH2] ];
    read_log.
  - split; [exists []; reflexivity | reflexivity].
  - split; [exists rest; reflexivity | discriminate].
  - split; [exists rest'; f_equal; exact IH1 | intros Hr; f_equal; auto].
  - split; [exists rest; reflexivity | discriminate].
  - split; [exists rest'; f_equal; exact IH1 | intros Hr; f_equal; auto].
Qed.

Lemma PagesLog_lookedUp projectPath fuel opts l out :
  PagesLog projectPath fuel opts l out ->
  (exists rest, listedItems l = lookedUp l ++ rest) /\
  (out = Returned None -> lookedUp l = listedItems l).
Proof.
  induction 1 as [ | | ? ? ? ? ? ? ? ? ? ? Hr | ? ? ? ? ? ? ? ? ? Hr
                   | ? ? ? ? ? ? ? ? ? ? ? Hr ? ? [[rest' IH1] IH2] ];
    try (pose proof (RangeLog_no_listing _ _ _ _ Hr) as [Hn1 Hn2];
         apply RangeLog_lookedUp in Hr; destruct Hr as [[rest Hp] Hall]);
    read_log; rewrite ?Hn2, ?app_nil_r.
  - split; [exists []; reflexivity | reflexivity].
  - split; [exists []; reflexivity | discriminate].
  - split; [exists rest; exact Hp | discriminate].
  - split; [exists rest; exact Hp | intros _; apply Hall; reflexivity].
  - rewrite (Hall eq_refl). cbn [app]. split.
    + exists rest'. rewrite IH1, app_assoc. reflexivity.
    + intros Hout. rewrite (IH2 Hout). reflexivity.
Qed.

(** *** Fail-fast *)

Lemma sleeps_succeed (s : list Event) : Forall isSleep s -> Forall succeeded s.
Proof.
  induction 1 as [|e s He _ IH]; constructor; [|exact IH].
  destruct e; try contradiction. reflexivity.
Qed.

Lemma FailFast_prepend (s l : list Event) (r : option error) :
  Forall succeeded s -> FailFast l r -> FailFast (s ++ l) r.
Proof.
  intros Hs. destruct r as [err|]; simpl.
  - intros (l1 & e & -> & Hl1 & He). exists (s ++ l1), e.
    rewrite app_assoc. repeat split; [apply Forall_app; split|]; assumption.
  - intros Hl. apply Forall_app; split; assumption.
Qed.

Lemma FailFast_last (l : list Event) (e : Event) (err : error) :
  Forall succeeded l -> abortError e = Some err -> FailFast (l ++ [e]) (Some err).
Proof. intros Hl He. exists l, e. auto. Qed.


Lemma RangeLog_FailFast projectPath mrs l r :
  RangeLog projectPath mrs l r -> FailFast l r.
Proof.
  induction 1 as [ | ? ? ? ? Hs1 | ? ? ? ? ? ? ? ? Hs1 Hs2 ? ? IH | ? ? ? ? ? ? ? Hs1 Hs2
                   | ? ? ? ? ? ? ? ? Hs1 Hs2 ? ? ? IH ];
    try apply sleeps_succeed in Hs1; try apply sleeps_succeed in Hs2.
  - constructor.
  - apply FailFast_last; [assumption|reflexivity].
  - apply FailFast_prepend; [assumption|].
    apply (FailFast_prepend [_]); [repeat constructor|].
    apply FailFast_prepend; assumption.
  - apply FailFast_prepend; [assumption|].
    apply (FailFast_prepend [_]); [repeat constructor|].
    apply FailFast_prepend; [assumption|].
    apply (FailFast_last []); [constructor|reflexivity].
  - apply FailFast_prepend; [assumption|].
    apply (FailFast_prepend [_]); [repeat constructor|].
    apply FailFast_prepend; [assumption|].
    apply (FailFast_prepend [_]); [repeat constructor|]. exact IH.
Qed.

Lemma PagesLog_FailFast projectPath fuel opts l out :
  PagesLog projectPath fuel opts l out -> FailFast l (outcomeError out).
Proof.
  induction 1 as [ | ? ? ? ? Hs1 | ? ? ? ? ? ? ? ? Hs1 Hs2 Hr | ? ? ? ? ? ? ? Hs1 Hs2 Hr
                   | ? ? ? ? ? ? ? ? ? Hs1 Hs2 Hr ? ? IH ];
    try apply sleeps_succeed in Hs1; try apply sleeps_succeed in Hs2;
    try apply RangeLog_FailFast in Hr.
  - constructor.
  - apply FailFast_last; [assumption|reflexivity].
  - cbn [outcomeError].
    apply FailFast_prepend; [assumption|].
    apply (FailFast_prepend [_]); [repeat constructor|].
    apply FailFast_prepend; assumption.
  - cbn [outcomeError].
    apply FailFast_prepend; [assumption|].
    apply (FailFast_prepend [_]); [repeat constructor|].
    apply FailFast_prepend; assumption.
  - apply FailFast_prepend; [assumption|].
    apply (FailFast_prepend [_]); [repeat constructor|].
    apply FailFast_prepend; [assumption|].
    apply FailFast_prepend; assumption.
Qed.

(** *** Pagination *)

Lemma PagesLog_listings projectPath fuel opts l out :
  PagesLog projectPath fuel opts l out ->
  followsCursor (gitlabapi.Page opts) (listings l) /\
  Forall (fun req => gitlabapi.PerPage (fst req) = gitlabapi.PerPage opts /\
                     gitlabapi.State (fst req) = gitlabapi.State opts) (listings l) /\
  (out = Returned None ->
   exists ls last mrs resp,
     listings l = ls ++ [(last, inr (mrs, resp))] /\ gitlabapi.NextPage resp = 0) /\
  (out = OutOfFuel ->
   length (listings l) = fuel /\
   Forall (fun req => exists mrs resp,
             snd req = inr (mrs, resp) /\ gitlabapi.NextPage resp <> 0) (listings l)).
Proof.
  induction 1 as [ | | ? ? ? ? ? ? ? ? ? ? Hr | ? ? ? ? ? ? ? ? ? Hr Hz
                   | ? ? ? ? ? ? ? ? ? ? ? Hr Hnz ? (IH1 & IH2 & IH3 & IH4) ];
    try (pose proof (RangeLog_no_listing _ _ _ _ Hr) as [Hn1 Hn2]);
    read_log; rewrite ?Hn1; cbn [app followsCursor].
  - repeat split; try constructor; discriminate.
  - repeat split; try discriminate; repeat constructor.
  - repeat split; try discriminate; try contradiction; repeat constructor.
  - repeat split; try discriminate; try contradiction; repeat constructor.
    intros _. exists [], opts, mrs, resp. auto.
  - split; [|split; [|split]].
    + repeat split; auto.
    + constructor; [auto|]. exact IH2.
    + intros Hout. destruct (IH3 Hout) as (ls & last & mrs' & resp' & Hl & Hz).
      exists ((opts, inr (mrs, resp)) :: ls), last, mrs', resp'.
      rewrite Hl. auto.
    + intros Hout. destruct (IH4 Hout) as [Hlen Hall].
      split; [cbn [length]; f_equal; exact Hlen|].
      constructor; [|exact Hall]. exists mrs, resp. auto.
Qed.

(** *** The steps logged are the calls made *)

Lemma stateAfter_app (cl : GitlabClient PS) processor (l1 l2 : list Event) (ps : PS) :
  stateAfter cl processor (l1 ++ l2) ps
  = stateAfter cl processor l2 (stateAfter cl processor l1 ps).
Proof. revert ps. induction l1 as [|e l1 IH]; intros ps; [reflexivity|]. apply IH. Qed.

Lemma performed_app (cl : GitlabClient PS) processor (l1 l2 : list Event) (ps : PS) :
  performed cl processor l1 ps ->
  performed cl processor l2 (stateAfter cl processor l1 ps) ->
  performed cl processor (l1 ++ l2) ps.
Proof.
  revert ps. induction l1 as [|e l1 IH]; intros ps; [intros _ H; exact H|].
  cbn [performed stateAfter app]. intros [He H1] H2. split; [exact He|]. apply IH; assumption.
Qed.

Lemma performed_sleeps (cl : GitlabClient PS) processor (s : list Event) (ps : PS) :
  Forall isSleep s ->
  performed cl processor s ps /\ stateAfter cl processor s ps = ps.
Proof.
  induction 1 as [|e s He _ [IH1 IH2]]; [split; [exact I | reflexivity]|].
  destruct e; try contradiction. cbn [performed stateAfter after answers]. auto.
Qed.

Lemma retraced_call (cl : GitlabClient PS) processor (ps : PS) c w l c1 w1 s1
    (e : Event) (ps' : PS) :
  retraced cl processor ps c w l ->
  rateLimitWait c w = (c1, w1, s1) ->
  answers cl processor e (ext w1) ->
  ps' = after cl processor e (ext w1) ->
  retraced cl processor ps c1 {| clock := clock w1; drift := drift w1; ext := ps' |}
    (l ++ s1 ++ [e]).
Proof.
  intros (Hc & Hp & Hext) Hwait He ->.
  pose proof (rateLimitWait_sleeps c w) as Hs1.
  unfold log in Hs1. rewrite Hwait in Hs1. cbn [snd] in Hs1.
  rewrite Governor.rateLimitWait_unfold in Hwait. injection Hwait as <- <- _.
  cbn [ext] in *.
  destruct (performed_sleeps cl processor s1 (stateAfter cl processor l ps) Hs1) as [Hp1 Hs].
  unfold retraced. cbn [client set_lastRequestTime ext].
  rewrite !stateAfter_app, Hs. cbn [stateAfter]. rewrite <- Hext.
  split; [exact Hc|]. split; [|reflexivity].
  apply performed_app; [exact Hp|]. apply performed_app; [exact Hp1|].
  rewrite Hs, <- Hext. cbn [performed]. auto.
Qed.

Lemma FetchMergeRequestRefs_retraced fuel c projectPath processor w :
  retraced (client c) processor (ext w)
    (snd (value (FetchMergeRequestRefs fuel c projectPath processor) w))
    (world (FetchMergeRequestRefs fuel c projectPath processor) w)
    (log (FetchMergeRequestRefs fuel c projectPath processor) w).
Proof.
  apply (Stepwise.FetchMergeRequestRefs_keeps
           (retraced (client c) processor (ext w)) processor projectPath) with (l := []).
  - intros c0 w0 l0 opts HR c1 w1 s1 Hwait res w2 e.
    assert (Hcl : client c1 = client c).
    { destruct HR as [Hc _]. rewrite Governor.rateLimitWait_unfold in Hwait.
      injection Hwait as <- _ _. exact Hc. }
    unfold call_ListProjectMergeRequests. rewrite Hcl.
    destruct (ListProjectMergeRequests (client c) projectPath opts (ext w1)) as [res' ps']
      eqn:Ecall.
    intros [= <- <- <-].
    eapply retraced_call; [exact HR | exact Hwait | |];
      cbn [answers after]; rewrite Ecall; reflexivity.
  - intros c0 w0 l0 mr HR c1 w1 s1 Hwait res w2 e.
    assert (Hcl : client c1 = client c).
    { destruct HR as [Hc _]. rewrite Governor.rateLimitWait_unfold in Hwait.
      injection Hwait as <- _ _. exact Hc. }
    unfold call_GetMergeRequest. rewrite Hcl.
    destruct (GetMergeRequest (client c) projectPath (gitlabapi.IID mr) (ext w1))
      as [res' ps'] eqn:Ecall.
    intros [= <- <- <-].
    eapply retraced_call; [exact HR | exact Hwait | |];
      cbn [answers after]; rewrite Ecall; reflexivity.
  - intros c0 w0 l0 resp (Hc & Hp & Hext).
    pose proof (checkRateLimitHeaders_sleeps c0 w0 resp) as Hs.
    destruct (performed_sleeps (client c) processor _ (stateAfter (client c) processor l0 (ext w))
                Hs) as [Hp1 Hs1].
    unfold retraced. rewrite stateAfter_app, Hs1, Governor.checkRateLimitHeaders_world.
    cbn [ext]. split; [|split; [apply performed_app; assumption | exact Hext]].
    rewrite <- Hc. destruct resp as [resp|]; [|reflexivity].
    rewrite Governor.checkRateLimitHeaders_client.
    destruct (Atoi _) as [n|]; [|reflexivity]. destruct (n <=? 10); reflexivity.
  - intros c0 w0 l0 ref (Hc & Hp & Hext).
    unfold world, log, call_processor.
    destruct (processor ref (ext w0)) as [res ps'] eqn:Ecall. cbn [fst snd].
    unfold retraced. rewrite stateAfter_app. cbn [ext stateAfter after].
    rewrite <- Hext, Ecall. cbn [snd].
    split; [exact Hc|]. split; [|reflexivity].
    apply performed_app; [exact Hp|]. cbn [performed answers].
    rewrite <- Hext, Ecall. auto.
  - repeat split.
Qed.

(** *** The claims about the fetcher *)

Lemma FetchMergeRequestRefs_log fuel c projectPath processor w :
  PagesLog projectPath fuel
    {| gitlabapi.Page := 0; gitlabapi.PerPage := 100; gitlabapi.State := Some "all" |}
    (log (FetchMergeRequestRefs fuel c projectPath processor) w)
    (fst (value (FetchMergeRequestRefs fuel c projectPath processor) w)).
Proof. apply pages_log. Qed.



(** C5.  Every listing and detail request in the log of a run was sent to
    the platform, in the state the steps before it left, and the log
    records the platform's answer.  Every listing request asks for 100
    entries per page in state [all]; the first names no page and each next
    one the cursor the platform returned last, which was not 0; a run that
    completes has stopped on a response whose cursor is 0, a run still
    going after [fuel] pages has seen [fuel] non-zero cursors, and no run
    goes on past a response whose cursor is 0.  In a completed run the
    detail requests go through the entries of all pages the platform
    returned, in order: when no entry was listed twice, each is looked up
    exactly once. *)
Theorem C5_pagination fuel c projectPath processor w :
  let call := FetchMergeRequestRefs fuel c projectPath processor in
  let l := log call w in
  let out := fst (value call w) in
  performed (client c) processor l (ext w) /\
  Forall (fun req => gitlabapi.PerPage (fst req) = 100 /\
                     gitlabapi.State (fst req) = Some "all") (listings l) /\
  followsCursor 0 (listings l) /\
  (out = Returned None ->
   (exists ls last mrs resp,
      listings l = ls ++ [(last, inr (mrs, resp))] /\ gitlabapi.NextPage resp = 0) /\
   lookedUp l = listedItems l) /\
  (out = OutOfFuel ->
   length (listings l) = fuel /\
   Forall (fun req => exists mrs resp,
             snd req = inr (mrs, resp) /\ gitlabapi.NextPage resp <> 0) (listings l)) /\
  (forall opts mrs resp,
     List.In (opts, inr (mrs, resp)) (listings l) ->
     gitlabapi.NextPage resp = 0 -> out <> OutOfFuel) /\
  (out = Returned None -> List.NoDup (listedItems l) ->
   List.NoDup (lookedUp l) /\
   forall mr, List.In mr (listedItems l) <-> List.In mr (lookedUp l)).
Proof.
  cbv zeta.
  destruct (FetchMergeRequestRefs_retraced fuel c projectPath processor w)
    as (_ & Hperformed & _).
  pose proof (FetchMergeRequestRefs_log fuel c projectPath processor w) as Hlog.
  destruct (PagesLog_listings _ _ _ _ _ Hlog) as (Hc & Hp & Hdone & Hfuel).
  destruct (PagesLog_lookedUp _ _ _ _ _ Hlog) as [_ Hall].
  split; [exact Hperformed|].
  split; [exact Hp|]. split; [exact Hc|].
  split; [intros Hout; split; [apply Hdone | apply Hall]; exact Hout|].
  split; [exact Hfuel|]. split.
  - intros opts mrs resp Hin Hzero Hout.
    destruct (Hfuel Hout) as [_ Hnonzero].
    rewrite List.Forall_forall in Hnonzero.
    destruct (Hnonzero _ Hin) as (mrs' & resp' & [= <- <-] & Hnz). contradiction.
  - intros Hout Hnd. rewrite (Hall Hout). split; [exact Hnd|reflexivity].
Qed.

End Proofs.



(** The scenarios of the specification, run on the model. *)

Example scenario_empty_hash_is_skipped :
  let call := FetchMergeRequestRefs 5 (freshClient (serve gappyProject))
                "group/project" storeRef in
  fst (value call emptyStore) = Returned None /\
  length (sinkRefs (log call emptyStore)) = 149%nat /\
  map IID (sinkRefs (log call emptyStore)) = map Z.of_nat (seq 1 36 ++ seq 38 113) /\
  ext (world call emptyStore) = sinkRefs (log call emptyStore).
Proof. cbv zeta. repeat split; vm_compute; reflexivity. Qed.

Example scenario_item_80_fails :
  let call := FetchMergeRequestRefs 5 (freshClient (serve flakyProject))
                "group/project" storeRef in
  fst (value call emptyStore)
  = Returned (Some (Wrap "failed to fetch merge request 80: connection reset by peer"
                         (New "connection reset by peer"))) /\
  map IID (sinkRefs (log call emptyStore)) = map Z.of_nat (seq 1 79).
Proof. cbv zeta. split; vm_compute; reflexivity. Qed.

(** The error of a failed step wraps the error the step returned. *)
Lemma abortError_wraps (e : Event) (err : error) :
  abortError e = Some err -> exists cause, Unwrap err = Some cause.
Proof.
  destruct e as [d | ? ? [cause|?] | ? ? [cause|?] | ? [cause|]]; simpl;
    intros [= <-]; exists cause; reflexivity.
Qed.



Lemma C5_witness :
  let call := FetchMergeRequestRefs 5 (freshClient (serve smallProject))
                "group/project" storeRef in
  lookedUp (log call emptyStore) = map fst (concat smallBook) /\
  List.NoDup (lookedUp (log call emptyStore)) /\
  forall mr, List.In mr (listedItems (log call emptyStore))
             <-> List.In mr (lookedUp (log call emptyStore)).
Proof.
  cbv zeta.
  pose proof (C5_pagination 5 (freshClient (serve smallProject))
                "group/project" storeRef emptyStore) as H.
  cbv zeta in H. destruct H as (_ & _ & _ & Hdone & _ & _ & Honce).
  split.
  - rewrite (proj2 (Hdone ltac:(vm_compute; reflexivity))). vm_compute. reflexivity.
  - apply Honce; clear.
    + vm_compute. reflexivity.
    + vm_compute. repeat constructor; simpl; intuition discriminate.
Defined.

End Fetcher.

(* ===================================================================== *)
(** * Theorems: the CSV codec *)
(* ===================================================================== *)

Module Codec.

Import Go encodingcsv codec.

#[local] Arguments String.append _ _ : simpl nomatch.

(** *** Strings *)

Lemma append_assoc (a b c : string) : (a +:+ b) +:+ c = a +:+ (b +:+ c).
Proof. induction a as [|x a IH]; simpl; [reflexivity|]. rewrite IH. reflexivity. Qed.

Lemma append_nil_r (a : string) : a +:+ "" = a.
Proof. induction a as [|x a IH]; simpl; [reflexivity|]. rewrite IH. reflexivity. Qed.

Lemma append_snoc (a : string) (c : ascii) (b : string) :
  (a +:+ String c "") +:+ b = a +:+ String c b.
Proof. rewrite append_assoc. reflexivity. Qed.

Lemma contains_app (p : ascii -> bool) (a b : string) :
  contains p (a +:+ b) = contains p a || contains p b.
Proof.
  induction a as [|x a IH]; simpl; [reflexivity|].
  rewrite IH. apply orb_assoc.
Qed.

Lemma contains_weaken (p q : ascii -> bool) (s : string) :
  (forall c, q c = true -> p c = true) ->
  contains p s = false -> contains q s = false.
Proof.
  intros Hpq. induction s as [|x s IH]; simpl; [reflexivity|].
  intros [Hx Hs]%orb_false_elim. rewrite (IH Hs), orb_false_r.
  destruct (q x) eqn:Hq; [|reflexivity]. rewrite (Hpq x Hq) in Hx. discriminate.
Qed.

(** *** Decimal numerals *)

Lemma string_of_uint_plain (d : uint) :
  contains isSpecial (NilEmpty.string_of_uint d) = false.
Proof. induction d; simpl; try rewrite IHd; reflexivity. Qed.

Lemma NilZero_string_of_uint (d : uint) :
  d <> Nil -> NilZero.string_of_uint d = NilEmpty.string_of_uint d.
Proof. destruct d; try reflexivity. contradiction. Qed.

Lemma Pos_to_uint_not_Nil (p : positive) : Pos.to_uint p <> Nil.
Proof.
  intros Hnil. pose proof (DecimalPos.Unsigned.of_to p) as Hp.
  rewrite Hnil in Hp. discriminate.
Qed.

Lemma Itoa_plain (i : Z) : contains isSpecial (Itoa i) = false.
Proof.
  unfold Itoa. destruct i as [|p|p]; simpl Z.to_int; unfold NilZero.string_of_int.
  - reflexivity.
  - rewrite NilZero_string_of_uint by apply Pos_to_uint_not_Nil.
    apply string_of_uint_plain.
  - rewrite NilZero_string_of_uint by apply Pos_to_uint_not_Nil.
    simpl. apply string_of_uint_plain.
Qed.

Lemma Itoa_not_empty (i : Z) : exists c rest, Itoa i = String c rest.
Proof.
  unfold Itoa. destruct i as [|p|p]; simpl Z.to_int; unfold NilZero.string_of_int.
  - eexists _, _. reflexivity.
  - pose proof (Pos_to_uint_not_Nil p) as Hp.
    destruct (Pos.to_uint p); try contradiction; eexists _, _; reflexivity.
  - eexists _, _. reflexivity.
Qed.

(** Reading back a numeral as [strconv.Itoa] prints it. *)
Lemma Atoi_digits (d : uint) :
  d <> Nil ->
  in_int64 (Z.of_uint d) ->
  Atoi (NilEmpty.string_of_uint d) = Some (Z.of_uint d).
Proof.
  intros Hd Hr. pose proof (NilEmpty.usu d) as Hu.
  unfold Atoi.
  destruct (NilEmpty.string_of_uint d) as [|c rest] eqn:Es.
  { destruct d; discriminate || contradiction. }
  assert (Hc : (Ascii.eqb c "-" || Ascii.eqb c "+") = false).
  { destruct d; try contradiction; injection Es as <- _; reflexivity. }
  apply orb_false_elim in Hc as [Hm Hp]. rewrite Hm, Hp. cbn [orb].
  rewrite Hu. cbv zeta.
  destruct Hr as [Hlo Hhi].
  apply Z.leb_le in Hlo, Hhi. rewrite Hlo, Hhi. reflexivity.
Qed.

Lemma Atoi_minus (s : string) :
  Atoi (String "-" s) =
  match s with
  | EmptyString => None
  | String _ _ =>
    match NilEmpty.uint_of_string s with
    | None => None
    | Some d =>
      if (minInt64 <=? - Z.of_uint d) && (- Z.of_uint d <=? maxInt64)
      then Some (- Z.of_uint d) else None
    end
  end.
Proof. reflexivity. Qed.

Lemma Atoi_Itoa (i : Z) : in_int64 i -> Atoi (Itoa i) = Some i.
Proof.
  intros Hr. unfold Itoa.
  pose proof (DecimalZ.of_to i) as Hi.
  destruct i as [|p|p]; simpl Z.to_int in *; unfold NilZero.string_of_int.
  - reflexivity.
  - rewrite NilZero_string_of_uint by apply Pos_to_uint_not_Nil.
    change (Z.of_uint (Pos.to_uint p) = Z.pos p) in Hi.
    rewrite <- Hi.
    apply Atoi_digits; [apply Pos_to_uint_not_Nil|]. rewrite Hi. exact Hr.
  - rewrite NilZero_string_of_uint by apply Pos_to_uint_not_Nil.
    change (- Z.of_uint (Pos.to_uint p) = Z.neg p) in Hi.
    pose proof (NilEmpty.usu (Pos.to_uint p)) as Hu.
    pose proof (Pos_to_uint_not_Nil p) as Hn.
    rewrite Atoi_minus.
    destruct (NilEmpty.string_of_uint (Pos.to_uint p)) as [|c rest] eqn:Es.
    { destruct (Pos.to_uint p); discriminate || contradiction. }
    rewrite Hu. cbv zeta. rewrite Hi.
    destruct Hr as [Hlo Hhi].
    apply Z.leb_le in Hlo, Hhi. rewrite Hlo, Hhi. reflexivity.
Qed.

(** *** The writer *)

Lemma escapeQuotes_plain (s : string) :
  contains isQuote s = false -> escapeQuotes s = s.
Proof.
  induction s as [|c s IH]; simpl; [reflexivity|].
  unfold isQuote at 1. intros [Hc Hs]%orb_false_elim.
  rewrite Hc, (IH Hs). reflexivity.
Qed.

Lemma fieldNeedsQuotes_false (field : string) :
  fieldNeedsQuotes field = false -> contains isSpecial field = false.
Proof.
  unfold fieldNeedsQuotes.
  destruct (String.eqb_spec field "") as [->|_]; [reflexivity|].
  destruct (String.eqb field "\."); [discriminate|].
  destruct (contains isSpecial field); [discriminate|reflexivity].
Qed.

Lemma isSpecial_LF c : isLF c = true -> isSpecial c = true.
Proof. unfold isLF, isSpecial. intros ->. reflexivity. Qed.

Lemma isSpecial_quote c : isQuote c = true -> isSpecial c = true.
Proof. unfold isQuote, isSpecial. intros ->. rewrite !orb_true_r. reflexivity. Qed.

Lemma isDelimiter_LF c : isLF c = true -> isDelimiter c = true.
Proof. unfold isLF, isDelimiter. intros ->. rewrite !orb_true_r. reflexivity. Qed.

Lemma isDelimiter_quote c : isQuote c = true -> isDelimiter c = true.
Proof. unfold isQuote, isDelimiter. intros ->. rewrite !orb_true_r. reflexivity. Qed.

(** The field written for a plain head hash: the hash itself, free of
    special bytes, or the hash between two quotes. *)
Lemma writeField_plain (sha : string) :
  plainSHA sha ->
  (writeField sha = sha /\ contains isSpecial sha = false) \/
  (writeField sha = String quote (sha +:+ String quote "")).
Proof.
  intros Hplain. unfold writeField.
  destruct (fieldNeedsQuotes sha) eqn:Hq.
  - right. rewrite escapeQuotes_plain; [reflexivity|].
    apply (contains_weaken isDelimiter); [apply isDelimiter_quote | exact Hplain].
  - left. split; [reflexivity | apply fieldNeedsQuotes_false; exact Hq].
Qed.

Lemma writeField_no_LF (sha : string) :
  plainSHA sha -> contains isLF (writeField sha) = false.
Proof.
  intros Hplain.
  assert (Hsha : contains isLF sha = false)
    by (apply (contains_weaken isDelimiter); [apply isDelimiter_LF | exact Hplain]).
  destruct (writeField_plain sha Hplain) as [[-> _] | ->]; [exact Hsha|].
  simpl. rewrite contains_app, Hsha. reflexivity.
Qed.

Lemma lineOf_no_LF (ref : gitlab.MergeRequestRef) :
  plainSHA (gitlab.HeadSHA ref) -> contains isLF (lineOf ref) = false.
Proof.
  intros Hplain. unfold lineOf. rewrite contains_app. simpl.
  rewrite (writeField_no_LF _ Hplain).
  rewrite (contains_weaken isSpecial isLF _ isSpecial_LF (Itoa_plain _)). reflexivity.
Qed.

Lemma fieldNeedsQuotes_head (c : ascii) (rest : string) :
  contains isSpecial (String c rest) = false ->
  Ascii.eqb c "\" = false ->
  firstRuneIsSpace (String c rest) = false ->
  fieldNeedsQuotes (String c rest) = false.
Proof.
  intros Hs Hc Hf. unfold fieldNeedsQuotes. rewrite Hs, Hf.
  simpl. rewrite Hc. reflexivity.
Qed.

Lemma digits_unquoted (d : uint) :
  d <> Nil -> fieldNeedsQuotes (NilEmpty.string_of_uint d) = false.
Proof.
  intros Hd. pose proof (string_of_uint_plain d) as Hs.
  destruct d; try contradiction; simpl NilEmpty.string_of_uint in *;
    apply fieldNeedsQuotes_head; try exact Hs; reflexivity.
Qed.

(** A numeral is written as it is, without quotes. *)
Lemma writeField_Itoa (i : Z) : writeField (Itoa i) = Itoa i.
Proof.
  unfold writeField.
  assert (Hq : fieldNeedsQuotes (Itoa i) = false); [|rewrite Hq; reflexivity].
  pose proof (Itoa_plain i) as Hs. revert Hs.
  unfold Itoa. destruct i as [|p|p]; simpl Z.to_int; unfold NilZero.string_of_int.
  - reflexivity.
  - rewrite NilZero_string_of_uint by apply Pos_to_uint_not_Nil.
    intros _. apply digits_unquoted, Pos_to_uint_not_Nil.
  - intros Hs. apply fieldNeedsQuotes_head; [exact Hs|reflexivity..].
Qed.

Lemma writeRefs_written (refs : list gitlab.MergeRequestRef) : forall w,
  csv.writeRefs w refs =
  ({| written := written w +:+ concatLines (map lineOf refs) |}, None).
Proof.
  induction refs as [|ref refs IH]; intros [buf]; simpl.
  - rewrite append_nil_r. reflexivity.
  - rewrite IH. simpl. unfold lineOf. rewrite writeField_Itoa, !append_assoc. reflexivity.
Qed.

(** *** The reader, on what the writer wrote *)

Lemma rawLines_line (a rest : string) :
  contains isLF a = false ->
  rawLines (a +:+ String LF rest) = (a +:+ String LF "") :: rawLines rest.
Proof.
  induction a as [|c a IH]; simpl.
  - reflexivity.
  - unfold isLF at 1. intros [Hc Ha]%orb_false_elim.
    rewrite Hc, (IH Ha). reflexivity.
Qed.

Lemma rawLines_concatLines (lines : list string) :
  Forall (fun a => contains isLF a = false) lines ->
  rawLines (concatLines lines) = map (fun a => a +:+ String LF "") lines.
Proof.
  induction 1 as [|a lines Ha _ IH]; simpl; [reflexivity|].
  rewrite (rawLines_line _ _ Ha), IH. reflexivity.
Qed.

Lemma lastCR_app (x : string) (c : ascii) (y : string) :
  lastCR (x +:+ String c y) = lastCR (String c y).
Proof.
  induction x as [|d x IH]; [reflexivity|].
  simpl String.append. rewrite <- IH.
  destruct x; reflexivity.
Qed.

Lemma lastCR_plain (s : string) : contains isSpecial s = false -> lastCR s = false.
Proof.
  induction s as [|c s IH]; [reflexivity|].
  simpl. intros [Hc Hs]%orb_false_elim.
  destruct s; [|exact (IH Hs)].
  unfold isSpecial in Hc. apply orb_false_elim in Hc as [Hc _].
  apply orb_false_elim in Hc as [Hc _]. apply orb_false_elim in Hc as [_ Hc]. exact Hc.
Qed.

Lemma normalizeLine_keep (a : string) :
  lastCR a = false -> normalizeLine (a +:+ String LF "") = a +:+ String LF "".
Proof.
  induction a as [|c a IH]; [reflexivity|].
  destruct a as [|d a].
  - simpl. intros ->. reflexivity.
  - intros Hl. specialize (IH Hl). simpl String.append in *.
    destruct (a +:+ String LF "") as [|e t] eqn:Et.
    { destruct a; discriminate. }
    change (normalizeLine (String c (String d (String e t))))
      with (String c (normalizeLine (String d (String e t)))).
    rewrite IH. reflexivity.
Qed.

Lemma lineOf_lastCR (ref : gitlab.MergeRequestRef) :
  plainSHA (gitlab.HeadSHA ref) -> lastCR (lineOf ref) = false.
Proof.
  intros Hplain. unfold lineOf. rewrite lastCR_app.
  destruct (writeField_plain _ Hplain) as [[-> Hs] | ->].
  - apply lastCR_plain in Hs. destruct (gitlab.HeadSHA ref); [reflexivity|exact Hs].
  - change (String comma (String quote (gitlab.HeadSHA ref +:+ String quote "")))
      with (String comma (String quote "") +:+ (gitlab.HeadSHA ref +:+ String quote "")).
    rewrite <- append_assoc, lastCR_app. reflexivity.
Qed.

Lemma isSpecial_false (c : ascii) :
  isSpecial c = false ->
  Ascii.eqb c LF = false /\ Ascii.eqb c quote = false /\ Ascii.eqb c comma = false.
Proof.
  unfold isSpecial. intros Hc.
  apply orb_false_elim in Hc as [Hc Hcomma]. apply orb_false_elim in Hc as [Hc Hquote].
  apply orb_false_elim in Hc as [HLF _]. auto.
Qed.

(** An unquoted field up to its comma. *)
Lemma scanLine_plain_comma (s : string) : forall mode buf fields rest,
  mode <> Quoted ->
  contains isSpecial s = false ->
  scanLine mode (s +:+ String comma rest) buf fields
  = scanLine FieldStart rest "" (fields ++ [buf +:+ s]).
Proof.
  induction s as [|c s IH]; intros mode buf fields rest Hmode Hs.
  - rewrite append_nil_r. destruct mode; try contradiction; reflexivity.
  - simpl in Hs. apply orb_false_elim in Hs as [Hc Hs].
    destruct (isSpecial_false c Hc) as (HLF & Hquote & Hcomma).
    simpl String.append.
    destruct mode; try contradiction; simpl scanLine;
      rewrite Hquote, Hcomma, HLF; cbn [andb];
      rewrite IH by (discriminate || exact Hs); rewrite append_snoc; reflexivity.
Qed.

(** An unquoted field up to the end of the line. *)
Lemma scanLine_plain_end (s : string) : forall mode buf fields,
  mode <> Quoted ->
  contains isSpecial s = false ->
  scanLine mode (s +:+ String LF "") buf fields = RecordEnd (fields ++ [buf +:+ s]).
Proof.
  induction s as [|c s IH]; intros mode buf fields Hmode Hs.
  - rewrite append_nil_r. destruct mode; try contradiction; reflexivity.
  - simpl in Hs. apply orb_false_elim in Hs as [Hc Hs].
    destruct (isSpecial_false c Hc) as (HLF & Hquote & Hcomma).
    simpl String.append.
    destruct mode; try contradiction; simpl scanLine;
      rewrite Hquote, Hcomma, HLF; cbn [andb];
      rewrite IH by (discriminate || exact Hs); rewrite append_snoc; reflexivity.
Qed.

(** A quoted field without inner quotes, closing the line. *)
Lemma scanLine_quoted_end (s : string) : forall buf fields,
  contains isQuote s = false ->
  scanLine Quoted (s +:+ String quote (String LF "")) buf fields
  = RecordEnd (fields ++ [buf +:+ s]).
Proof.
  induction s as [|c s IH]; intros buf fields Hs.
  - rewrite append_nil_r. reflexivity.
  - simpl in Hs. apply orb_false_elim in Hs as [Hc Hs]. unfold isQuote in Hc.
    simpl String.append. simpl scanLine. rewrite Hc.
    rewrite IH by exact Hs. rewrite append_snoc. reflexivity.
Qed.

(** The line written for a reference reads back as its two fields. *)
Lemma scanLine_lineOf (ref : gitlab.MergeRequestRef) :
  plainSHA (gitlab.HeadSHA ref) ->
  scanLine FieldStart (lineOf ref +:+ String LF "") "" [] = RecordEnd (recordOf ref).
Proof.
  intros Hplain. unfold lineOf, recordOf.
  rewrite append_assoc. simpl (String comma _ +:+ _).
  rewrite scanLine_plain_comma by (discriminate || apply Itoa_plain).
  simpl ("" +:+ _). simpl ([] ++ _).
  destruct (writeField_plain _ Hplain) as [[-> Hs] | ->].
  - rewrite scanLine_plain_end by (discriminate || exact Hs). reflexivity.
  - simpl String.append. rewrite append_assoc. simpl (String quote "" +:+ _).
    change (scanLine FieldStart
              (String quote (gitlab.HeadSHA ref +:+ String quote (String LF "")))
              "" [Itoa (gitlab.IID ref)])
      with (scanLine Quoted (gitlab.HeadSHA ref +:+ String quote (String LF ""))
              "" [Itoa (gitlab.IID ref)]).
    rewrite scanLine_quoted_end; [reflexivity|].
    apply (contains_weaken isDelimiter); [apply isDelimiter_quote | exact Hplain].
Qed.

Lemma lineOf_not_empty (ref : gitlab.MergeRequestRef) :
  endsRecord (lineOf ref +:+ String LF "") = false.
Proof.
  unfold lineOf. pose proof (Itoa_plain (gitlab.IID ref)) as Hs.
  destruct (Itoa_not_empty (gitlab.IID ref)) as (c & rest & E). rewrite E in *.
  simpl in Hs. apply orb_false_elim in Hs as [Hc _].
  destruct (isSpecial_false c Hc) as (HLF & _ & _).
  unfold endsRecord. simpl. rewrite HLF. reflexivity.
Qed.

Lemma readRecords_lines (refs : list gitlab.MergeRequestRef) :
  forall (n : nat) (records : list (list string)),
  (n = 0 \/ n = 2)%nat ->
  Forall (fun ref => plainSHA (gitlab.HeadSHA ref)) refs ->
  readRecords (map normalizeLine (map (fun a => a +:+ String LF "") (map lineOf refs)))
              None n records
  = inr (records ++ map recordOf refs).
Proof.
  induction refs as [|ref refs IH]; intros n records Hn Hplain.
  - simpl. rewrite app_nil_r. reflexivity.
  - inversion Hplain as [|? ? Href Hrest]; subst.
    simpl map. cbn [readRecords].
    rewrite (normalizeLine_keep _ (lineOf_lastCR ref Href)).
    rewrite lineOf_not_empty, (scanLine_lineOf ref Href).
    assert (Hcount : ((0 <? n)%nat && negb (length (recordOf ref) =? n)%nat) = false)
      by (destruct Hn as [-> | ->]; reflexivity).
    rewrite Hcount, IH by (auto; right; reflexivity).
    rewrite <- app_assoc. reflexivity.
Qed.

Lemma countLF_concatLines (lines : list string) :
  Forall (fun a => contains isLF a = false) lines ->
  countLF (concatLines lines) = length lines.
Proof.
  assert (Happ : forall a b, contains isLF a = false -> countLF (a +:+ b) = countLF b).
  { induction a as [|c a IHa]; intros b; simpl; [reflexivity|].
    unfold isLF at 1. intros [Hc Ha]%orb_false_elim. rewrite Hc. simpl. auto. }
  induction 1 as [|a lines Ha _ IH]; simpl; [reflexivity|].
  rewrite (Happ _ _ Ha). simpl. rewrite IH. reflexivity.
Qed.

(** *** Decoding records *)

Lemma readRefs_recordOf (refs : list gitlab.MergeRequestRef) :
  forall (i : Z) (acc : list gitlab.MergeRequestRef),
  Forall (fun ref => in_int64 (gitlab.IID ref)) refs ->
  csv.readRefs i (map recordOf refs) acc = inr (acc ++ map stored refs).
Proof.
  induction refs as [|ref refs IH]; intros i acc Hr.
  - simpl. rewrite app_nil_r. reflexivity.
  - inversion Hr as [|? ? Href Hrest]; subst.
    simpl. rewrite (Atoi_Itoa _ Href), IH by exact Hrest.
    rewrite <- app_assoc. reflexivity.
Qed.

Lemma readRefs_ID (records : list (list string)) :
  forall (i : Z) (acc refs : list gitlab.MergeRequestRef),
  Forall (fun ref => gitlab.ID ref = 0) acc ->
  csv.readRefs i records acc = inr refs ->
  Forall (fun ref => gitlab.ID ref = 0) refs.
Proof.
  induction records as [|record records IH]; intros i acc refs Hacc.
  - simpl. intros [= <-]. exact Hacc.
  - simpl. destruct record as [|iidField [|shaField [|? ?]]]; try discriminate.
    destruct (Atoi iidField) as [iid|]; [|discriminate].
    apply IH. apply Forall_app. split; [exact Hacc|]. repeat constructor.
Qed.

(** Writing succeeds, and leaves in the file one line per reference. *)
Lemma WriteRefsToFile_content (refs : list gitlab.MergeRequestRef) (filename : string)
    (fs : gmap string string) :
  filename <> "" ->
  csv.WriteRefsToFile refs filename fs =
  (None, <[filename := concatLines (map lineOf refs)]> (<[filename := ""]> fs)).
Proof.
  intros Hname. unfold csv.WriteRefsToFile, os.Create.
  destruct (String.eqb_spec filename "") as [|_]; [contradiction|].
  rewrite writeRefs_written. reflexivity.
Qed.

(** Encode, then decode. *)
Lemma roundtrip (refs : list gitlab.MergeRequestRef) (filename : string)
    (fs : gmap string string) :
  filename <> "" ->
  Forall (fun ref => in_int64 (gitlab.IID ref) /\ plainSHA (gitlab.HeadSHA ref)) refs ->
  ReadAll (concatLines (map lineOf refs)) = inr (map recordOf refs) /\
  csv.ReadRefsFromFile filename (snd (csv.WriteRefsToFile refs filename fs))
  = inr (map stored refs).
Proof.
  intros Hname Hrefs.
  assert (Hplain : Forall (fun ref => plainSHA (gitlab.HeadSHA ref)) refs)
    by (eapply Forall_impl; [exact Hrefs | intros ? [_ ?]; assumption]).
  assert (Hint : Forall (fun ref => in_int64 (gitlab.IID ref)) refs)
    by (eapply Forall_impl; [exact Hrefs | intros ? [? _]; assumption]).
  assert (Hlines : Forall (fun a => contains isLF a = false) (map lineOf refs)).
  { apply Forall_map. eapply Forall_impl; [exact Hplain|].
    intros ref Href. apply lineOf_no_LF. exact Href. }
  assert (Hread : ReadAll (concatLines (map lineOf refs)) = inr (map recordOf refs)).
  { unfold ReadAll. rewrite (rawLines_concatLines _ Hlines).
    apply (readRecords_lines refs 0%nat []); [left; reflexivity | exact Hplain]. }
  split; [exact Hread|].
  rewrite (WriteRefsToFile_content _ _ _ Hname). cbn [snd].
  unfold csv.ReadRefsFromFile, os.Open.
  rewrite lookup_insert_eq, Hread.
  apply (readRefs_recordOf refs 0 []). exact Hint.
Qed.

(** *** Hexadecimal hashes, and the package's tests *)

Lemma hex_plain (c : ascii) :
  isHexDigit c = true ->
  isSpecial c = false /\ isDelimiter c = false /\ Ascii.eqb c "\" = false /\
  forall rest, firstRuneIsSpace (String c rest) = false.
Proof.
  destruct c as [[] [] [] [] [] [] [] []]; intros Hc; try discriminate Hc;
    repeat split; reflexivity.
Qed.

Lemma hex_no_special (sha : string) :
  contains notHexDigit sha = false ->
  contains isSpecial sha = false /\ plainSHA sha.
Proof.
  unfold plainSHA. induction sha as [|c sha IH]; simpl; [auto|].
  unfold notHexDigit at 1. intros [Hc Hs]%orb_false_elim.
  apply negb_false_iff in Hc. destruct (hex_plain c Hc) as (H1 & H2 & _).
  destruct (IH Hs) as [IH1 IH2]. rewrite H1, H2, IH1, IH2. auto.
Qed.

(** A hexadecimal head hash is written as it is: the line of its record
    is the decimal [IID], a comma, and the hash. *)
Lemma lineOf_hex (ref : gitlab.MergeRequestRef) :
  contains notHexDigit (gitlab.HeadSHA ref) = false ->
  lineOf ref = Itoa (gitlab.IID ref) +:+ String comma (gitlab.HeadSHA ref).
Proof.
  intros Hhex. unfold lineOf, writeField.
  assert (Hq : fieldNeedsQuotes (gitlab.HeadSHA ref) = false); [|rewrite Hq; reflexivity].
  destruct (hex_no_special _ Hhex) as [Hs _].
  destruct (gitlab.HeadSHA ref) as [|c rest]; [reflexivity|].
  simpl in Hhex. apply orb_false_elim in Hhex as [Hc _].
  apply negb_false_iff in Hc. destruct (hex_plain c Hc) as (_ & _ & Hb & Hf).
  apply fieldNeedsQuotes_head; auto.
Qed.

Example TestWriteRefsToFile :
  csv.WriteRefsToFile
    [ {| gitlab.ID := 1; gitlab.IID := 1; gitlab.HeadSHA := "abc123" |};
      {| gitlab.ID := 2; gitlab.IID := 16; gitlab.HeadSHA := "def456" |};
      {| gitlab.ID := 3; gitlab.IID := 17; gitlab.HeadSHA := "ghi789" |} ]
    "test.csv" ∅
  = (None, {[ "test.csv" := testFile ]}).
Proof.
  rewrite WriteRefsToFile_content by discriminate.
  rewrite insert_insert_eq, insert_empty. reflexivity.
Qed.

Example TestReadRefsFromFile :
  csv.ReadRefsFromFile "test.csv" {[ "test.csv" := testFile ]}
  = inr [ {| gitlab.ID := 0; gitlab.IID := 1; gitlab.HeadSHA := "abc123" |};
          {| gitlab.ID := 0; gitlab.IID := 16; gitlab.HeadSHA := "def456" |};
          {| gitlab.ID := 0; gitlab.IID := 17; gitlab.HeadSHA := "ghi789" |} ].
Proof. vm_compute. reflexivity. Qed.

Example TestReadRefsFromFile_InvalidFormat :
  csv.ReadRefsFromFile "invalid.csv" {[ "invalid.csv" := "1,abc123,extra" +:+ nl ]}
  = inl (New "invalid CSV format at line 1: expected 2 columns, got 3").
Proof. vm_compute. reflexivity. Qed.

Example TestReadRefsFromFile_InvalidIID :
  exists err,
    csv.ReadRefsFromFile "invalid_iid.csv"
      {[ "invalid_iid.csv" := "not_a_number,abc123" +:+ nl ]} = inl err.
Proof. eexists. vm_compute. reflexivity. Qed.

(** *** The claims about the codec *)

(** C8.  For references whose [IID] is a Go [int] and whose head hash has
    no comma, no quote and no line feed, written to a file that can be
    created: [WriteRefsToFile] reports no error; [ReadRefsFromFile] then
    returns as many references, in the same order, each with the [IID] and
    the head hash written; the file holds one line per reference and
    nothing else (no header), which the CSV reader splits into the two
    fields [IID], head hash, in this order. *)
Theorem C8_write_then_read (refs : list gitlab.MergeRequestRef) (filename : string)
    (fs : gmap string string) :
  filename <> "" ->
  Forall (fun ref => in_int64 (gitlab.IID ref) /\ plainSHA (gitlab.HeadSHA ref)) refs ->
  let result := csv.WriteRefsToFile refs filename fs in
  fst result = None /\
  (exists back,
     csv.ReadRefsFromFile filename (snd result) = inr back /\
     length back = length refs /\
     Forall2 (fun ref b => gitlab.IID b = gitlab.IID ref /\
                           gitlab.HeadSHA b = gitlab.HeadSHA ref) refs back) /\
  (exists content,
     snd result !! filename = Some content /\
     content = concatLines (map lineOf refs) /\
     countLF content = length refs /\
     ReadAll content = inr (map recordOf refs)).
Proof.
  intros Hname Hrefs result.
  destruct (roundtrip refs filename fs Hname Hrefs) as [Hread Hback].
  unfold result. split; [|split].
  - rewrite (WriteRefsToFile_content _ _ _ Hname). reflexivity.
  - exists (map stored refs). split; [exact Hback|].
    split; [apply length_map|].
    clear. induction refs; constructor; auto.
  - exists (concatLines (map lineOf refs)).
    rewrite (WriteRefsToFile_content _ _ _ Hname). cbn [snd].
    split; [apply lookup_insert_eq|]. split; [reflexivity|].
    split; [|exact Hread].
    rewrite countLF_concatLines, length_map; [reflexivity|].
    apply Forall_map. eapply Forall_impl; [exact Hrefs|].
    intros ref [_ Href]. apply lineOf_no_LF. exact Href.
Qed.

(** C10.  Every reference [ReadRefsFromFile] returns has [ID] 0, whatever
    the file holds; so after writing references and reading them back, a
    reference comes back with its own [ID] only if that was 0 already. *)
Theorem C10_ID_is_not_read_back :
  (forall (filename : string) (fs : gmap string string) (refs : list gitlab.MergeRequestRef),
     csv.ReadRefsFromFile filename fs = inr refs ->
     Forall (fun ref => gitlab.ID ref = 0) refs) /\
  (forall (refs : list gitlab.MergeRequestRef) (filename : string) (fs : gmap string string),
     filename <> "" ->
     Forall (fun ref => in_int64 (gitlab.IID ref) /\ plainSHA (gitlab.HeadSHA ref)) refs ->
     exists back,
       csv.ReadRefsFromFile filename (snd (csv.WriteRefsToFile refs filename fs)) = inr back /\
       Forall2 (fun ref b => gitlab.ID b = 0 /\ (gitlab.ID ref <> 0 -> b <> ref)) refs back).
Proof.
  split.
  - intros filename fs refs. unfold csv.ReadRefsFromFile.
    destruct (os.Open filename fs) as [err|content]; [discriminate|].
    destruct (ReadAll content) as [err|records]; [discriminate|].
    apply readRefs_ID. constructor.
  - intros refs filename fs Hname Hrefs.
    exists (map stored refs). split; [apply (roundtrip refs filename fs Hname Hrefs)|].
    clear. induction refs as [|ref refs IH]; constructor; [|exact IH].
    split; [reflexivity|]. intros Hid Heq. apply Hid. rewrite <- Heq. reflexivity.
Qed.

Lemma C8_witness :
  let refs := [ {| gitlab.ID := 501; gitlab.IID := 1; gitlab.HeadSHA := "abc123" |};
                {| gitlab.ID := 502; gitlab.IID := 16; gitlab.HeadSHA := " def456" |} ] in
  fst (csv.WriteRefsToFile refs "group-repo.csv" ∅) = None /\
  exists content,
    snd (csv.WriteRefsToFile refs "group-repo.csv" ∅) !! "group-repo.csv" = Some content /\
    content = concatLines (map lineOf refs) /\
    countLF content = 2%nat /\
    ReadAll content = inr [["1"; "abc123"]; ["16"; " def456"]].
Proof.
  cbv zeta.
  pose proof (C8_write_then_read
                [ {| gitlab.ID := 501; gitlab.IID := 1; gitlab.HeadSHA := "abc123" |};
                  {| gitlab.ID := 502; gitlab.IID := 16; gitlab.HeadSHA := " def456" |} ]
                "group-repo.csv" ∅) as H.
  destruct H as (Hok & _ & Hfile).
  - discriminate.
  - repeat constructor; vm_compute; congruence.
  - split; [exact Hok | exact Hfile].
Defined.

Lemma C10_witness :
  csv.ReadRefsFromFile "group-repo.csv" {[ "group-repo.csv" := "7,abc" ]}
  = inr [ {| gitlab.ID := 0; gitlab.IID := 7; gitlab.HeadSHA := "abc" |} ] /\
  Forall (fun ref => gitlab.ID ref = 0)
         [ {| gitlab.ID := 0; gitlab.IID := 7; gitlab.HeadSHA := "abc" |} ].
Proof.
  assert (Hread : csv.ReadRefsFromFile "group-repo.csv" {[ "group-repo.csv" := "7,abc" ]}
                  = inr [ {| gitlab.ID := 0; gitlab.IID := 7; gitlab.HeadSHA := "abc" |} ])
    by (vm_compute; reflexivity).
  split; [exact Hread|].
  exact (proj1 C10_ID_is_not_read_back _ _ _ Hread).
Defined.

End Codec.

(* ===================================================================== *)
(** * Theorems: file names *)
(* ===================================================================== *)

Module FileNames.

Import Go csvfile.

#[local] Arguments String.append _ _ : simpl nomatch.

Example TestGenerateFilename :
  GenerateFilename "group/repo" = "group-repo.csv" /\
  GenerateFilename "group/subgroup/repo" = "group-subgroup-repo.csv" /\
  GenerateFilename "group/sub1/sub2/sub3/repo" = "group-sub1-sub2-sub3-repo.csv" /\
  GenerateFilename "https://gitlab.com/group/repo.git" = "group-repo.csv" /\
  GenerateFilename "https://gitlab.com/group/subgroup/repo" = "group-subgroup-repo.csv".
Proof. repeat split; vm_compute; reflexivity. Qed.

(** *** The string functions *)

Lemma Contains_unfold (s substr : string) :
  strings.Contains s substr =
  strings.HasPrefix s substr ||
  match s with
  | EmptyString => false
  | String _ s' => strings.Contains s' substr
  end.
Proof. destruct s; reflexivity. Qed.

Lemma HasPrefix_app (a b : string) : strings.HasPrefix (a +:+ b) a = true.
Proof.
  induction a as [|x a IH]; simpl; [destruct b; reflexivity|].
  rewrite Ascii.eqb_refl, IH. reflexivity.
Qed.

Lemma HasPrefix_app_l (a sub c : string) :
  strings.HasPrefix a sub = true -> strings.HasPrefix (a +:+ c) sub = true.
Proof.
  revert a. induction sub as [|p sub IH]; intros a.
  - intros _. destruct (a +:+ c); reflexivity.
  - destruct a as [|x a]; simpl; [discriminate|].
    intros [Hx Ha]%andb_prop. rewrite Hx, (IH _ Ha). reflexivity.
Qed.

Lemma Contains_app_l (a sub c : string) :
  strings.Contains a sub = true -> strings.Contains (a +:+ c) sub = true.
Proof.
  induction a as [|x a IH].
  - simpl. rewrite orb_false_r. intros H.
    destruct sub; [destruct c; reflexivity | discriminate].
  - rewrite (Contains_unfold (String x a)), (Contains_unfold (String x a +:+ c)).
    intros [H|H]%orb_prop.
    + rewrite (HasPrefix_app_l _ _ _ H). reflexivity.
    + simpl. rewrite (IH H). apply orb_true_r.
Qed.

Lemma Contains_app_r (a b sub : string) :
  strings.Contains b sub = true -> strings.Contains (a +:+ b) sub = true.
Proof.
  intros H. induction a as [|x a IH]; [exact H|].
  simpl String.append. rewrite Contains_unfold, IH. apply orb_true_r.
Qed.

Lemma Contains_self (a sub b : string) : strings.Contains (a +:+ sub +:+ b) sub = true.
Proof.
  apply Contains_app_r. rewrite Contains_unfold, HasPrefix_app. reflexivity.
Qed.

Lemma ContainsRune_app (a b : string) (r : ascii) :
  strings.ContainsRune (a +:+ b) r = strings.ContainsRune a r || strings.ContainsRune b r.
Proof.
  induction a as [|x a IH]; simpl; [reflexivity|]. rewrite IH. apply orb_assoc.
Qed.

Lemma ReplaceAll_removes (s : string) (old new : ascii) :
  old <> new -> strings.ContainsRune (strings.ReplaceAll s old new) old = false.
Proof.
  intros Hne. induction s as [|c s IH]; simpl; [reflexivity|].
  rewrite IH, orb_false_r.
  destruct (Ascii.eqb_spec c old) as [->|Hc].
  - apply Ascii.eqb_neq. congruence.
  - apply Ascii.eqb_neq. exact Hc.
Qed.

Lemma Split_not_nil (s : string) (sep : ascii) : strings.Split s sep <> [].
Proof.
  destruct s as [|c s]; simpl; [discriminate|].
  destruct (Ascii.eqb c sep); [discriminate|].
  destruct (strings.Split s sep); discriminate.
Qed.

(** Splitting at a byte and joining with it gives the string back. *)
Lemma Join_Split (s : string) (sep : ascii) :
  strings.Join (strings.Split s sep) sep = s.
Proof.
  induction s as [|c s IH]; [reflexivity|].
  pose proof (Split_not_nil s sep) as Hne.
  simpl strings.Split.
  destruct (strings.Split s sep) as [|piece pieces]; [contradiction|].
  destruct (Ascii.eqb_spec c sep) as [->|Hc].
  - change (strings.Join (EmptyString :: piece :: pieces) sep)
      with (String sep (strings.Join (piece :: pieces) sep)).
    rewrite IH. reflexivity.
  - destruct pieces as [|q pieces]; simpl in *; rewrite IH; reflexivity.
Qed.

Lemma Split_first (a b : string) (sep : ascii) :
  strings.ContainsRune a sep = false ->
  strings.Split (a +:+ String sep b) sep = a :: strings.Split b sep.
Proof.
  induction a as [|c a IH]; simpl.
  - intros _. rewrite Ascii.eqb_refl. reflexivity.
  - intros [Hc Ha]%orb_false_elim. rewrite Hc, (IH Ha). reflexivity.
Qed.

Lemma eqb_ReplaceAll (s suffix : string) (old new : ascii) :
  strings.ContainsRune suffix old = false ->
  strings.ContainsRune suffix new = false ->
  String.eqb (strings.ReplaceAll s old new) suffix = String.eqb s suffix.
Proof.
  revert suffix. induction s as [|c s IH]; intros [|x suffix]; simpl; try reflexivity.
  intros [Hxo Ho]%orb_false_elim [Hxn Hn]%orb_false_elim.
  rewrite (IH _ Ho Hn).
  destruct (Ascii.eqb_spec c old) as [->|Hc]; [|reflexivity].
  rewrite Ascii.eqb_sym in Hxo, Hxn. rewrite Hxo, Hxn. reflexivity.
Qed.

Lemma ReplaceAll_TrimSuffix (s suffix : string) (old new : ascii) :
  strings.ContainsRune suffix old = false ->
  strings.ContainsRune suffix new = false ->
  strings.ReplaceAll (strings.TrimSuffix s suffix) old new
  = strings.TrimSuffix (strings.ReplaceAll s old new) suffix.
Proof.
  intros Ho Hn. induction s as [|c s IH]; [reflexivity|].
  change (strings.ReplaceAll (String c s) old new)
    with (String (if Ascii.eqb c old then new else c) (strings.ReplaceAll s old new)).
  cbn [strings.TrimSuffix].
  change (String (if Ascii.eqb c old then new else c) (strings.ReplaceAll s old new))
    with (strings.ReplaceAll (String c s) old new) at 1.
  rewrite (eqb_ReplaceAll _ _ _ _ Ho Hn).
  destruct (String.eqb (String c s) suffix); [reflexivity|].
  simpl. rewrite IH. reflexivity.
Qed.

(** *** [GenerateFilename] *)

(** The file name proper, before [.csv] is added. *)
Lemma GenerateFilename_plain (repoPath : string) :
  strings.Contains repoPath "://" = false ->
  GenerateFilename repoPath
  = strings.ReplaceAll (strings.TrimSuffix repoPath ".git") "/" "-" +:+ ".csv".
Proof. intros H. unfold GenerateFilename. rewrite H. reflexivity. Qed.

(** X2.  A full URL and the bare project path give the same file: scheme
    and host are dropped. *)
Theorem GenerateFilename_URL (scheme host path : string) :
  strings.ContainsRune scheme "/" = false ->
  strings.ContainsRune host "/" = false ->
  strings.Contains path "://" = false ->
  GenerateFilename (scheme +:+ "://" +:+ host +:+ String "/" path) = GenerateFilename path.
Proof.
  intros Hs Hh Hp.
  rewrite (GenerateFilename_plain path Hp).
  unfold GenerateFilename. rewrite Contains_self. cbv zeta.
  assert (Hsplit : strings.Split (scheme +:+ "://" +:+ host +:+ String "/" path) "/"
                   = (scheme +:+ ":") :: EmptyString :: host :: strings.Split path "/").
  { change (scheme +:+ "://" +:+ host +:+ String "/" path)
      with (scheme +:+ (":" +:+ String "/" (EmptyString +:+ String "/" (host +:+ String "/" path)))).
    rewrite <- Codec.append_assoc.
    rewrite Split_first by (rewrite ContainsRune_app, Hs; reflexivity).
    rewrite Split_first by reflexivity.
    rewrite Split_first by exact Hh. reflexivity. }
  rewrite Hsplit.
  pose proof (Split_not_nil path "/") as Hne.
  destruct (strings.Split path "/") as [|piece pieces] eqn:Epath; [contradiction|].
  cbn [length Nat.leb from3 skipn]. rewrite <- Epath, Join_Split. reflexivity.
Qed.

(** X3.  Project paths that differ only by slashes against hyphens get
    the same file name: the export of one overwrites that of the other. *)
Theorem GenerateFilename_collision (p q : string) :
  strings.Contains p "://" = false ->
  strings.Contains q "://" = false ->
  strings.ReplaceAll p "/" "-" = strings.ReplaceAll q "/" "-" ->
  GenerateFilename p = GenerateFilename q.
Proof.
  intros Hp Hq Heq.
  rewrite (GenerateFilename_plain p Hp), (GenerateFilename_plain q Hq).
  rewrite !ReplaceAll_TrimSuffix by reflexivity. rewrite Heq. reflexivity.
Qed.

Lemma GenerateFilename_URL_witness :
  GenerateFilename ("https" +:+ "://" +:+ "gitlab.com" +:+ String "/" "group/repo.git")
  = GenerateFilename "group/repo.git".
Proof. apply GenerateFilename_URL; reflexivity. Defined.

Lemma GenerateFilename_collision_witness :
  GenerateFilename "group/sub-repo" = GenerateFilename "group-sub/repo".
Proof. apply GenerateFilename_collision; reflexivity. Defined.

End FileNames.

(* ===================================================================== *)
(** * Theorems: repository paths *)
(* ===================================================================== *)

Module RepoPaths.

Import Go gitlab gitlabrepo observe.

#[local] Arguments String.append _ _ : simpl nomatch.

Lemma inClass_not_slash (c : ascii) : regexp.inClass c = true -> Ascii.eqb c "/" = false.
Proof.
  intros H. destruct (Ascii.eqb_spec c "/") as [->|]; [discriminate H | reflexivity].
Qed.

Lemma allInClass_cons (c : ascii) (g : string) :
  allInClass (String c g) = regexp.inClass c && allInClass g.
Proof.
  unfold allInClass. simpl. destruct (regexp.inClass c); reflexivity.
Qed.

Lemma accepts_AfterSlash (pieces : list string) :
  accepts regexp.AfterSlash pieces = forallb goodSegment pieces && negb (Nat.eqb (length pieces) 0).
Proof.
  destruct pieces as [|g rest]; [reflexivity|].
  unfold accepts, goodSegment. simpl.
  destruct (String.eqb g ""), (allInClass g), (forallb _ rest); reflexivity.
Qed.

(** The automaton accepts exactly the texts whose pieces are right. *)
Lemma matchFrom_accepts (s : string) (pos : regexp.Position) :
  regexp.matchFrom pos s = accepts pos (strings.Split s "/").
Proof.
  revert pos. induction s as [|c s IH]; intros pos; [destruct pos; reflexivity|].
  pose proof (FileNames.Split_not_nil s "/") as Hne.
  simpl strings.Split.
  destruct (regexp.inClass c) eqn:Ec.
  - rewrite (inClass_not_slash _ Ec).
    destruct (strings.Split s "/") as [|g rest] eqn:Es; [contradiction|].
    destruct pos; simpl regexp.matchFrom; rewrite Ec, IH; cbn [accepts andb];
      rewrite allInClass_cons, Ec; cbn [andb String.eqb negb];
      rewrite ?andb_true_r; reflexivity.
  - destruct (Ascii.eqb_spec c "/") as [->|Hc].
    + destruct pos; simpl regexp.matchFrom; cbn [andb];
        rewrite ?IH, ?accepts_AfterSlash; unfold accepts;
        destruct (strings.Split s "/") as [|g rest]; try contradiction;
        cbn [length Nat.eqb negb String.eqb]; rewrite ?andb_true_r, ?andb_false_r;
        reflexivity.
    + destruct (strings.Split s "/") as [|g rest] eqn:Es; [contradiction|].
      assert (Hcls : allInClass (String c g) = false)
        by (rewrite allInClass_cons, Ec; reflexivity).
      assert (Hslash : Ascii.eqb c "/" = false) by (apply Ascii.eqb_neq, Hc).
      destruct pos; simpl regexp.matchFrom; rewrite Ec, ?Hslash; cbn [andb accepts];
        rewrite Hcls; reflexivity.
Qed.

Lemma goodSegment_segment (g : string) : goodSegment g = true <-> segment g.
Proof.
  unfold goodSegment, segment. rewrite andb_true_iff, negb_true_iff.
  split; intros [Hg Hc]; (split; [|exact Hc]).
  - intros ->. discriminate.
  - destruct (String.eqb_spec g ""); [contradiction | reflexivity].
Qed.

Lemma forallb_goodSegment (pieces : list string) :
  forallb goodSegment pieces = true <-> Forall segment pieces.
Proof.
  induction pieces as [|g rest IH]; simpl.
  - split; [constructor | reflexivity].
  - rewrite andb_true_iff, Forall_cons, IH, goodSegment_segment. reflexivity.
Qed.

Lemma MatchString_validPath (s : string) : regexp.MatchString s = true <-> validPath s.
Proof.
  unfold regexp.MatchString, validPath. rewrite matchFrom_accepts.
  destruct (strings.Split s "/") as [|g rest]; simpl.
  - split; [discriminate | intros [H _]; lia].
  - rewrite Forall_cons, <- forallb_goodSegment, <- goodSegment_segment.
    unfold goodSegment at 2.
    rewrite !andb_true_iff, !negb_true_iff, Nat.eqb_neq.
    split.
    + intros [[Hc Hrest] [Hg Hlen]]. repeat split; try assumption. lia.
    + intros [Hlen [[Hg Hc] Hrest]]. repeat split; try assumption. lia.
Qed.

(** X4.  A repository argument that does not start with [http] is accepted
    exactly when it is two or more segments of letters, digits, dots,
    underscores and hyphens with single slashes between them; it is then
    the project path itself, with no base URL.  Anything else (one
    segment, an empty segment, a leading or trailing slash, another
    character) is the format error, which quotes the argument. *)
Theorem ParseRepoPath_format (url_Parse : string -> error + url.URL) (repoPath : string) :
  strings.HasPrefix repoPath "http" = false ->
  (validPath repoPath ->
   ParseRepoPath url_Parse repoPath = inr (EmptyString, repoPath)) /\
  (~ validPath repoPath ->
   ParseRepoPath url_Parse repoPath
   = inl (New ("invalid repository path format: " +:+ repoPath))).
Proof.
  intros Hhttp. unfold ParseRepoPath. rewrite Hhttp.
  pose proof (MatchString_validPath repoPath) as Hm.
  destruct (regexp.MatchString repoPath); simpl; split; intros H.
  - reflexivity.
  - exfalso. apply H, Hm. reflexivity.
  - apply Hm in H. discriminate.
  - reflexivity.
Qed.

Lemma ParseRepoPath_format_witness :
  ParseRepoPath (fun _ => inl (New "unused")) "group/subgroup/repo"
  = inr (EmptyString, "group/subgroup/repo") /\
  ParseRepoPath (fun _ => inl (New "unused")) "group//repo"
  = inl (New "invalid repository path format: group//repo").
Proof.
  split.
  - apply (ParseRepoPath_format (fun _ => inl (New "unused")) "group/subgroup/repo");
      [reflexivity|].
    apply MatchString_validPath. reflexivity.
  - apply (ParseRepoPath_format (fun _ => inl (New "unused")) "group//repo");
      [reflexivity|].
    intros H%MatchString_validPath. discriminate H.
Defined.

Lemma length_append (a b : string) :
  String.length (a +:+ b) = (String.length a + String.length b)%nat.
Proof. induction a as [|c a IH]; simpl; [reflexivity|]. rewrite IH. reflexivity. Qed.

(** [TrimSuffix] takes off a suffix that is there. *)
Lemma TrimSuffix_app (p suffix : string) : strings.TrimSuffix (p +:+ suffix) suffix = p.
Proof.
  induction p as [|c p IH].
  - simpl. destruct suffix as [|x suffix]; [reflexivity|].
    cbn [strings.TrimSuffix]. rewrite String.eqb_refl. reflexivity.
  - simpl String.append. cbn [strings.TrimSuffix].
    destruct (String.eqb_spec (String c (p +:+ suffix)) suffix) as [Heq|_].
    + apply (f_equal String.length) in Heq. simpl in Heq.
      rewrite length_append in Heq. lia.
    + rewrite IH. reflexivity.
Qed.

(** X5.  An argument that starts with [http] is not checked against the
    path format: it is what [url.Parse] makes of it that counts.  When the
    parsed path is a slash, a project path and [.git], the result is the
    base URL made of scheme and host, and the project path without the
    slash in front and without [.git]; no host, scheme or character is
    rejected here. *)
Theorem ParseRepoPath_URL (url_Parse : string -> error + url.URL) (repoPath : string)
    (u : url.URL) (projectPath : string) :
  strings.HasPrefix repoPath "http" = true ->
  url_Parse repoPath = inr u ->
  url.Path u = String "/" (projectPath +:+ ".git") ->
  ParseRepoPath url_Parse repoPath
  = inr (url.Scheme u +:+ "://" +:+ url.Host u, projectPath).
Proof.
  intros Hhttp Hparse Hpath. unfold ParseRepoPath. rewrite Hhttp, Hparse, Hpath.
  cbv zeta.
  assert (Hslash : forall x, strings.TrimPrefix (String "/" x) "/" = x)
    by (intros x; destruct x; reflexivity).
  rewrite Hslash, TrimSuffix_app. reflexivity.
Qed.

Lemma ParseRepoPath_URL_witness :
  ParseRepoPath (fun _ => inr (url.mkURL "https" "gitlab.example.com" "/group/sub/repo.git"))
    "https://gitlab.example.com/group/sub/repo.git"
  = inr ("https://gitlab.example.com", "group/sub/repo").
Proof.
  exact (ParseRepoPath_URL
           (fun _ => inr (url.mkURL "https" "gitlab.example.com" "/group/sub/repo.git"))
           "https://gitlab.example.com/group/sub/repo.git"
           (url.mkURL "https" "gitlab.example.com" "/group/sub/repo.git")
           "group/sub/repo" eq_refl eq_refl eq_refl).
Defined.

(** The cases of the repository's own test that do not go through
    [url.Parse]. *)
Example TestParseRepoPath (url_Parse : string -> error + url.URL) :
  ParseRepoPath url_Parse "group/repo" = inr (EmptyString, "group/repo") /\
  ParseRepoPath url_Parse "group/subgroup/repo" = inr (EmptyString, "group/subgroup/repo") /\
  ParseRepoPath url_Parse "invalid" = inl (New "invalid repository path format: invalid") /\
  ParseRepoPath url_Parse "" = inl (New "invalid repository path format: ").
Proof. repeat split. Qed.

End RepoPaths.

(* ===================================================================== *)
(** * Theorems: the pace of a fetch *)
(* ===================================================================== *)

Module Steps.

Import Go gitlab run observe.

Section Pace.

Context {PS : Type}.
Implicit Types (c : Client PS) (w : World PS) (processor : MergeRequestProcessor PS).

Lemma requestsMade_app (l1 l2 : list Event) :
  requestsMade (l1 ++ l2) = requestsMade l1 ++ requestsMade l2.
Proof. apply flat_map_app. Qed.

Lemma requestsMade_sleeps (s : list Event) : Forall isSleep s -> requestsMade s = [].
Proof. intros Hs. apply Fetcher.flat_map_sleeps; [exact Hs | reflexivity]. Qed.

(** A request made right after [rateLimitWait] is in pace. *)
Lemma paced_request (t0 : Z) c w l c1 w1 s1 (ps : PS) (e : Event) :
  paced t0 c w l ->
  rateLimitWait c w = (c1, w1, s1) ->
  requestsMade [e] = [e] ->
  paced t0 c1 {| clock := clock w1; drift := drift w1; ext := ps |} (l ++ s1 ++ [e]).
Proof.
  intros (Hint & Hmin & Ht0 & Hlast) Hwait He.
  pose proof (Fetcher.rateLimitWait_sleeps c w) as Hs1.
  pose proof (Governor.clock_rateLimitWait c w) as Hclock.
  unfold log, world in Hs1, Hclock. rewrite Hwait in Hs1, Hclock. cbn [fst snd] in Hs1, Hclock.
  rewrite Governor.rateLimitWait_unfold in Hwait. injection Hwait as <- <- _.
  unfold paced. cbn [minInterval set_lastRequestTime lastRequestTime clock].
  rewrite !requestsMade_app, (requestsMade_sleeps _ Hs1), He, length_app.
  cbn [app length clock] in *. unfold time.Millisecond in *.
  assert (Hpace' : t0 + (Z.of_nat (length (requestsMade l) + 1) - 1) * (100 * 1000000)
                   <= secondReading c w).
  { destruct (lastRequestTime c) as [last|] eqn:El.
    - destruct Hlast as [Hle Hpace].
      pose proof (Governor.rateLimitWait_gap c w last Hint El Hle). lia.
    - rewrite Hlast. cbn [length]. lia. }
  split; [exact Hint|]. repeat split; try assumption; lia.
Qed.

Lemma paced_check (t0 : Z) c w l resp :
  paced t0 c w l ->
  paced t0 (value (checkRateLimitHeaders c resp) w) (world (checkRateLimitHeaders c resp) w)
    (l ++ log (checkRateLimitHeaders c resp) w).
Proof.
  intros (Hint & Hmin & Ht0 & Hlast).
  pose proof (Fetcher.checkRateLimitHeaders_sleeps c w resp) as Hs.
  pose proof (Governor.clock_checkRateLimitHeaders c w resp) as Hclock.
  unfold paced.
  rewrite requestsMade_app, (requestsMade_sleeps _ Hs), app_nil_r,
    Governor.lastRequestTime_checkRateLimitHeaders.
  assert (Hnew : in_int64 (minInterval (value (checkRateLimitHeaders c resp) w)) /\
                 100 * time.Millisecond
                 <= minInterval (value (checkRateLimitHeaders c resp) w)).
  { destruct (Governor.minInterval_checkRateLimitHeaders c w resp) as [-> | ->];
      [split; assumption|].
    unfold in_int64, minInt64, maxInt64, time.Second, time.Millisecond. lia. }
  destruct Hnew as [Hint' Hmin'].
  split; [exact Hint'|]. split; [exact Hmin'|]. split; [lia|].
  destruct (lastRequestTime c) as [last|]; [|exact Hlast].
  destruct Hlast as [Hle Hpace]. split; [lia | exact Hpace].
Qed.

Lemma paced_sink (t0 : Z) processor c w l ref :
  paced t0 c w l ->
  paced t0 c (world (call_processor processor ref) w)
    (l ++ log (call_processor processor ref) w).
Proof.
  intros HR. unfold world, log, call_processor.
  destruct (processor ref (ext w)) as [res ps]. cbn [fst snd].
  unfold paced in *. rewrite requestsMade_app. cbn [requestsMade flat_map clock].
  rewrite !app_nil_r. exact HR.
Qed.

Lemma paced_FetchMergeRequestRefs (t0 : Z) fuel c projectPath processor w l :
  paced t0 c w l ->
  paced t0 (snd (value (FetchMergeRequestRefs fuel c projectPath processor) w))
    (world (FetchMergeRequestRefs fuel c projectPath processor) w)
    (l ++ log (FetchMergeRequestRefs fuel c projectPath processor) w).
Proof.
  apply Stepwise.FetchMergeRequestRefs_keeps.
  - intros c0 w0 l0 opts HR c1 w1 s1 Hwait res w2 e. unfold call_ListProjectMergeRequests.
    destruct (ListProjectMergeRequests _ _ _ _) as [res' ps]. intros [= <- <- <-].
    eapply paced_request; [exact HR | exact Hwait | reflexivity].
  - intros c0 w0 l0 mr HR c1 w1 s1 Hwait res w2 e. unfold call_GetMergeRequest.
    destruct (GetMergeRequest _ _ _ _) as [res' ps]. intros [= <- <- <-].
    eapply paced_request; [exact HR | exact Hwait | reflexivity].
  - intros. apply paced_check. assumption.
  - intros. apply paced_sink. assumption.
Qed.

(** X6.  At most ten requests a second: a fetch by a client that has made
    no request yet and whose [minInterval] is 100ms or more (as that of
    [NewClient] is) takes at least [(n-1) * 100ms] for its [n] listing and
    detail requests, whatever the platform answers, however the clock
    drifts and however the run ends; and [minInterval] is still 100ms or
    more afterwards. *)
Theorem FetchMergeRequestRefs_rate fuel c projectPath processor w :
  lastRequestTime c = None ->
  in_int64 (minInterval c) ->
  100 * time.Millisecond <= minInterval c ->
  let run := FetchMergeRequestRefs fuel c projectPath processor in
  let n := Z.of_nat (length (requestsMade (log run w))) in
  clock w + (n - 1) * (100 * time.Millisecond) <= clock (world run w) /\
  100 * time.Millisecond <= minInterval (snd (value run w)).
Proof.
  intros Hnone Hint Hmin. cbv zeta.
  assert (Hstart : paced (clock w) c w []).
  { unfold paced. rewrite Hnone. split; [exact Hint|]. split; [exact Hmin|].
    split; [lia | reflexivity]. }
  apply (paced_FetchMergeRequestRefs _ fuel c projectPath processor) in Hstart.
  cbn [app] in Hstart. destruct Hstart as (_ & Hmin' & Ht0 & Hlast).
  split; [|exact Hmin'].
  unfold time.Millisecond in *.
  clear Hnone. revert Hlast. destruct (lastRequestTime _) as [last|].
  - intros [Hle Hpace]. lia.
  - intros ->. cbn [length]. lia.
Qed.

End Pace.

Lemma FetchMergeRequestRefs_rate_witness :
  let run := FetchMergeRequestRefs 5 (freshClient (serve smallProject)) "group/repo" storeRef in
  length (requestsMade (log run emptyStore)) = 5%nat /\
  400 * time.Millisecond <= clock (world run emptyStore).
Proof.
  cbv zeta. split; [vm_compute; reflexivity|].
  pose proof (FetchMergeRequestRefs_rate 5 (freshClient (serve smallProject)) "group/repo"
                storeRef emptyStore eq_refl) as H.
  cbv zeta in H.
  assert (Hn : length (requestsMade
                 (log (FetchMergeRequestRefs 5 (freshClient (serve smallProject))
                         "group/repo" storeRef) emptyStore)) = 5%nat)
    by (vm_compute; reflexivity).
  rewrite Hn in H.
  destruct H as [H _].
  - unfold in_int64, minInt64, maxInt64, freshClient, time.Millisecond. simpl. lia.
  - unfold freshClient, time.Millisecond. simpl. lia.
  - change (clock emptyStore) with 0 in H. unfold time.Millisecond in *. lia.
Defined.

End Steps.

(* ===================================================================== *)
(** * Theorems: the fetch by repository *)
(* ===================================================================== *)

Module Repo.

Import Go gitlab run gitlabrepo observe.

#[local] Arguments String.append _ _ : simpl nomatch.

Section Proofs.

Context {PS : Type}.
Variable url_Parse : string -> error + url.URL.
Implicit Types (c : Client PS) (w : World PS) (processor : MergeRequestProcessor PS).

(** With a repository argument that parses, the fetch by repository is
    the fetch of the project path, with the error reworded. *)
Lemma FromRepo_parsed fuel c repoPath baseURLOverride processor w baseURL projectPath :
  ParseRepoPath url_Parse repoPath = inr (baseURL, projectPath) ->
  let fetch := FetchMergeRequestRefs fuel c projectPath processor in
  FetchMergeRequestRefsFromRepo url_Parse fuel c repoPath baseURLOverride processor w
  = ((repoOutcome projectPath (fst (value fetch w)), snd (value fetch w)),
     world fetch w, log fetch w).
Proof.
  intros Hparse. cbv zeta.
  unfold FetchMergeRequestRefsFromRepo, value, world, log, bind. rewrite Hparse.
  destruct (FetchMergeRequestRefs fuel c projectPath processor w) as [[[out c'] w'] l].
  destruct out as [[err|]|]; cbn [fst snd ret repoOutcome]; rewrite app_nil_r; reflexivity.
Qed.

Lemma FromRepo_unparsed fuel c repoPath baseURLOverride processor w err :
  ParseRepoPath url_Parse repoPath = inl err ->
  FetchMergeRequestRefsFromRepo url_Parse fuel c repoPath baseURLOverride processor w
  = ((RepoReturned EmptyString (Some (Errorf_w "failed to parse repository path: " err)), c),
     w, []).
Proof.
  intros Hparse. unfold FetchMergeRequestRefsFromRepo. rewrite Hparse. reflexivity.
Qed.

(** The error of a run that ended at a failed step. *)
Lemma failed_step_error fuel c projectPath processor w l1 e err :
  log (FetchMergeRequestRefs fuel c projectPath processor) w = l1 ++ [e] ->
  abortError e = Some err ->
  fst (value (FetchMergeRequestRefs fuel c projectPath processor) w) = Returned (Some err).
Proof.
  intros Hlog He.
  pose proof (Fetcher.PagesLog_FailFast _ _ _ _ _
                (Fetcher.FetchMergeRequestRefs_log fuel c projectPath processor w)) as Hff.
  rewrite Hlog in Hff.
  destruct (fst (value (FetchMergeRequestRefs fuel c projectPath processor) w))
    as [[err'|]|]; cbn [outcomeError FailFast] in Hff.
  - destruct Hff as (l1' & e' & Heq & _ & He').
    apply app_inj_tail in Heq as [_ ->]. congruence.
  - apply Forall_app in Hff as [_ Hlast]. inversion Hlast as [|? ? Hs _]; subst.
    unfold succeeded in Hs. congruence.
  - apply Forall_app in Hff as [_ Hlast]. inversion Hlast as [|? ? Hs _]; subst.
    unfold succeeded in Hs. congruence.
Qed.

(** The text of the error of a step that failed at a merge request holds
    the decimal number of that merge request. *)
Lemma abortError_names_item (e : Event) (iid : Z) :
  failedItem e = Some iid ->
  exists err before after,
    abortError e = Some err /\ Error err = before +:+ Itoa iid +:+ after.
Proof.
  destruct e as [d | path opts res | path mr [cause|res] | ref [cause|]];
    try discriminate; intros [= <-]; cbn [abortError].
  - exists (Errorf_w ("failed to fetch merge request "
                      +:+ Itoa (gitlabapi.IID mr) +:+ ": ") cause),
      "failed to fetch merge request ", (": " +:+ Error cause).
    split; [reflexivity|]. cbn [Error Errorf_w]. rewrite !Codec.append_assoc. reflexivity.
  - exists (Errorf_w ("failed to process merge request "
                      +:+ Itoa (IID ref) +:+ ": ") cause),
      "failed to process merge request ", (": " +:+ Error cause).
    split; [reflexivity|]. cbn [Error Errorf_w]. rewrite !Codec.append_assoc. reflexivity.
Qed.

(** X7.  When the run stops at merge request number 404 (or 1404, 4040,
    ...), be it that its detail request or the sink failed, for whatever
    reason, [FetchMergeRequestRefsFromRepo] reports that the repository
    was not found: [wrapFetchError] looks for the digits 404 in the whole
    message, which includes the number of the merge request, and the cause
    is not kept. *)
Theorem failure_at_item_404_reads_as_not_found
    fuel c repoPath baseURLOverride processor w baseURL projectPath l1 e iid :
  ParseRepoPath url_Parse repoPath = inr (baseURL, projectPath) ->
  log (FetchMergeRequestRefsFromRepo url_Parse fuel c repoPath baseURLOverride processor) w
  = l1 ++ [e] ->
  failedItem e = Some iid ->
  strings.Contains (Itoa iid) "404" = true ->
  let returned :=
    New ("repository not found: " +:+ projectPath
         +:+ ". Please check the repository path and your access permissions") in
  fst (value (FetchMergeRequestRefsFromRepo url_Parse fuel c repoPath baseURLOverride
                processor) w)
  = RepoReturned EmptyString (Some returned) /\
  Unwrap returned = None.
Proof.
  intros Hparse Hlog Hitem H404. cbv zeta. split; [|reflexivity].
  unfold value, log in *.
  rewrite (FromRepo_parsed _ _ _ _ _ _ _ _ Hparse) in *. cbn [fst snd] in *.
  destruct (abortError_names_item e iid Hitem) as (err & before & after & He & Hmsg).
  rewrite (failed_step_error _ _ _ _ _ _ _ _ Hlog He). cbn [repoOutcome].
  unfold wrapFetchError. rewrite Hmsg.
  rewrite (FileNames.Contains_app_r before _ _
             (FileNames.Contains_app_l _ _ after H404)).
  reflexivity.
Qed.

Lemma requestPaths_app (l1 l2 : list Event) :
  requestPaths (l1 ++ l2) = requestPaths l1 ++ requestPaths l2.
Proof. apply flat_map_app. Qed.

Lemma requestPaths_sleeps (s : list Event) : Forall isSleep s -> requestPaths s = [].
Proof. intros Hs. apply Fetcher.flat_map_sleeps; [exact Hs | reflexivity]. Qed.

(** Every request of a fetch is made for the project path given, and
    through the client the run started with. *)
Lemma FetchMergeRequestRefs_requests fuel c projectPath processor w :
  Forall (eq projectPath)
    (requestPaths (log (FetchMergeRequestRefs fuel c projectPath processor) w)) /\
  client (snd (value (FetchMergeRequestRefs fuel c projectPath processor) w)) = client c.
Proof.
  apply (Stepwise.FetchMergeRequestRefs_keeps
           (fun c' _ l => Forall (eq projectPath) (requestPaths l) /\ client c' = client c)
           processor projectPath) with (l := []).
  - intros c0 w0 l0 opts [Hl Hc] c1 w1 s1 Hwait res w2 e.
    pose proof (Fetcher.rateLimitWait_sleeps c0 w0) as Hs1.
    unfold log in Hs1. rewrite Hwait in Hs1. cbn [snd] in Hs1.
    rewrite Governor.rateLimitWait_unfold in Hwait. injection Hwait as <- _ _.
    unfold call_ListProjectMergeRequests.
    destruct (ListProjectMergeRequests _ _ _ _) as [res' ps]. intros [= _ _ <-].
    rewrite !requestPaths_app, (requestPaths_sleeps _ Hs1). cbn [app requestPaths flat_map].
    split; [|exact Hc]. apply Forall_app. split; [exact Hl | repeat constructor].
  - intros c0 w0 l0 mr [Hl Hc] c1 w1 s1 Hwait res w2 e.
    pose proof (Fetcher.rateLimitWait_sleeps c0 w0) as Hs1.
    unfold log in Hs1. rewrite Hwait in Hs1. cbn [snd] in Hs1.
    rewrite Governor.rateLimitWait_unfold in Hwait. injection Hwait as <- _ _.
    unfold call_GetMergeRequest.
    destruct (GetMergeRequest _ _ _ _) as [res' ps]. intros [= _ _ <-].
    rewrite !requestPaths_app, (requestPaths_sleeps _ Hs1). cbn [app requestPaths flat_map].
    split; [|exact Hc]. apply Forall_app. split; [exact Hl | repeat constructor].
  - intros c0 w0 l0 resp [Hl Hc].
    rewrite requestPaths_app,
      (requestPaths_sleeps _ (Fetcher.checkRateLimitHeaders_sleeps c0 w0 resp)), app_nil_r.
    split; [exact Hl|]. rewrite <- Hc.
    destruct resp as [resp|]; [|reflexivity].
    rewrite Governor.checkRateLimitHeaders_client.
    destruct (Atoi _) as [n|]; [|reflexivity]. destruct (n <=? 10); reflexivity.
  - intros c0 w0 l0 ref [Hl Hc]. unfold log, call_processor.
    destruct (processor ref (ext w0)) as [res ps]. cbn [snd].
    rewrite requestPaths_app. cbn [requestPaths flat_map]. rewrite !app_nil_r. auto.
  - split; [constructor | reflexivity].
Qed.

(** X8.  Which project a run asks for.  When the repository argument does
    not parse, no request is made at all and nothing changes; when it
    does, every listing and detail request is made for the project path
    parsed, through the client the run started with: a base URL in the
    argument and the override are not used. *)
Theorem FetchMergeRequestRefsFromRepo_requests
    fuel c repoPath baseURLOverride processor w :
  let run := FetchMergeRequestRefsFromRepo url_Parse fuel c repoPath baseURLOverride
               processor in
  match ParseRepoPath url_Parse repoPath with
  | inl err =>
    run w = ((RepoReturned EmptyString
                (Some (Errorf_w "failed to parse repository path: " err)), c), w, [])
  | inr (baseURL, projectPath) =>
    Forall (eq projectPath) (requestPaths (log run w)) /\
    client (snd (value run w)) = client c /\
    forall otherOverride,
      FetchMergeRequestRefsFromRepo url_Parse fuel c repoPath otherOverride processor w
      = run w
  end.
Proof.
  cbv zeta. destruct (ParseRepoPath url_Parse repoPath) as [err | [baseURL projectPath]] eqn:Hp.
  - apply FromRepo_unparsed, Hp.
  - unfold value, log.
    rewrite (FromRepo_parsed _ _ _ _ _ _ _ _ Hp). cbn [fst snd].
    destruct (FetchMergeRequestRefs_requests fuel c projectPath processor w) as [Hl Hc].
    repeat split; try assumption.
    intros other. apply (FromRepo_parsed _ _ _ _ _ _ _ _ Hp).
Qed.

End Proofs.

Lemma failure_at_item_404_reads_as_not_found_witness :
  let project :=
    {| book := [[(gitlabapi.mkBasic 9404 404, "abc")]];
       brokenPage := fun _ => false; brokenItem := Z.eqb 404 |} in
  fst (value (FetchMergeRequestRefsFromRepo (fun _ => inl (New "unused")) 3
                (freshClient (serve project)) "group/repo" "" storeRef) emptyStore)
  = RepoReturned EmptyString
      (Some (New "repository not found: group/repo. Please check the repository path and your access permissions")).
Proof.
  cbv zeta.
  refine (proj1 (failure_at_item_404_reads_as_not_found (fun _ => inl (New "unused")) 3
            _ "group/repo" "" storeRef emptyStore "" "group/repo"
            [EvList "group/repo"
               {| gitlabapi.Page := 0; gitlabapi.PerPage := 100;
                  gitlabapi.State := Some "all" |}
               (inr ([gitlabapi.mkBasic 9404 404], gitlabapi.mkResp None 0));
             EvSleep 100000000]
            (EvGet "group/repo" (gitlabapi.mkBasic 9404 404)
               (inl (New "connection reset by peer")))
            404 _ _ _ _)); vm_compute; reflexivity.
Defined.

End Repo.

(* ===================================================================== *)
(** * Theorems: the stream writer *)
(* ===================================================================== *)

Module Stream.

Import Go encodingcsv codec observe.

#[local] Arguments String.append _ _ : simpl nomatch.

Lemma concatLines_app (a b : list string) :
  concatLines (a ++ b) = concatLines a +:+ concatLines b.
Proof.
  induction a as [|line a IH]; [reflexivity|].
  simpl. rewrite IH, Codec.append_assoc. reflexivity.
Qed.

(** Concatenations, associated to the right. *)
Ltac flatten :=
  repeat (progress (rewrite ?Codec.append_assoc, ?Codec.append_nil_r; simpl)).

(** *** Files *)

Lemma slice_from_all (s : string) : sys.slice_from (String.length s) s = EmptyString.
Proof. induction s as [|c s IH]; [reflexivity | exact IH]. Qed.

Lemma slice_to_from (n : nat) (s : string) : sys.slice_to n s +:+ sys.slice_from n s = s.
Proof.
  revert n. induction s as [|c s IH]; intros [|n]; try reflexivity.
  simpl. rewrite IH. reflexivity.
Qed.

Lemma holding_holding (fs : sys.FileSystem) (name a b : string) :
  holding (holding fs name a) name b = holding fs name b.
Proof. unfold holding, sys.with_files. simpl. rewrite insert_insert_eq. reflexivity. Qed.

Lemma holding_lookup (fs : sys.FileSystem) (name content : string) :
  sys.files (holding fs name content) !! name = Some content.
Proof. apply lookup_insert_eq. Qed.

Lemma Create_writable (fs : sys.FileSystem) (name : string) :
  writable fs name -> sys.Create name fs = inr (holding fs name "").
Proof.
  intros (Hname & Hcreate & _). unfold sys.Create. rewrite Hcreate.
  destruct (String.eqb_spec name "") as [|_]; [contradiction | reflexivity].
Qed.

Lemma Create_refused (fs : sys.FileSystem) (name : string) (err : error) :
  name <> "" -> sys.createError fs name = Some err -> sys.Create name fs = inl err.
Proof.
  intros Hname Hcreate. unfold sys.Create. rewrite Hcreate.
  destruct (String.eqb_spec name "") as [|_]; [contradiction | reflexivity].
Qed.

(** *** The two rounds of [WriteString] *)

Lemma Write_all_or_error (name data : string) (fs : sys.FileSystem) :
  snd (fst (sys.Write name data fs)) = None ->
  fst (fst (sys.Write name data fs)) = String.length data.
Proof.
  unfold sys.Write. destruct (sys.writeError _ _ _ _) as [[n e]|]; [discriminate|].
  reflexivity.
Qed.

Lemma Flush_empties (b : bufio.Writer) (fs : sys.FileSystem) :
  bufio.err (snd (fst (bufio.Flush b fs))) = None ->
  bufio.err b = None /\ bufio.Buffered (snd (fst (bufio.Flush b fs))) = O.
Proof.
  unfold bufio.Flush. destruct (bufio.err b) as [e|] eqn:Eerr; [cbn; congruence|].
  destruct (bufio.Buffered b =? 0)%nat eqn:Eempty.
  - cbn. intros _. split; [reflexivity|]. apply Nat.eqb_eq, Eempty.
  - destruct (sys.Write _ _ _) as [[n failed] fs'].
    destruct failed as [e|]; [cbn; discriminate|].
    destruct (n <? bufio.Buffered b)%nat; [cbn; discriminate|]. cbn. auto.
Qed.

(** When the two rounds are over, the loop of [WriteString] is: there is
    an error, or what is left of the text fits the buffer. *)
Lemma writeStringRounds_suffice (b : bufio.Writer) (s : string) (fs : sys.FileSystem) :
  let '(b', s', _) := bufio.writeStringRounds 2 b s fs in
  bufio.err b' <> None \/ (String.length s' <= bufio.Available b')%nat.
Proof.
  assert (Hdirect : forall b s fs,
            bufio.err b = None ->
            let '(n, failed, fs') := sys.Write (bufio.wr b) s fs in
            failed <> None \/
            (String.length (sys.slice_from n s)
             <= bufio.Available {| bufio.buf := bufio.buf b; bufio.err := failed;
                                   bufio.wr := bufio.wr b |})%nat).
  { intros b0 s0 fs0 _. pose proof (Write_all_or_error (bufio.wr b0) s0 fs0) as Hall.
    destruct (sys.Write (bufio.wr b0) s0 fs0) as [[n failed] fs']. cbn [fst snd] in Hall.
    destruct failed as [e|]; [left; discriminate|].
    right. rewrite (Hall eq_refl), slice_from_all. apply Nat.le_0_l. }
  cbn [bufio.writeStringRounds].
  destruct (bufio.err b) as [e|] eqn:Eerr; [left; congruence|].
  destruct (bufio.Available b <? String.length s)%nat eqn:Efits;
    [|right; apply Nat.ltb_ge, Efits].
  destruct (bufio.Buffered b =? 0)%nat.
  - specialize (Hdirect b s fs Eerr).
    destruct (sys.Write (bufio.wr b) s fs) as [[n failed] fs'].
    destruct failed as [e|]; cbn [bufio.writeStringRounds bufio.err];
      [left; discriminate|].
    destruct Hdirect as [H|H]; [contradiction|]. clear Efits.
    destruct (_ <? _)%nat eqn:E; [|right; exact H].
    apply Nat.ltb_lt in E. exfalso.
    exact (Nat.lt_irrefl _ (Nat.lt_le_trans _ _ _ E H)).
  - set (n := Nat.min _ _).
    pose proof (Flush_empties {| bufio.buf := bufio.buf b +:+ sys.slice_to n s;
                                 bufio.err := None; bufio.wr := bufio.wr b |} fs) as Hflush.
    destruct (bufio.Flush _ fs) as [[flushed b1] fs1]. cbn [fst snd] in Hflush.
    destruct (bufio.err b1) as [e|] eqn:Eerr1; [left; congruence|].
    destruct (Hflush eq_refl) as [_ Hempty].
    destruct (bufio.Available b1 <? String.length (sys.slice_from n s))%nat eqn:Efits1;
      [|right; apply Nat.ltb_ge, Efits1].
    rewrite Hempty. cbn [Nat.eqb].
    specialize (Hdirect b1 (sys.slice_from n s) fs1 Eerr1).
    destruct (sys.Write (bufio.wr b1) (sys.slice_from n s) fs1) as [[n1 failed] fs2].
    cbn [bufio.writeStringRounds bufio.err].
    destruct Hdirect as [H|H]; [left; exact H | right; exact H].
Qed.

Section Writing.

(** A file the system takes every write to. *)
Variable fs : sys.FileSystem.
Variable name : string.
Hypothesis takes : forall content data, sys.writeError fs name content data = None.

Lemma Write_taken (content data : string) :
  sys.Write name data (holding fs name content)
  = (String.length data, None, holding fs name (content +:+ data)).
Proof.
  unfold sys.Write. rewrite holding_lookup. cbn [default].
  change (sys.writeError (holding fs name content)) with (sys.writeError fs).
  rewrite takes. unfold holding, sys.with_files.
  cbn [sys.files sys.createError sys.writeError sys.closeError id].
  rewrite insert_insert_eq. reflexivity.
Qed.

(** *** The buffered writer *)

Lemma Flush_taken (content pending : string) :
  bufio.Flush (buffering name pending) (holding fs name content)
  = (None, buffering name "", holding fs name (content +:+ pending)).
Proof.
  unfold bufio.Flush, bufio.Buffered, buffering. cbn [bufio.err bufio.buf bufio.wr].
  destruct pending as [|c pending].
  - simpl. rewrite Codec.append_nil_r. reflexivity.
  - cbn [String.length Nat.eqb]. rewrite Write_taken.
    rewrite Nat.ltb_irrefl. reflexivity.
Qed.

Lemma passed_now (content pending total : string) :
  content +:+ pending = total ->
  passed fs name total (None, buffering name pending, holding fs name content).
Proof. intros H. exists content, pending. auto. Qed.

Lemma andThen_passed (total total' : string) (r : bufio.Result)
    (k : bufio.Writer -> sys.FileSystem -> bufio.Result) :
  passed fs name total r ->
  (forall content pending,
     content +:+ pending = total ->
     passed fs name total' (k (buffering name pending) (holding fs name content))) ->
  passed fs name total' (bufio.andThen r k).
Proof.
  intros (content & pending & -> & Htotal) Hk. cbn [bufio.andThen]. apply Hk, Htotal.
Qed.

Lemma WriteByte_taken (content pending : string) (c : ascii) :
  passed fs name (content +:+ pending +:+ String c "")
    (bufio.WriteByte (buffering name pending) c (holding fs name content)).
Proof.
  unfold bufio.WriteByte. cbn [bufio.err buffering].
  destruct (bufio.Available _ <=? 0)%nat.
  - rewrite Flush_taken. unfold buffering. cbn [bufio.buf bufio.err bufio.wr].
    apply passed_now. simpl. rewrite Codec.append_assoc. reflexivity.
  - cbn [bufio.buf bufio.err bufio.wr]. apply passed_now. reflexivity.
Qed.

Lemma WriteString_taken (content pending s : string) :
  passed fs name (content +:+ pending +:+ s)
    (bufio.WriteString (buffering name pending) s (holding fs name content)).
Proof.
  unfold bufio.WriteString, buffering.
  cbn [bufio.writeStringRounds bufio.err bufio.buf bufio.wr].
  destruct (bufio.Available _ <? String.length s)%nat.
  - unfold bufio.Buffered at 1. cbn [bufio.buf].
    destruct pending as [|ch pending]; cbn [String.length Nat.eqb].
    + rewrite Write_taken, slice_from_all.
      cbn [bufio.writeStringRounds bufio.err bufio.buf bufio.wr String.length Nat.ltb Nat.leb].
      apply passed_now. simpl. rewrite Codec.append_nil_r. reflexivity.
    + set (n := Nat.min _ _).
      pose proof (Flush_taken content (String ch pending +:+ sys.slice_to n s)) as HF.
      unfold buffering in HF. rewrite HF. clear HF.
      cbn [bufio.writeStringRounds bufio.err bufio.buf bufio.wr].
      destruct (bufio.Available _ <? String.length (sys.slice_from n s))%nat.
      * unfold bufio.Buffered. cbn [bufio.buf String.length Nat.eqb].
        rewrite Write_taken, slice_from_all.
        cbn [bufio.err bufio.buf bufio.wr]. apply passed_now.
        flatten. rewrite slice_to_from. reflexivity.
      * cbn [bufio.err bufio.buf bufio.wr]. apply passed_now.
        flatten. rewrite slice_to_from. reflexivity.
  - cbn [bufio.err bufio.buf bufio.wr]. apply passed_now. reflexivity.
Qed.

(** *** The CSV writer *)

Lemma passed_total (total total' : string) (r : bufio.Result) :
  total = total' -> passed fs name total r -> passed fs name total' r.
Proof. intros <-. auto. Qed.

Lemma writeQuoted_taken (field : string) : forall piece content pending,
  passed fs name (content +:+ pending +:+ piece +:+ escapeQuotes field)
    (csvw.writeQuoted field piece (buffering name pending) (holding fs name content)).
Proof.
  induction field as [|c rest IH]; intros piece content pending.
  - cbn [csvw.writeQuoted escapeQuotes]. rewrite Codec.append_nil_r.
    destruct (String.eqb_spec piece "") as [->|_].
    + apply passed_now. rewrite Codec.append_nil_r. reflexivity.
    + apply WriteString_taken.
  - cbn [csvw.writeQuoted escapeQuotes]. unfold csvw.endsPiece.
    destruct (Ascii.eqb c quote) eqn:Eq; cbn [orb].
    + eapply andThen_passed; [apply WriteString_taken|].
      intros content1 pending1 H1.
      eapply andThen_passed; [apply WriteString_taken|].
      intros content2 pending2 H2.
      eapply passed_total; [|apply (IH "" content2 pending2)].
      rewrite <- (Codec.append_assoc content2), H2, <- (Codec.append_assoc content1), H1.
      flatten. reflexivity.
    + destruct (Ascii.eqb c CR || Ascii.eqb c LF).
      * eapply andThen_passed; [apply WriteString_taken|].
        intros content1 pending1 H1.
        eapply andThen_passed; [apply WriteByte_taken|].
        intros content2 pending2 H2.
        eapply passed_total; [|apply (IH "" content2 pending2)].
        rewrite <- (Codec.append_assoc content2), H2, <- (Codec.append_assoc content1), H1.
        flatten. reflexivity.
      * eapply passed_total; [|apply (IH (piece +:+ String c "") content pending)].
        flatten. reflexivity.
Qed.

Lemma writeField_taken (n : nat) (field content pending : string) :
  passed fs name
    (content +:+ pending +:+ (if (0 <? n)%nat then String comma "" else "")
     +:+ writeField field)
    (csvw.writeField n field (buffering name pending) (holding fs name content)).
Proof.
  unfold csvw.writeField.
  eapply andThen_passed with (total := content +:+ pending
                                        +:+ (if (0 <? n)%nat then String comma "" else "")).
  - destruct (0 <? n)%nat.
    + apply WriteByte_taken.
    + apply passed_now. rewrite Codec.append_nil_r. reflexivity.
  - intros content1 pending1 H1. unfold writeField.
    destruct (fieldNeedsQuotes field); cbn [negb].
    + eapply andThen_passed; [apply WriteByte_taken|].
      intros content2 pending2 H2.
      eapply andThen_passed; [apply (writeQuoted_taken field "")|].
      intros content3 pending3 H3.
      eapply passed_total; [|apply (WriteByte_taken content3 pending3 quote)].
      rewrite <- (Codec.append_assoc content3), H3, <- (Codec.append_assoc content2), H2,
        <- (Codec.append_assoc content1), H1.
      flatten. reflexivity.
    + eapply passed_total; [|apply (WriteString_taken content1 pending1 field)].
      rewrite <- (Codec.append_assoc content1), H1. flatten. reflexivity.
Qed.

(** A record of two fields, as package csv writes them. *)
Lemma Write_taken_two (a b content pending : string) :
  passed fs name
    (content +:+ pending +:+ writeField a +:+ String comma (writeField b)
     +:+ String LF "")
    (csvw.Write (buffering name pending) [a; b] (holding fs name content)).
Proof.
  unfold csvw.Write. cbn [csvw.writeFields].
  eapply andThen_passed with
    (total := content +:+ pending +:+ writeField a +:+ String comma (writeField b)).
  - eapply andThen_passed; [apply (writeField_taken 0)|].
    intros content1 pending1 H1.
    eapply andThen_passed; [apply (writeField_taken 1)|].
    intros content2 pending2 H2. apply passed_now.
    rewrite H2, <- (Codec.append_assoc content1), H1. flatten. reflexivity.
  - intros content1 pending1 H1.
    eapply passed_total; [|apply (WriteByte_taken content1 pending1 LF)].
    rewrite <- (Codec.append_assoc content1), H1. flatten. reflexivity.
Qed.

Lemma Write_taken_ref (ref : gitlab.MergeRequestRef) (content pending : string) :
  passed fs name (content +:+ pending +:+ concatLines [lineOf ref])
    (csvw.Write (buffering name pending)
       [Itoa (gitlab.IID ref); gitlab.HeadSHA ref] (holding fs name content)).
Proof.
  eapply passed_total;
    [|apply (Write_taken_two (Itoa (gitlab.IID ref)) (gitlab.HeadSHA ref) content pending)].
  rewrite Codec.writeField_Itoa. cbn [concatLines]. unfold lineOf. flatten. reflexivity.
Qed.

(** *** Package csv *)

Lemma writeRefs_taken (refs : list gitlab.MergeRequestRef) : forall content pending,
  passed fs name (content +:+ pending +:+ concatLines (map lineOf refs))
    (csvsys.writeRefs (buffering name pending) refs (holding fs name content)).
Proof.
  induction refs as [|ref refs IH]; intros content pending.
  - simpl. apply passed_now. rewrite Codec.append_nil_r. reflexivity.
  - cbn [csvsys.writeRefs].
    destruct (Write_taken_ref ref content pending) as (content1 & pending1 & -> & H1).
    eapply passed_total; [|apply (IH content1 pending1)].
    rewrite <- (Codec.append_assoc content1), H1.
    change (map lineOf (ref :: refs)) with ([lineOf ref] ++ map lineOf refs).
    rewrite concatLines_app. flatten. reflexivity.
Qed.

(** One [WriteRef]: the line is in the file when it returns, and the
    buffer is empty again. *)
Lemma WriteRef_taken (ref : gitlab.MergeRequestRef) (content : string) :
  csvsys.WriteRef {| csvsys.file := name; csvsys.writer := csvw.NewWriter name |} ref
    (holding fs name content)
  = ({| csvsys.file := name; csvsys.writer := csvw.NewWriter name |}, None,
     holding fs name (content +:+ concatLines [lineOf ref])).
Proof.
  unfold csvsys.WriteRef. cbn [csvsys.writer csvsys.file].
  change (csvw.NewWriter name) with (buffering name "").
  destruct (Write_taken_ref ref content "") as (content1 & pending1 & -> & H1).
  unfold csvw.Flush. rewrite Flush_taken, H1. reflexivity.
Qed.

Lemma WriteRefs_taken (refs : list gitlab.MergeRequestRef) : forall content,
  csvsys.WriteRefs {| csvsys.file := name; csvsys.writer := csvw.NewWriter name |} refs
    (holding fs name content)
  = ({| csvsys.file := name; csvsys.writer := csvw.NewWriter name |}, None,
     holding fs name (content +:+ concatLines (map lineOf refs))).
Proof.
  induction refs as [|ref refs IH]; intros content.
  - simpl. rewrite Codec.append_nil_r. reflexivity.
  - cbn [csvsys.WriteRefs]. rewrite WriteRef_taken, IH.
    change (map lineOf (ref :: refs)) with ([lineOf ref] ++ map lineOf refs).
    rewrite concatLines_app, Codec.append_assoc. reflexivity.
Qed.

End Writing.

(** *** Writes that only fill the buffer *)

Section Buffering.

(** Any system, and a file on it. *)
Variable fs : sys.FileSystem.
Variable name : string.

Ltac sizes :=
  repeat (progress (cbn [String.length] in *; rewrite ?RepoPaths.length_append in * ));
  lia.

Lemma WriteByte_fits (pending : string) (c : ascii) :
  (String.length pending < bufio.defaultBufSize)%nat ->
  bufio.WriteByte (buffering name pending) c fs
  = (None, buffering name (pending +:+ String c ""), fs).
Proof.
  intros Hfits. unfold bufio.WriteByte, bufio.Available. cbn [bufio.err bufio.buf buffering].
  destruct (Nat.leb_spec (bufio.defaultBufSize - String.length pending) 0); [lia|].
  reflexivity.
Qed.

Lemma WriteString_fits (pending s : string) :
  (String.length pending + String.length s <= bufio.defaultBufSize)%nat ->
  bufio.WriteString (buffering name pending) s fs
  = (None, buffering name (pending +:+ s), fs).
Proof.
  intros Hfits. unfold bufio.WriteString, buffering.
  cbn [bufio.writeStringRounds bufio.err bufio.buf bufio.wr].
  unfold bufio.Available at 1. cbn [bufio.buf].
  destruct (Nat.ltb_spec (bufio.defaultBufSize - String.length pending) (String.length s));
    [lia|].
  reflexivity.
Qed.

Lemma writeQuoted_fits (field : string) : forall piece pending,
  (String.length pending + String.length piece + String.length (escapeQuotes field)
   <= bufio.defaultBufSize)%nat ->
  csvw.writeQuoted field piece (buffering name pending) fs
  = (None, buffering name (pending +:+ piece +:+ escapeQuotes field), fs).
Proof.
  induction field as [|c rest IH]; intros piece pending Hfits.
  - cbn [csvw.writeQuoted escapeQuotes]. rewrite Codec.append_nil_r.
    destruct (String.eqb_spec piece "") as [->|_].
    + rewrite Codec.append_nil_r. reflexivity.
    + apply WriteString_fits. cbn [escapeQuotes String.length] in Hfits. lia.
  - cbn [csvw.writeQuoted escapeQuotes] in *. unfold csvw.endsPiece.
    destruct (Ascii.eqb c quote) eqn:Eq; cbn [orb].
    + rewrite WriteString_fits by sizes. cbn [bufio.andThen].
      rewrite WriteString_fits by sizes. cbn [bufio.andThen].
      rewrite (IH "") by sizes. flatten. reflexivity.
    + destruct (Ascii.eqb c CR || Ascii.eqb c LF).
      * rewrite WriteString_fits by sizes. cbn [bufio.andThen].
        rewrite WriteByte_fits by sizes. cbn [bufio.andThen].
        rewrite (IH "") by sizes. flatten. reflexivity.
      * rewrite (IH (piece +:+ String c "")) by sizes. flatten. reflexivity.
Qed.

Lemma writeField_fits (n : nat) (field pending : string) :
  (String.length pending + 1 + String.length (writeField field) <= bufio.defaultBufSize)%nat ->
  csvw.writeField n field (buffering name pending) fs
  = (None,
     buffering name (pending +:+ (if (0 <? n)%nat then String comma "" else "")
                     +:+ writeField field), fs).
Proof.
  intros Hfits.
  assert (Hbody : forall before,
            (String.length before + String.length (writeField field)
             <= bufio.defaultBufSize)%nat ->
            (if negb (fieldNeedsQuotes field)
             then bufio.WriteString (buffering name before) field fs
             else
               bufio.andThen (bufio.WriteByte (buffering name before) quote fs) (fun b fs =>
               bufio.andThen (csvw.writeQuoted field "" b fs) (fun b fs =>
               bufio.WriteByte b quote fs)))
            = (None, buffering name (before +:+ writeField field), fs)).
  { intros before Hbefore. unfold writeField in *.
    destruct (fieldNeedsQuotes field); cbn [negb].
    - rewrite WriteByte_fits by sizes. cbn [bufio.andThen].
      rewrite (writeQuoted_fits field "") by sizes. cbn [bufio.andThen].
      rewrite WriteByte_fits by sizes. flatten. reflexivity.
    - apply WriteString_fits. exact Hbefore. }
  unfold csvw.writeField. destruct (0 <? n)%nat.
  - rewrite WriteByte_fits by lia. cbn [bufio.andThen].
    eapply eq_trans; [apply Hbody; sizes|]. flatten. reflexivity.
  - cbn [bufio.andThen]. eapply eq_trans; [apply Hbody; lia|]. flatten. reflexivity.
Qed.

Lemma Write_fits_ref (ref : gitlab.MergeRequestRef) (pending : string) :
  (String.length pending + String.length (concatLines [lineOf ref])
   <= bufio.defaultBufSize)%nat ->
  csvw.Write (buffering name pending) [Itoa (gitlab.IID ref); gitlab.HeadSHA ref] fs
  = (None, buffering name (pending +:+ concatLines [lineOf ref]), fs).
Proof.
  cbn [concatLines]. unfold lineOf. intros Hfits.
  unfold csvw.Write. cbn [csvw.writeFields].
  rewrite (writeField_fits 0) by (rewrite Codec.writeField_Itoa; sizes).
  cbn [bufio.andThen Nat.ltb Nat.leb].
  rewrite (writeField_fits 1) by (rewrite Codec.writeField_Itoa; sizes).
  cbn [bufio.andThen Nat.ltb Nat.leb].
  rewrite Codec.writeField_Itoa.
  rewrite WriteByte_fits by sizes. flatten. reflexivity.
Qed.

Lemma writeRefs_fits (refs : list gitlab.MergeRequestRef) : forall pending,
  (String.length pending + String.length (concatLines (map lineOf refs))
   <= bufio.defaultBufSize)%nat ->
  csvsys.writeRefs (buffering name pending) refs fs
  = (None, buffering name (pending +:+ concatLines (map lineOf refs)), fs).
Proof.
  induction refs as [|ref refs IH]; intros pending Hfits.
  - simpl. rewrite Codec.append_nil_r. reflexivity.
  - change (map lineOf (ref :: refs)) with ([lineOf ref] ++ map lineOf refs) in *.
    rewrite concatLines_app in *. cbn [csvsys.writeRefs].
    rewrite Write_fits_ref by sizes. rewrite IH by sizes.
    rewrite Codec.append_assoc. reflexivity.
Qed.

End Buffering.

(** *** A write the system refuses *)

Lemma slice_to_min (n : nat) (s : string) :
  sys.slice_to (Nat.min n (String.length s)) s = sys.slice_to n s.
Proof.
  revert n. induction s as [|c s IH]; intros [|n]; try reflexivity.
  cbn [String.length Nat.min sys.slice_to]. rewrite IH. reflexivity.
Qed.

Lemma Write_refused (fs : sys.FileSystem) (name content data : string) (n : nat)
    (err : error) :
  sys.writeError fs name content data = Some (n, err) ->
  sys.Write name data (holding fs name content)
  = (Nat.min n (String.length data), Some err,
     holding fs name (content +:+ sys.slice_to n data)).
Proof.
  intros Hrefused.
  assert (Hsame : sys.writeError (holding fs name content) name content data
                  = Some (n, err)) by exact Hrefused.
  unfold sys.Write. rewrite holding_lookup. cbn [default id].
  rewrite Hsame, slice_to_min. unfold holding, sys.with_files.
  cbn [sys.files sys.createError sys.writeError sys.closeError id].
  rewrite insert_insert_eq. reflexivity.
Qed.

(** The flush of a buffer the system does not take: the error stays in
    the writer. *)
Lemma Flush_refused (fs : sys.FileSystem) (name content pending : string) (n : nat)
    (err : error) :
  pending <> "" ->
  sys.writeError fs name content pending = Some (n, err) ->
  bufio.Flush (buffering name pending) (holding fs name content)
  = (Some err,
     {| bufio.buf := sys.slice_from (Nat.min n (String.length pending)) pending;
        bufio.err := Some err; bufio.wr := name |},
     holding fs name (content +:+ sys.slice_to n pending)).
Proof.
  intros Hpending Hrefused.
  unfold bufio.Flush, bufio.Buffered, buffering. cbn [bufio.err bufio.buf bufio.wr].
  destruct pending as [|c pending]; [contradiction|].
  cbn [String.length Nat.eqb]. rewrite (Write_refused _ _ _ _ _ _ Hrefused).
  reflexivity.
Qed.

Lemma concatLines_not_empty (line : string) (rest : list string) :
  concatLines (line :: rest) <> "".
Proof. cbn [concatLines]. destruct line; discriminate. Qed.

(** [Close] with nothing buffered writes nothing, and reports how closing
    the file went. *)
Lemma Close_flushed (fs : sys.FileSystem) (name : string) :
  csvsys.Close {| csvsys.file := name; csvsys.writer := csvw.NewWriter name |} fs
  = ({| csvsys.file := name; csvsys.writer := csvw.NewWriter name |},
     option_map (Errorf_w "failed to close file: ") (sys.closeError fs name), fs).
Proof.
  unfold csvsys.Close, csvw.Flush, csvw.Error, sys.Close. simpl.
  destruct (sys.closeError fs name); reflexivity.
Qed.

Lemma WriteRefsToFile_taken (refs : list gitlab.MergeRequestRef) (name : string)
    (fs : sys.FileSystem) :
  writable fs name ->
  csvsys.WriteRefsToFile refs name fs
  = (None, holding fs name (concatLines (map lineOf refs))).
Proof.
  intros Hw. unfold csvsys.WriteRefsToFile. rewrite (Create_writable _ _ Hw).
  destruct Hw as (_ & _ & Htakes).
  change (csvw.NewWriter name) with (buffering name "").
  destruct (writeRefs_taken fs name Htakes refs "" "") as (content & pending & -> & H).
  unfold csvw.Flush. rewrite (Flush_taken fs name Htakes), H. reflexivity.
Qed.

(** On such a system [WriteRefsToFile] leaves the files the one over the
    system without refusals leaves. *)
Lemma WriteRefsToFile_refines (refs : list gitlab.MergeRequestRef) (name : string)
    (fs : sys.FileSystem) :
  writable fs name ->
  csvsys.WriteRefsToFile refs name fs
  = (fst (csv.WriteRefsToFile refs name (sys.files fs)),
     sys.with_files fs (snd (csv.WriteRefsToFile refs name (sys.files fs)))).
Proof.
  intros Hw. rewrite (WriteRefsToFile_taken _ _ _ Hw).
  destruct Hw as (Hname & _).
  rewrite (Codec.WriteRefsToFile_content _ _ _ Hname). cbn [fst snd].
  rewrite insert_insert_eq. reflexivity.
Qed.

(** X9.  Creating the file may be refused: then [NewStreamWriter] and
    [WriteRefsToFile] both return that error under [failed to create
    file], and change nothing.  On a system that lets the file be created
    and takes every write to it, writing references one by one through a
    [StreamWriter] leaves the same file as [WriteRefsToFile] does in one
    go, with no error on the way; the file is complete after every single
    [WriteRef], whatever has been written so far; and [Close] adds nothing
    and returns the error of closing the file, if there is one, under
    [failed to close file]. *)
Theorem StreamWriter_writes_what_WriteRefsToFile_writes
    (refs : list gitlab.MergeRequestRef) (filename : string) (fs : sys.FileSystem) :
  (forall err,
     sys.Create filename fs = inl err ->
     let failed := Errorf_w ("failed to create file " +:+ filename +:+ ": ") err in
     csvsys.NewStreamWriter filename fs = (inl failed, fs) /\
     csvsys.WriteRefsToFile refs filename fs = (Some failed, fs)) /\
  (writable fs filename ->
   exists sw,
     let written := holding fs filename (concatLines (map lineOf refs)) in
     csvsys.NewStreamWriter filename fs = (inr sw, holding fs filename "") /\
     csvsys.WriteRefs sw refs (holding fs filename "") = (sw, None, written) /\
     csvsys.WriteRefsToFile refs filename fs = (None, written) /\
     (forall done : list gitlab.MergeRequestRef,
        csvsys.WriteRefs sw done (holding fs filename "")
        = (sw, None, holding fs filename (concatLines (map lineOf done)))) /\
     csvsys.Close sw written
     = (sw, option_map (Errorf_w "failed to close file: ") (sys.closeError fs filename),
        written)).
Proof.
  split.
  - intros err Hcreate. cbv zeta.
    unfold csvsys.NewStreamWriter, csvsys.WriteRefsToFile. rewrite Hcreate. auto.
  - intros Hw. exists {| csvsys.file := filename; csvsys.writer := csvw.NewWriter filename |}.
    cbv zeta. pose proof Hw as (_ & _ & Htakes).
    split; [|split; [|split; [|split]]].
    + unfold csvsys.NewStreamWriter. rewrite (Create_writable _ _ Hw). reflexivity.
    + rewrite (WriteRefs_taken fs filename Htakes). reflexivity.
    + apply WriteRefsToFile_taken, Hw.
    + intros done. rewrite (WriteRefs_taken fs filename Htakes). reflexivity.
    + rewrite Close_flushed. reflexivity.
Qed.

Lemma StreamWriter_writes_what_WriteRefsToFile_writes_witness :
  let refs := [gitlab.mkRef 501 1 "abc123"; gitlab.mkRef 502 16 "def456"] in
  csvsys.WriteRefsToFile refs "out.csv" (sys.sound ∅)
  = (None, holding (sys.sound ∅) "out.csv" (concatLines (map lineOf refs))) /\
  csvsys.NewStreamWriter "out.csv" (sys.denying "out.csv" ∅)
  = (inl (Errorf_w "failed to create file out.csv: "
            (New "open out.csv: permission denied")), sys.denying "out.csv" ∅).
Proof.
  cbv zeta.
  pose proof (StreamWriter_writes_what_WriteRefsToFile_writes
                [gitlab.mkRef 501 1 "abc123"; gitlab.mkRef 502 16 "def456"]
                "out.csv" (sys.sound ∅)) as [_ Hsound].
  pose proof (StreamWriter_writes_what_WriteRefsToFile_writes
                [] "out.csv" (sys.denying "out.csv" ∅)) as [Hdenied _].
  split.
  - destruct Hsound as (sw & _ & _ & Hbatch & _).
    + repeat split. discriminate.
    + exact Hbatch.
  - exact (proj1 (Hdenied _ eq_refl)).
Defined.

(** X15.  [WriteRefsToFile] does not report a write that fails at the end.
    When the lines of the references fit the 4096 bytes of the writer's
    buffer, nothing reaches the file before the deferred [Flush], whose
    outcome is dropped: whatever the system does with that write,
    [WriteRefsToFile] returns no error, and when the write fails after [n]
    bytes the file is left with those [n] bytes of the lines and no more.
    A [StreamWriter] on the same file returns the error of the failed
    write from the first [WriteRef]. *)
Theorem WriteRefsToFile_hides_a_failed_write
    (refs : list gitlab.MergeRequestRef) (filename : string) (fs : sys.FileSystem) :
  filename <> "" ->
  sys.createError fs filename = None ->
  let text := concatLines (map lineOf refs) in
  (String.length text <= bufio.defaultBufSize)%nat ->
  fst (csvsys.WriteRefsToFile refs filename fs) = None /\
  (forall n err,
     refs <> [] ->
     sys.writeError fs filename "" text = Some (n, err) ->
     csvsys.WriteRefsToFile refs filename fs
     = (None, holding fs filename (sys.slice_to n text))) /\
  (forall ref rest n err,
     refs = ref :: rest ->
     sys.writeError fs filename "" (concatLines [lineOf ref]) = Some (n, err) ->
     exists sw left,
       csvsys.NewStreamWriter filename fs = (inr sw, holding fs filename "") /\
       csvsys.WriteRef sw ref (holding fs filename "")
       = (left, Some err,
          holding fs filename (sys.slice_to n (concatLines [lineOf ref])))).
Proof.
  intros Hname Hcreate text Hfits.
  assert (Hcreated : sys.Create filename fs = inr (holding fs filename "")).
  { unfold sys.Create. rewrite Hcreate.
    destruct (String.eqb_spec filename "") as [|_]; [contradiction | reflexivity]. }
  assert (Hloop : csvsys.writeRefs (csvw.NewWriter filename) refs (holding fs filename "")
                  = (None, buffering filename text, holding fs filename "")).
  { change (csvw.NewWriter filename) with (buffering filename "").
    rewrite writeRefs_fits by exact Hfits. reflexivity. }
  split; [|split].
  - unfold csvsys.WriteRefsToFile. rewrite Hcreated, Hloop. unfold csvw.Flush.
    destruct (bufio.Flush _ _) as [[flushed b] fs']. reflexivity.
  - intros n err Hrefs Hrefused.
    unfold csvsys.WriteRefsToFile. rewrite Hcreated, Hloop. unfold csvw.Flush.
    rewrite (Flush_refused fs filename "" text n err); [reflexivity| |exact Hrefused].
    unfold text. destruct refs as [|ref rest]; [contradiction|].
    apply concatLines_not_empty.
  - intros ref rest n err -> Hrefused.
    exists {| csvsys.file := filename; csvsys.writer := csvw.NewWriter filename |}.
    eexists. split.
    + unfold csvsys.NewStreamWriter. rewrite Hcreated. reflexivity.
    + unfold csvsys.WriteRef. cbn [csvsys.writer csvsys.file].
      change (csvw.NewWriter filename) with (buffering filename "").
      rewrite Write_fits_ref.
      * unfold csvw.Flush.
        rewrite (Flush_refused fs filename "" _ n err);
          [reflexivity | apply concatLines_not_empty | exact Hrefused].
      * unfold text in Hfits.
        change (map lineOf (ref :: rest)) with ([lineOf ref] ++ map lineOf rest) in Hfits.
        rewrite concatLines_app, RepoPaths.length_append in Hfits.
        cbn [String.length]. lia.
Qed.

Lemma WriteRefsToFile_hides_a_failed_write_witness :
  let refs := [gitlab.mkRef 501 1 "abc123"; gitlab.mkRef 502 16 "def456"] in
  let created := holding (sys.full ∅) "out.csv" "" in
  csvsys.WriteRefsToFile refs "out.csv" (sys.full ∅) = (None, created) /\
  exists sw left,
    csvsys.NewStreamWriter "out.csv" (sys.full ∅) = (inr sw, created) /\
    csvsys.WriteRef sw (gitlab.mkRef 501 1 "abc123") created
    = (left, Some (New "write: no space left on device"), created).
Proof.
  cbv zeta.
  pose proof (WriteRefsToFile_hides_a_failed_write
                [gitlab.mkRef 501 1 "abc123"; gitlab.mkRef 502 16 "def456"]
                "out.csv" (sys.full ∅) ltac:(discriminate) eq_refl) as H.
  cbv zeta in H. destruct H as (_ & Hbatch & Hstream).
  - apply Nat.leb_le. vm_compute. reflexivity.
  - split.
    + exact (Hbatch O (New "write: no space left on device") ltac:(discriminate) eq_refl).
    + exact (Hstream _ _ O (New "write: no space left on device") eq_refl eq_refl).
Defined.

End Stream.

(* ===================================================================== *)
(** * Theorems: the fetch-refs command *)
(* ===================================================================== *)

Module Command.

Import Go gitlab run encodingcsv codec observe.

#[local] Arguments String.append _ _ : simpl nomatch.

Lemma outputPath_not_empty (outputFile repository : string) :
  outputPath outputFile repository <> "".
Proof.
  unfold outputPath.
  destruct (String.eqb_spec outputFile "") as [->|Hne]; cbn [negb]; [|exact Hne].
  unfold csvfile.GenerateFilename. cbv zeta.
  destruct (strings.ReplaceAll _ "/" "-"); discriminate.
Qed.

Lemma sinkRefs_app (l1 l2 : list Event) : sinkRefs (l1 ++ l2) = sinkRefs l1 ++ sinkRefs l2.
Proof. apply flat_map_app. Qed.

Lemma sinkRefs_sleeps (s : list Event) : Forall isSleep s -> sinkRefs s = [].
Proof. intros Hs. apply Fetcher.flat_map_sleeps; [exact Hs | reflexivity]. Qed.

Section Proofs.

Context {P : Type}.
Variable gitlab_NewClient : string -> option string -> error + GitlabClient P.
Variable url_Parse : string -> error + url.URL.

Implicit Types (c : Client (@cmd.Process P)) (w : World (@cmd.Process P)).

Lemma made_client_is_fresh token baseURL c :
  cmd.NewClient gitlab_NewClient token baseURL = inr c ->
  exists cl, c = freshClient (cmd.onRemote cl).
Proof.
  unfold cmd.NewClient, NewClient.
  destruct (if negb (String.eqb baseURL "") then _ else _) as [err|cl]; [discriminate|].
  intros [= <-]. exists cl. reflexivity.
Qed.

Lemma exporting_request (cl : GitlabClient P) out fs c w l c1 w1 s1 (e : Event)
    (st : @cmd.Process P) :
  exporting cl out fs c w l ->
  rateLimitWait c w = (c1, w1, s1) ->
  sinkRefs [e] = [] ->
  cmd.csvWriter st = cmd.csvWriter (ext w1) ->
  cmd.disk st = cmd.disk (ext w1) ->
  exporting cl out fs c1 {| clock := clock w1; drift := drift w1; ext := st |}
    (l ++ s1 ++ [e]).
Proof.
  intros (Hc & Hsw & Hdisk) Hwait He Hsw' Hdisk'.
  pose proof (Fetcher.rateLimitWait_sleeps c w) as Hs1.
  unfold log in Hs1. rewrite Hwait in Hs1. cbn [snd] in Hs1.
  rewrite Governor.rateLimitWait_unfold in Hwait. injection Hwait as <- <- _.
  unfold exporting. cbn [ext client set_lastRequestTime] in *.
  rewrite !sinkRefs_app, (sinkRefs_sleeps _ Hs1), He, !app_nil_r.
  rewrite Hsw', Hdisk'. auto.
Qed.

(** The fetch as the command runs it keeps the file in step with the
    sink, on a system that takes every write to the file. *)
Lemma exporting_FetchMergeRequestRefs (cl : GitlabClient P) out fs fuel c projectPath w l :
  (forall content data, sys.writeError fs out content data = None) ->
  exporting cl out fs c w l ->
  exporting cl out fs
    (snd (value (FetchMergeRequestRefs fuel c projectPath cmd.processor) w))
    (world (FetchMergeRequestRefs fuel c projectPath cmd.processor) w)
    (l ++ log (FetchMergeRequestRefs fuel c projectPath cmd.processor) w).
Proof.
  intros Htakes.
  apply Stepwise.FetchMergeRequestRefs_keeps.
  - intros c0 w0 l0 opts HR c1 w1 s1 Hwait res w2 e.
    assert (Hcl : client c1 = cmd.onRemote cl).
    { destruct HR as [Hc _]. rewrite Governor.rateLimitWait_unfold in Hwait.
      injection Hwait as <- _ _. exact Hc. }
    unfold call_ListProjectMergeRequests. rewrite Hcl. cbn [ListProjectMergeRequests cmd.onRemote].
    destruct (ListProjectMergeRequests cl projectPath opts (cmd.remote (ext w1))) as [res' p].
    intros [= <- <- <-].
    eapply exporting_request; [exact HR | exact Hwait | reflexivity..].
  - intros c0 w0 l0 mr HR c1 w1 s1 Hwait res w2 e.
    assert (Hcl : client c1 = cmd.onRemote cl).
    { destruct HR as [Hc _]. rewrite Governor.rateLimitWait_unfold in Hwait.
      injection Hwait as <- _ _. exact Hc. }
    unfold call_GetMergeRequest. rewrite Hcl. cbn [GetMergeRequest cmd.onRemote].
    destruct (GetMergeRequest cl projectPath (gitlabapi.IID mr) (cmd.remote (ext w1)))
      as [res' p].
    intros [= <- <- <-].
    eapply exporting_request; [exact HR | exact Hwait | reflexivity..].
  - intros c0 w0 l0 resp (Hc & Hsw & Hdisk). unfold exporting.
    rewrite Governor.checkRateLimitHeaders_world. cbn [ext].
    rewrite sinkRefs_app,
      (sinkRefs_sleeps _ (Fetcher.checkRateLimitHeaders_sleeps c0 w0 resp)), app_nil_r.
    split; [|split; assumption]. rewrite <- Hc.
    destruct resp as [resp|]; [|reflexivity].
    rewrite Governor.checkRateLimitHeaders_client.
    destruct (Atoi _) as [n|]; [|reflexivity]. destruct (n <=? 10); reflexivity.
  - intros c0 w0 l0 ref (Hc & Hsw & Hdisk).
    unfold world, log, call_processor, cmd.processor. rewrite Hsw, Hdisk.
    rewrite (Stream.WriteRef_taken fs out Htakes).
    cbn [fst snd]. unfold exporting. cbn [ext cmd.csvWriter cmd.disk].
    rewrite sinkRefs_app. cbn [sinkRefs flat_map]. rewrite app_nil_r, map_app.
    rewrite Stream.concatLines_app. auto.
Qed.

(** The pace of the fetch, from the client the command makes. *)
Lemma made_client_is_paced (cl : GitlabClient P) fuel projectPath w :
  let fetch :=
    FetchMergeRequestRefs fuel (freshClient (cmd.onRemote cl)) projectPath cmd.processor in
  clock w + (Z.of_nat (length (requestsMade (log fetch w))) - 1) * (100 * time.Millisecond)
  <= clock (world fetch w).
Proof.
  cbv zeta.
  assert (Hstart : paced (clock w) (freshClient (cmd.onRemote cl)) w []).
  { unfold paced, freshClient, in_int64, minInt64, maxInt64, time.Millisecond.
    cbn [minInterval lastRequestTime]. repeat split; lia. }
  apply (Steps.paced_FetchMergeRequestRefs _ fuel _ projectPath cmd.processor) in Hstart.
  cbn [app] in Hstart. destruct Hstart as (_ & _ & Ht0 & Hlast).
  unfold time.Millisecond in *.
  revert Hlast. destruct (lastRequestTime _) as [last|].
  - intros [Hle Hpace]. lia.
  - intros ->. cbn [length]. lia.
Qed.

(** The command, once the client is made and the output file created:
    the repository argument is parsed, the fetch run with the writing
    callback, and the writer closed. *)
Lemma runFetchRef_started fuel token baseURL outputFile repository
    (w0 : World (P * sys.FileSystem)) c :
  cmd.NewClient gitlab_NewClient token baseURL = inr c ->
  let out := outputPath outputFile repository in
  sys.createError (snd (ext w0)) out = None ->
  let started :=
    {| clock := clock w0; drift := drift w0;
       ext := {| cmd.remote := fst (ext w0);
                 cmd.disk := holding (snd (ext w0)) out "";
                 cmd.csvWriter := {| csvsys.file := out; csvsys.writer := csvw.NewWriter out |};
                 cmd.refCount := 0 |} |} in
  cmd.runFetchRef gitlab_NewClient url_Parse fuel token baseURL outputFile repository w0
  = match gitlabrepo.ParseRepoPath url_Parse repository with
    | inl err =>
      (Returned (Some (Errorf_w "failed to parse repository path: " err)),
       {| clock := clock w0; drift := drift w0;
          ext := (fst (ext w0), holding (snd (ext w0)) out "") |}, [])
    | inr (_, projectPath) =>
      let fetch := FetchMergeRequestRefs fuel c projectPath cmd.processor in
      let w' := world fetch started in
      (match fst (value fetch started) with
       | OutOfFuel => OutOfFuel
       | Returned None => Returned None
       | Returned (Some err) => Returned (Some (gitlabrepo.wrapFetchError err projectPath))
       end,
       {| clock := clock w'; drift := drift w';
          ext := (cmd.remote (ext w'),
                  match fst (value fetch started) with
                  | OutOfFuel => cmd.disk (ext w')
                  | Returned _ =>
                    snd (csvsys.Close (cmd.csvWriter (ext w')) (cmd.disk (ext w')))
                  end) |},
       log fetch started)
    end.
Proof.
  intros Hnew out Hcreate. cbv zeta.
  unfold cmd.runFetchRef. rewrite Hnew. cbv zeta.
  change (if negb (String.eqb outputFile "") then outputFile
          else csvfile.GenerateFilename repository)
    with (outputPath outputFile repository).
  pose proof (outputPath_not_empty outputFile repository) as Hout.
  fold out in Hout |- *.
  unfold csvsys.NewStreamWriter, sys.Create. rewrite Hcreate.
  destruct (String.eqb_spec out "") as [|_]; [contradiction|].
  fold (holding (snd (ext w0)) out "").
  destruct (gitlabrepo.ParseRepoPath url_Parse repository)
    as [err | [parsedURL projectPath]] eqn:Hparse.
  - rewrite (Repo.FromRepo_unparsed _ _ _ _ _ _ _ _ Hparse).
    cbn [ext cmd.csvWriter cmd.disk cmd.remote clock drift].
    rewrite Stream.Close_flushed. reflexivity.
  - rewrite (Repo.FromRepo_parsed _ _ _ _ _ _ _ _ _ Hparse). cbv zeta.
    destruct (fst (value (FetchMergeRequestRefs fuel c projectPath cmd.processor) _))
      as [[err|]|]; cbn [repoOutcome];
      try destruct (csvsys.Close _ _) as [[sw' closed] fs']; reflexivity.
Qed.

(** The steps of the command are those of its fetch, if it comes to one,
    and so is the time it takes. *)
Lemma runFetchRef_trace fuel token baseURL outputFile repository
    (w0 : World (P * sys.FileSystem)) c :
  cmd.NewClient gitlab_NewClient token baseURL = inr c ->
  let result :=
    cmd.runFetchRef gitlab_NewClient url_Parse fuel token baseURL outputFile repository w0 in
  (snd result = [] /\ clock (snd (fst result)) = clock w0) \/
  exists projectPath started,
    clock started = clock w0 /\
    snd result = log (FetchMergeRequestRefs fuel c projectPath cmd.processor) started /\
    clock (snd (fst result))
    = clock (world (FetchMergeRequestRefs fuel c projectPath cmd.processor) started).
Proof.
  intros Hnew. cbv zeta.
  destruct (sys.createError (snd (ext w0)) (outputPath outputFile repository))
    as [err|] eqn:Hcreate.
  - left. unfold cmd.runFetchRef. rewrite Hnew. cbv zeta.
    change (if negb (String.eqb outputFile "") then outputFile
            else csvfile.GenerateFilename repository)
      with (outputPath outputFile repository).
    unfold csvsys.NewStreamWriter.
    rewrite (Stream.Create_refused _ _ _ (outputPath_not_empty _ _) Hcreate). auto.
  - rewrite (runFetchRef_started _ _ _ _ _ _ _ Hnew Hcreate). cbv zeta.
    destruct (gitlabrepo.ParseRepoPath url_Parse repository)
      as [err | [parsedURL projectPath]]; [left; auto|].
    right. eexists projectPath, _. split; [|split; reflexivity]. reflexivity.
Qed.

(** X10.  What the command leaves on disk, once the client is made.  When
    the system refuses to create the output file (the [--output] value,
    else [GenerateFilename] of the repository), the command returns that
    error under [failed to create CSV writer], makes no request and
    changes nothing.  When the file can be created and the system takes
    every write to it, then however the run ends (completed, failed at a
    request, repository argument rejected, or still fetching): the file
    holds exactly one line per reference handed to the callback, in order,
    nothing else on the system has changed, and [ReadRefsFromFile] reads
    those references back, without [ID], provided their hashes hold no
    comma, quote or line feed and their numbers are 64-bit.  In every
    case the references handed to the callback are those due for the
    detail records fetched, and the run took at least [(n-1) * 100ms] for
    its [n] requests. *)
Theorem runFetchRef_exports fuel token baseURL outputFile repository
    (w0 : World (P * sys.FileSystem)) c :
  cmd.NewClient gitlab_NewClient token baseURL = inr c ->
  let result :=
    cmd.runFetchRef gitlab_NewClient url_Parse fuel token baseURL outputFile repository w0 in
  let out := outputPath outputFile repository in
  let l := snd result in
  let left := snd (ext (snd (fst result))) in
  (forall err,
     sys.createError (snd (ext w0)) out = Some err ->
     fst (fst result)
     = Returned (Some (Errorf_w "failed to create CSV writer: "
                         (Errorf_w ("failed to create file " +:+ out +:+ ": ") err))) /\
     l = [] /\
     ext (snd (fst result)) = ext w0) /\
  (writable (snd (ext w0)) out ->
   left = holding (snd (ext w0)) out (concatLines (map lineOf (sinkRefs l))) /\
   (Forall (fun ref => in_int64 (IID ref) /\ plainSHA (HeadSHA ref)) (sinkRefs l) ->
    csv.ReadRefsFromFile out (sys.files left) = inr (map stored (sinkRefs l)))) /\
  sinkRefs l = flat_map emitted (fetched l) /\
  clock w0 + (Z.of_nat (length (requestsMade l)) - 1) * (100 * time.Millisecond)
  <= clock (snd (fst result)).
Proof.
  intros Hnew. cbv zeta.
  destruct (made_client_is_fresh _ _ _ Hnew) as [cl Hc].
  pose proof (outputPath_not_empty outputFile repository) as Hout.
  set (out := outputPath outputFile repository) in *.
  split; [|split; [|split]].
  - intros err Hcreate. unfold cmd.runFetchRef. rewrite Hnew. cbv zeta.
    change (if negb (String.eqb outputFile "") then outputFile
            else csvfile.GenerateFilename repository) with out.
    unfold csvsys.NewStreamWriter. rewrite (Stream.Create_refused _ _ _ Hout Hcreate).
    cbn [fst snd ext]. repeat split. destruct (ext w0); reflexivity.
  - intros (_ & Hcreate & Htakes).
    assert (Hread : forall refs,
              Forall (fun ref => in_int64 (IID ref) /\ plainSHA (HeadSHA ref)) refs ->
              csv.ReadRefsFromFile out
                (sys.files (holding (snd (ext w0)) out (concatLines (map lineOf refs))))
              = inr (map stored refs)).
    { intros refs Hrefs.
      destruct (Codec.roundtrip refs out (sys.files (snd (ext w0))) Hout Hrefs) as [_ Hrt].
      rewrite (Codec.WriteRefsToFile_content _ _ _ Hout) in Hrt. cbn [snd] in Hrt.
      rewrite insert_insert_eq in Hrt. exact Hrt. }
    rewrite (runFetchRef_started _ _ _ _ _ _ _ Hnew Hcreate). cbv zeta. fold out.
    destruct (gitlabrepo.ParseRepoPath url_Parse repository)
      as [err | [parsedURL projectPath]]; cbn [fst snd ext].
    + split; [reflexivity|]. intros _. apply (Hread []). constructor.
    + set (started := {| clock := clock w0; drift := _; ext := _ |}).
      assert (Hstart : exporting cl out (snd (ext w0)) c started []).
      { unfold exporting. rewrite Hc. repeat split. }
      apply (exporting_FetchMergeRequestRefs cl out _ fuel c projectPath _ _ Htakes)
        in Hstart.
      cbn [app] in Hstart. destruct Hstart as (_ & Hsw & Hdisk).
      set (left := match fst (value _ _) with OutOfFuel => _ | Returned _ => _ end).
      assert (Hleft : left
                      = holding (snd (ext w0)) out
                          (concatLines (map lineOf (sinkRefs
                             (log (FetchMergeRequestRefs fuel c projectPath cmd.processor)
                                started))))).
      { unfold left. rewrite Hsw, Stream.Close_flushed, Hdisk.
        destruct (fst (value _ _)) as [[err|]|]; reflexivity. }
      rewrite Hleft. split; [reflexivity | apply Hread].
  - destruct (runFetchRef_trace fuel token baseURL outputFile repository w0 c Hnew)
      as [[-> _] | (projectPath & started & _ & -> & _)]; [reflexivity|].
    eapply Fetcher.PagesLog_sinkRefs. apply Fetcher.FetchMergeRequestRefs_log.
  - destruct (runFetchRef_trace fuel token baseURL outputFile repository w0 c Hnew)
      as [[-> ->] | (projectPath & started & <- & -> & ->)].
    + cbn [requestsMade flat_map length]. unfold time.Millisecond. lia.
    + rewrite Hc. apply made_client_is_paced.
Qed.

(** X11.  A repository argument that is not a valid path costs the
    previous export: the output file is created before the argument is
    looked at.  When the system lets the file be created, the command
    makes no request, returns the format error, and leaves the output file
    existing and empty, whatever it held. *)
Theorem runFetchRef_invalid_repository_empties_the_file
    fuel token baseURL outputFile repository (w0 : World (P * sys.FileSystem)) c :
  cmd.NewClient gitlab_NewClient token baseURL = inr c ->
  strings.HasPrefix repository "http" = false ->
  ~ validPath repository ->
  sys.createError (snd (ext w0)) (outputPath outputFile repository) = None ->
  cmd.runFetchRef gitlab_NewClient url_Parse fuel token baseURL outputFile repository w0
  = (Returned (Some (Errorf_w "failed to parse repository path: "
                       (New ("invalid repository path format: " +:+ repository)))),
     {| clock := clock w0; drift := drift w0;
        ext := (fst (ext w0),
                holding (snd (ext w0)) (outputPath outputFile repository) "") |},
     []).
Proof.
  intros Hnew Hhttp Hinvalid Hcreate.
  rewrite (runFetchRef_started _ _ _ _ _ _ _ Hnew Hcreate). cbv zeta.
  unfold gitlabrepo.ParseRepoPath. rewrite Hhttp.
  destruct (regexp.MatchString repository) eqn:Hm; [|reflexivity].
  exfalso. apply Hinvalid, RepoPaths.MatchString_validPath, Hm.
Qed.

End Proofs.

Lemma runFetchRef_exports_witness :
  let result :=
    cmd.runFetchRef (fun _ _ => inr (serve smallProject)) (fun _ => inl (New "unused"))
      5 "token" "" "" "group/repo"
      {| clock := 0; drift := [];
         ext := ([], sys.sound {[ "group-repo.csv" := "old" ]}) |} in
  csv.ReadRefsFromFile "group-repo.csv" (sys.files (snd (ext (snd (fst result)))))
  = inr [mkRef 0 1 "aaa"; mkRef 0 3 "ccc"].
Proof.
  cbv zeta.
  pose proof (runFetchRef_exports (fun _ _ => inr (serve smallProject))
                (fun _ => inl (New "unused")) 5 "token" "" "" "group/repo"
                {| clock := 0; drift := [];
                   ext := ([], sys.sound {[ "group-repo.csv" := "old" ]}) |}
                (freshClient (cmd.onRemote (serve smallProject))) eq_refl) as H.
  cbv zeta in H. destruct H as (_ & Hwritten & _ & _).
  destruct Hwritten as [_ Hread]; [repeat split; discriminate|].
  assert (Hrefs : sinkRefs (snd (cmd.runFetchRef (fun _ _ => inr (serve smallProject))
                                   (fun _ => inl (New "unused")) 5 "token" "" "" "group/repo"
                                   {| clock := 0; drift := [];
                                      ext := ([], sys.sound
                                                    {[ "group-repo.csv" := "old" ]}) |}))
                  = [mkRef 501 1 "aaa"; mkRef 503 3 "ccc"]) by (vm_compute; reflexivity).
  rewrite Hrefs in Hread. apply Hread.
  repeat constructor; unfold in_int64, minInt64, maxInt64; cbn; lia.
Defined.

Lemma runFetchRef_invalid_repository_empties_the_file_witness :
  cmd.runFetchRef (fun _ _ => inr (serve smallProject)) (fun _ => inl (New "unused"))
    5 "token" "" "out.csv" "group//repo"
    {| clock := 0; drift := []; ext := ([], sys.sound {[ "out.csv" := "1,abc" ]}) |}
  = (Returned (Some (Errorf_w "failed to parse repository path: "
                       (New "invalid repository path format: group//repo"))),
     {| clock := 0; drift := [];
        ext := ([], holding (sys.sound {[ "out.csv" := "1,abc" ]}) "out.csv" "") |},
     []).
Proof.
  assert (Hinvalid : ~ validPath "group//repo")
    by (intros H%RepoPaths.MatchString_validPath; discriminate H).
  exact (runFetchRef_invalid_repository_empties_the_file
           (fun _ _ => inr (serve smallProject)) (fun _ => inl (New "unused"))
           5 "token" "" "out.csv" "group//repo"
           {| clock := 0; drift := []; ext := ([], sys.sound {[ "out.csv" := "1,abc" ]}) |}
           (freshClient (cmd.onRemote (serve smallProject)))
           eq_refl eq_refl Hinvalid eq_refl).
Defined.

End Command.

(* ===================================================================== *)
(** * Theorems: reading the file back *)
(* ===================================================================== *)

Module Decode.

Import Go gitlab encodingcsv codec observe.

#[local] Arguments String.append _ _ : simpl nomatch.

Lemma snoc_not_nil {A : Type} (l : list A) (x : A) : l ++ [x] <> [].
Proof. destruct l; discriminate. Qed.

(** A record has one field at least. *)
Lemma scanLine_fields (n : nat) : forall line mode buf fields out,
  (String.length line <= n)%nat ->
  scanLine mode line buf fields = RecordEnd out -> out <> [].
Proof.
  induction n as [|n IH]; intros line mode buf fields out Hlen Hscan.
  - destruct line; [|simpl in Hlen; lia].
    destruct mode; simpl in Hscan; try discriminate;
      injection Hscan as <-; apply snoc_not_nil.
  - destruct line as [|c rest].
    + destruct mode; simpl in Hscan; try discriminate;
        injection Hscan as <-; apply snoc_not_nil.
    + simpl in Hlen.
      destruct mode; cbn [scanLine andb] in Hscan.
      * destruct (Ascii.eqb c quote).
        -- eapply IH; [|exact Hscan]. lia.
        -- destruct (Ascii.eqb c comma); [eapply IH; [|exact Hscan]; lia|].
           destruct (Ascii.eqb c LF && String.eqb rest "").
           ++ injection Hscan as <-. apply snoc_not_nil.
           ++ eapply IH; [|exact Hscan]. lia.
      * destruct (Ascii.eqb c comma); [eapply IH; [|exact Hscan]; lia|].
        destruct (Ascii.eqb c quote); [discriminate|].
        destruct (Ascii.eqb c LF && String.eqb rest "").
        -- injection Hscan as <-. apply snoc_not_nil.
        -- eapply IH; [|exact Hscan]. lia.
      * destruct (Ascii.eqb c quote).
        -- destruct rest as [|d rest'].
           ++ injection Hscan as <-. apply snoc_not_nil.
           ++ simpl in Hlen.
              destruct (Ascii.eqb d quote); [eapply IH; [|exact Hscan]; lia|].
              destruct (Ascii.eqb d comma); [eapply IH; [|exact Hscan]; lia|].
              destruct (endsRecord _); [|discriminate].
              injection Hscan as <-. apply snoc_not_nil.
        -- eapply IH; [|exact Hscan]. lia.
Qed.

(** The records [ReadAll] returns all have the number of fields of the
    first one. *)
Lemma readRecords_uniform (lines : list string) :
  forall open n records out,
  readRecords lines open n records = inr out ->
  (n = 0%nat /\ records = []) \/
  ((0 < n)%nat /\ Forall (fun r : list string => length r = n) records) ->
  exists m, Forall (fun r : list string => length r = m) out.
Proof.
  induction lines as [|line lines IH]; intros open n records out.
  - simpl. destruct open; [discriminate|]. intros [= <-] [[_ ->] | [_ H]].
    + exists 0%nat. constructor.
    + exists n. exact H.
  - cbn [readRecords].
    set (scanned := match open with Some _ => _ | None => _ end).
    destruct scanned as [[fields | fields buf | err]|] eqn:Es; try discriminate.
    + destruct ((0 <? n)%nat && negb (length fields =? n)%nat) eqn:Ecount; [discriminate|].
      intros Hread Hinv. apply (IH _ _ _ _ Hread). right.
      assert (Hfields : fields <> []).
      { subst scanned. destruct open as [[fs0 b0]|].
        - injection Es as Es. eapply scanLine_fields; [|exact Es]. constructor.
        - destruct (endsRecord line); [discriminate|]. injection Es as Es.
          eapply scanLine_fields; [|exact Es]. constructor. }
      split; [destruct fields; [contradiction | simpl; lia]|].
      destruct Hinv as [[-> ->] | [Hn Hall]].
      * repeat constructor.
      * apply Forall_app. split; [|repeat constructor].
        destruct (Nat.ltb_spec 0 n); [|lia]. cbn [andb] in Ecount.
        apply negb_false_iff, Nat.eqb_eq in Ecount. rewrite Ecount. exact Hall.
    + intros Hread Hinv. apply (IH _ _ _ _ Hread Hinv).
    + intros Hread Hinv. apply (IH _ _ _ _ Hread Hinv).
Qed.

Lemma ReadAll_uniform (content : string) (first : list string) (rest : list (list string)) :
  ReadAll content = inr (first :: rest) ->
  Forall (fun r : list string => length r = length first) (first :: rest).
Proof.
  intros Hread. unfold ReadAll in Hread.
  destruct (readRecords_uniform _ _ _ _ _ Hread) as [m Hm]; [left; auto|].
  inversion Hm as [|? ? Hfirst Hrest]. rewrite Hfirst. exact Hm.
Qed.

(** With two fields in every record, only a number can be wrong. *)
Lemma readRefs_two_columns (records : list (list string)) :
  Forall (fun r : list string => length r = 2%nat) records ->
  forall i acc,
  (exists refs, csv.readRefs i records acc = inr refs) \/
  (exists line cause,
     csv.readRefs i records acc
     = inl (Errorf_w ("invalid merge request IID at line " +:+ Itoa line +:+ ": ") cause)).
Proof.
  induction 1 as [|record records Hlen _ IH]; intros i acc.
  - left. exists acc. reflexivity.
  - destruct record as [|a [|b [|? ?]]]; try discriminate. cbn [csv.readRefs].
    destruct (Atoi a); [apply IH|].
    right. eexists. eexists. reflexivity.
Qed.

(** X12.  The two-column check of [ReadRefsFromFile] can only fire on the
    first record.  [ReadAll] has already rejected every file whose records
    differ in their number of fields, so when it succeeds and the first
    record has not two fields, the error names line 1 and that number of
    fields; and when the first record has two, all have, and what is left
    to go wrong is a merge request number. *)
Theorem ReadRefsFromFile_column_check_fires_at_line_1
    (filename content : string) (fs : gmap string string)
    (first : list string) (rest : list (list string)) :
  fs !! filename = Some content ->
  ReadAll content = inr (first :: rest) ->
  (length first <> 2%nat ->
   csv.ReadRefsFromFile filename fs
   = inl (New ("invalid CSV format at line 1: expected 2 columns, got "
               +:+ Itoa (Z.of_nat (length first))))) /\
  (length first = 2%nat ->
   Forall (fun r : list string => length r = 2%nat) (first :: rest) /\
   ((exists refs, csv.ReadRefsFromFile filename fs = inr refs) \/
    (exists line cause,
       csv.ReadRefsFromFile filename fs
       = inl (Errorf_w ("invalid merge request IID at line " +:+ Itoa line +:+ ": ")
                cause)))).
Proof.
  intros Hfile Hread.
  pose proof (ReadAll_uniform _ _ _ Hread) as Hall.
  unfold csv.ReadRefsFromFile, os.Open. rewrite Hfile, Hread.
  split; intros Hlen.
  - destruct first as [|a [|b [|? ?]]]; try reflexivity. contradiction.
  - rewrite Hlen in Hall. split; [exact Hall|].
    apply readRefs_two_columns, Hall.
Qed.

Lemma readRefs_decodes (records : list (list string)) :
  forall i acc refs,
  csv.readRefs i records acc = inr refs <->
  exists new, refs = acc ++ new /\ Forall2 decodes records new.
Proof.
  induction records as [|record records IH]; intros i acc refs.
  - simpl. split.
    + intros [= <-]. exists []. rewrite app_nil_r. split; [reflexivity | constructor].
    + intros (new & -> & Hnew). inversion Hnew; subst. rewrite app_nil_r. reflexivity.
  - split.
    + cbn [csv.readRefs].
      destruct record as [|a [|b [|? ?]]]; try discriminate.
      destruct (Atoi a) as [iid|] eqn:Ea; [|discriminate].
      intros (new & -> & Hnew)%IH.
      exists ({| ID := 0; IID := iid; HeadSHA := b |} :: new).
      rewrite <- app_assoc. split; [reflexivity|].
      constructor; [|exact Hnew]. exists a. auto.
    + intros (new & -> & Hnew).
      inversion Hnew as [|? ref ? new' (a & -> & Ha & Hid) Hrest]; subst.
      cbn [csv.readRefs]. rewrite Ha. apply IH. exists new'.
      rewrite <- app_assoc. split; [|exact Hrest].
      destruct ref as [id iid sha]. simpl in *. subst. reflexivity.
Qed.

(** X13.  [ReadRefsFromFile] returns references exactly when the file
    exists, parses as CSV, and every record is a 64-bit decimal number and
    one more field; the references are then those of the records, one for
    one and in order, with [ID] 0: all of the file or nothing. *)
Theorem ReadRefsFromFile_decodes (filename : string) (fs : gmap string string)
    (refs : list MergeRequestRef) :
  csv.ReadRefsFromFile filename fs = inr refs <->
  exists content records,
    fs !! filename = Some content /\
    ReadAll content = inr records /\
    Forall2 decodes records refs.
Proof.
  unfold csv.ReadRefsFromFile, os.Open. split.
  - destruct (fs !! filename) as [content|]; [|discriminate].
    destruct (ReadAll content) as [err|records] eqn:Hread; [discriminate|].
    intros (new & -> & Hnew)%readRefs_decodes.
    exists content, records. auto.
  - intros (content & records & -> & -> & Hrefs).
    apply readRefs_decodes. exists refs. auto.
Qed.

Section WithAbs.

Variable filepath_Abs : string -> error + string.

(** X14.  [WriteRefsToCSV] and back.  When [filepath.Abs] fails, or when
    the system refuses to create the file named by [GenerateFilename], the
    call returns that error (under [failed to get absolute path], under
    [failed to create file]) and nothing is written.  When the file can be
    created and the system takes every write to it, the call returns the
    absolute path, has written that file and changed nothing else, and
    [ReadRefsFromFile] reads from it the references written, without [ID],
    provided the hashes hold no comma, quote or line feed and the numbers
    are 64-bit. *)
Theorem WriteRefsToCSV_then_read (refs : list MergeRequestRef) (repoPath : string)
    (fs : sys.FileSystem) :
  Forall (fun ref => in_int64 (IID ref) /\ plainSHA (HeadSHA ref)) refs ->
  let filename := csvfile.GenerateFilename repoPath in
  let written := csvsys.WriteRefsToCSV filepath_Abs refs repoPath fs in
  match filepath_Abs filename with
  | inl err => written = (inl (Errorf_w "failed to get absolute path: " err), fs)
  | inr absPath =>
    (forall err,
       sys.createError fs filename = Some err ->
       written = (inl (Errorf_w ("failed to create file " +:+ filename +:+ ": ") err), fs)) /\
    (writable fs filename ->
     written = (inr absPath, holding fs filename (concatLines (map lineOf refs))) /\
     csv.ReadRefsFromFile filename (sys.files (snd written)) = inr (map stored refs))
  end.
Proof.
  intros Hrefs. cbv zeta. unfold csvsys.WriteRefsToCSV.
  assert (Hname : csvfile.GenerateFilename repoPath <> "").
  { unfold csvfile.GenerateFilename. cbv zeta.
    destruct (strings.ReplaceAll _ "/" "-"); discriminate. }
  destruct (filepath_Abs (csvfile.GenerateFilename repoPath)) as [err|absPath];
    [reflexivity|].
  split.
  - intros err Hcreate. unfold csvsys.WriteRefsToFile.
    rewrite (Stream.Create_refused _ _ _ Hname Hcreate). reflexivity.
  - intros Hw. rewrite (Stream.WriteRefsToFile_taken _ _ _ Hw). split; [reflexivity|].
    cbn [snd].
    destruct (Codec.roundtrip refs _ (sys.files fs) Hname Hrefs) as [_ Hrt].
    rewrite (Codec.WriteRefsToFile_content _ _ _ Hname) in Hrt. cbn [snd] in Hrt.
    rewrite insert_insert_eq in Hrt. exact Hrt.
Qed.

End WithAbs.

Lemma ReadRefsFromFile_column_check_fires_at_line_1_witness :
  csv.ReadRefsFromFile "refs.csv" {[ "refs.csv" := "1,abc123,extra" ]}
  = inl (New "invalid CSV format at line 1: expected 2 columns, got 3").
Proof.
  refine (proj1 (ReadRefsFromFile_column_check_fires_at_line_1
                   "refs.csv" "1,abc123,extra" {[ "refs.csv" := "1,abc123,extra" ]}
                   ["1"; "abc123"; "extra"] [] _ _) _).
  - vm_compute. reflexivity.
  - vm_compute. reflexivity.
  - discriminate.
Defined.

Lemma WriteRefsToCSV_then_read_witness :
  csv.ReadRefsFromFile "group-repo.csv"
    (sys.files (snd (csvsys.WriteRefsToCSV (fun name => inr ("/work/" +:+ name))
                       [mkRef 501 1 "abc123"; mkRef 502 16 "def456"] "group/repo"
                       (sys.sound ∅))))
  = inr [mkRef 0 1 "abc123"; mkRef 0 16 "def456"].
Proof.
  assert (Hrefs : Forall (fun ref => in_int64 (IID ref) /\ plainSHA (HeadSHA ref))
                    [mkRef 501 1 "abc123"; mkRef 502 16 "def456"]).
  { repeat constructor; unfold in_int64, minInt64, maxInt64; cbn; lia. }
  assert (Hw : writable (sys.sound ∅) (csvfile.GenerateFilename "group/repo"))
    by (repeat split; discriminate).
  exact (proj2 (proj2 (WriteRefsToCSV_then_read (fun name => inr ("/work/" +:+ name))
                         [mkRef 501 1 "abc123"; mkRef 502 16 "def456"] "group/repo"
                         (sys.sound ∅) Hrefs) Hw)).
Defined.

End Decode.
